(** * Session log: dose model, tolerance model, session store and persistence

  A shallow embedding of [utils.ts] (dose, tolerance, interval and duration
  helpers, load/save of the persisted snapshot) and of the session-store
  handlers of [App.tsx], followed by the properties established for them.

  Number model.  A TypeScript [number] that is finite is a rational, so the
  stored data (timestamps, weights, percentages, sharer counts) is [Q] and
  the arithmetic [+ - * / max min floor] is the exact one on [Q]; only
  [Math.exp] and [Math.log] need [R].  [NaN], the infinities and the
  rounding of IEEE-754 operations are outside this model. *)

From Stdlib Require Import ZArith QArith Qminmax Qround Qpower Qreals Reals.
From Stdlib Require Import List String Ascii Bool.
From Stdlib Require Import Permutation Sorted.
From Stdlib Require Import DecimalString DecimalFacts DecimalPos DecimalN DecimalZ.
From Stdlib Require Import Lia Lra Lqa.
Import ListNotations.

Set Warnings "-register-all".

(* ================================================================= *)
(** ** Data model ([types.ts]) *)

Module Types.

Record ConsumptionEvent := {
  timestamp   : Q;              (* ms since epoch *)
  weightGrams : Q;              (* grams *)
  thcPercent  : Q;              (* 0-100 *)
  method      : string;
  eventNotes  : option string   (* [notes?] of the event *)
}.

Record SessionContext := {
  place    : option string;
  weather  : option string;
  noise    : option string;
  light    : option string;
  music    : option string;
  activity : option string
}.

Record SocialContext := {
  numPeopleSharing : option Q   (* includes user *)
}.

Record UserState := {
  lastMeal  : option string;
  mood      : option string;
  intention : option string
}.

Record GeoLocation := { lat : Q; lon : Q }.

Inductive TimeOfDay := Morning | Afternoon | Evening | Night.

Record BaseSubstance := { type : option string }.

Record Session := {
  id            : string;
  startTime     : Q;
  endTime       : option Q;
  active        : bool;
  geo           : option GeoLocation;
  timeOfDay     : option TimeOfDay;
  baseSubstance : option BaseSubstance;
  context       : SessionContext;
  social        : SocialContext;
  user          : UserState;
  supplements   : list string;
  effects       : list string;
  notes         : option string;
  consumptions  : list ConsumptionEvent
}.

End Types.
Import Types.

(* ================================================================= *)
(** ** JavaScript primitives used by the code *)

Module Js.

(** The double-quote character (code 34). *)
Definition dquote : ascii :=
  Ascii false true false false false true false false.

(** [a ?? b] on an optional value. *)
Definition nullish {A} (a : option A) (b : A) : A :=
  match a with Some x => x | None => b end.

(** [Math.round]: the nearest integer, a tie going up, that is
    [floor (x + 1/2)]. *)
Definition Math_round (x : R) : Z := Int_part (x + / 2).

(** [String(n)] / [n + 'h'] for an integer [n]: its decimal numeral, with a
    leading [-] when negative (integers below [10^21] in magnitude). *)
Definition Number_toString (n : Z) : string :=
  NilZero.string_of_int (Z.to_int n).

(** Truthiness of a number that is not [NaN]. *)
Definition truthyZ (n : Z) : bool := negb (n =? 0)%Z.

(** [parts.join(sep)]. *)
Fixpoint join (sep : string) (parts : list string) : string :=
  match parts with
  | [] => EmptyString
  | [p] => p
  | p :: rest => p ++ sep ++ join sep rest
  end.

(** [s || d] on strings: the empty string is falsy. *)
Definition orElse (s d : string) : string :=
  match s with EmptyString => d | _ => s end.

(** [x || d] on numbers: zero is falsy. *)
Definition orNum (x d : Q) : Q := if Qeq_bool x 0 then d else x.

(** White space removed by [String.prototype.trim], on the ASCII range:
    TAB, LF, VT, FF, CR and SP. *)
Definition isSpace (c : ascii) : bool :=
  let n := nat_of_ascii c in
  ((9 <=? n) && (n <=? 13) || (n =? 32))%nat.

Fixpoint trimStart (s : string) : string :=
  match s with
  | String c rest => if isSpace c then trimStart rest else s
  | EmptyString => EmptyString
  end.

(** [trimEnd], written as one pass from the right: a character is dropped
    when it is white space and everything after it was dropped. *)
Fixpoint trimEnd (s : string) : string :=
  match s with
  | EmptyString => EmptyString
  | String c rest =>
      match trimEnd rest with
      | EmptyString => if isSpace c then EmptyString else String c EmptyString
      | kept => String c kept
      end
  end.

Definition trim (s : string) : string := trimEnd (trimStart s).

(** [s.split(sep)] for a one-character separator; [cur] is the piece being
    read.  The result always has at least one piece. *)
Fixpoint split_from (sep : ascii) (cur : string) (s : string) : list string :=
  match s with
  | EmptyString => [cur]
  | String c rest =>
      if Ascii.eqb c sep
      then cur :: split_from sep EmptyString rest
      else split_from sep (cur ++ String c EmptyString) rest
  end.

Definition split (sep : ascii) (s : string) : list string :=
  split_from sep EmptyString s.

(** [Boolean(s)] for a string. *)
Definition truthyStr (s : string) : bool :=
  match s with EmptyString => false | _ => true end.

(** [Math.round] of a rational. *)
Definition Math_roundQ (x : Q) : Z := Qfloor (x + (1 # 2)).

(** Truthiness of a number that is not [NaN]: zero is falsy. *)
Definition truthyNum (x : Q) : bool := negb (Qeq_bool x 0).

(** [x > y] on numbers. *)
Definition gtNum (x y : Q) : bool := negb (Qle_bool x y).

(** [Array.prototype.sort(compare)].  The sort is stable, and for a
    comparator that orders its arguments consistently (as a difference of
    two numbers does) the result is determined: the elements in ascending
    order, those that compare equal in the order they had.  It is written
    here as the insertion sort that builds this order from the right:
    [x], which stood before everything in [l], goes before the first
    element it does not compare greater than. *)
Fixpoint sort_insert {A} (compare : A -> A -> Q) (x : A) (l : list A)
  : list A :=
  match l with
  | [] => [x]
  | y :: rest =>
      if Qle_bool (compare x y) 0 then x :: l
      else y :: sort_insert compare x rest
  end.

Definition Array_sort {A} (compare : A -> A -> Q) (l : list A) : list A :=
  fold_right (sort_insert compare) [] l.

End Js.

(* ================================================================= *)
(** ** JSON values, [JSON.parse] and [JSON.stringify]

    The two built-ins the persistence code calls, as ECMA-404 and the
    language specification define them.  Text is a byte string (UTF-8) and
    a string value is compared as bytes; a [\u] escape stands for the UTF-8
    bytes of its code unit.  A number is the rational its numeral denotes,
    with no rounding to a double.  An object keeps its members in insertion
    order (JavaScript moves integer-like names first; no name of a session
    is one). *)

Module JSON.

Inductive value :=
| Null
| Bool (b : bool)
| Num (q : Q)
| Str (s : string)
| Arr (items : list value)
| Obj (members : list (string * value)).

(** *** Values as JavaScript sees them *)

Definition isArray (v : option value) : bool :=
  match v with Some (Arr _) => true | _ => false end.

(** The elements of a value known to be an array. *)
Definition elements (v : option value) : list value :=
  match v with Some (Arr items) => items | _ => [] end.

Definition truthy (v : value) : bool :=
  match v with
  | Null => false
  | Bool b => b
  | Num q => negb (Qeq_bool q 0)
  | Str s => Js.truthyStr s
  | Arr _ | Obj _ => true
  end.

Fixpoint lookup (k : string) (members : list (string * value))
  : option value :=
  match members with
  | [] => None
  | (k', v) :: rest => if String.eqb k k' then Some v else lookup k rest
  end.

(** [v.k] for a data key [k]: [None] is [undefined].  Only an object has
    data keys (built-in properties such as [length] are not keys). *)
Definition getProp (v : value) (k : string) : option value :=
  match v with Obj members => lookup k members | _ => None end.

(** *** Reading *)

Definition isWs (c : ascii) : bool :=
  let n := N_of_ascii c in
  ((n =? 32) || (n =? 9) || (n =? 10) || (n =? 13))%N.

Fixpoint skip_ws (s : string) : string :=
  match s with
  | String c rest => if isWs c then skip_ws rest else s
  | EmptyString => EmptyString
  end.

Definition digitOf (c : ascii) : option Z :=
  let n := Z.of_N (N_of_ascii c) in
  if ((48 <=? n) && (n <=? 57))%Z then Some (n - 48)%Z else None.

(** The longest run of digits at the head of [s], accumulated onto [acc];
    [count] counts them. *)
Fixpoint read_digits (acc : Z) (count : nat) (s : string)
  : Z * nat * string :=
  match s with
  | String c rest =>
      match digitOf c with
      | Some d => read_digits (10 * acc + d)%Z (S count) rest
      | None => (acc, count, s)
      end
  | EmptyString => (acc, count, s)
  end.

(** [mantissa * 10 ^ exponent], in lowest terms. *)
Definition decimal (neg : bool) (mantissa exponent : Z) : Q :=
  Qred (inject_Z (if neg then - mantissa else mantissa)
        * Qpower 10 exponent).

(** [int = 0 | [1-9][0-9]*]: its value. *)
Definition parse_int (s : string) : option (Z * string) :=
  match s with
  | EmptyString => None
  | String c r =>
      match digitOf c with
      | None => None
      | Some d =>
          if (d =? 0)%Z then Some (0%Z, r)
          else let '(m, _, s') := read_digits d 1 r in Some (m, s')
      end
  end.

(** [frac? = (. [0-9]+)?] after an integer part [m]: the digits of [m]
    followed by those of the fraction, as one integer, and the number of
    fraction digits. *)
Definition parse_frac (m : Z) (s : string) : option (Z * Z * string) :=
  match s with
  | EmptyString => Some (m, 0%Z, s)
  | String c r =>
      if Ascii.eqb c "." then
        match read_digits m 0 r with
        | (_, O, _) => None
        | (m', k, s') => Some (m', Z.of_nat k, s')
        end
      else Some (m, 0%Z, s)
  end.

(** [exp? = ([eE] [+-]? [0-9]+)?]: the exponent, 0 when there is none. *)
Definition parse_exp (s : string) : option (Z * string) :=
  match s with
  | EmptyString => Some (0%Z, s)
  | String c r =>
      if Ascii.eqb c "e" || Ascii.eqb c "E" then
        let (eneg, r') :=
          match r with
          | EmptyString => (false, r)
          | String sign r'' =>
              if Ascii.eqb sign "-" then (true, r'')
              else if Ascii.eqb sign "+" then (false, r'')
              else (false, r)
          end in
        match read_digits 0 0 r' with
        | (_, O, _) => None
        | (x, _, s') => Some (if eneg then (- x)%Z else x, s')
        end
      else Some (0%Z, s)
  end.

(** [int frac? exp?] read as a number, negated when [neg]. *)
Definition parse_unsigned (neg : bool) (s : string) : option (Q * string) :=
  match parse_int s with
  | None => None
  | Some (m, s2) =>
      match parse_frac m s2 with
      | None => None
      | Some (m', k, s3) =>
          match parse_exp s3 with
          | None => None
          | Some (x, s4) => Some (decimal neg m' (x - k), s4)
          end
      end
  end.

(** [number = -? int frac? exp?]. *)
Definition parse_number (s : string) : option (Q * string) :=
  match s with
  | EmptyString => None
  | String c r =>
      if Ascii.eqb c "-" then parse_unsigned true r
      else parse_unsigned false s
  end.

Definition hexOf (c : ascii) : option N :=
  let n := N_of_ascii c in
  if ((48 <=? n) && (n <=? 57))%N then Some (n - 48)%N
  else if ((97 <=? n) && (n <=? 102))%N then Some (n - 87)%N
  else if ((65 <=? n) && (n <=? 70))%N then Some (n - 55)%N
  else None.

Definition hex4 (a b c d : ascii) : option N :=
  match hexOf a, hexOf b, hexOf c, hexOf d with
  | Some x, Some y, Some z, Some w =>
      Some (((x * 16 + y) * 16 + z) * 16 + w)%N
  | _, _, _, _ => None
  end.

(** The UTF-8 bytes of a code unit below [0x10000]. *)
Definition utf8 (n : N) : string :=
  if (n <? 128)%N then String (ascii_of_N n) EmptyString
  else if (n <? 2048)%N then
    String (ascii_of_N (192 + n / 64))
      (String (ascii_of_N (128 + n mod 64)) EmptyString)
  else
    String (ascii_of_N (224 + n / 4096))
      (String (ascii_of_N (128 + (n / 64) mod 64))
         (String (ascii_of_N (128 + n mod 64)) EmptyString)).

(** The character a one-letter escape stands for. *)
Definition unescape (e : ascii) : option ascii :=
  if Ascii.eqb e Js.dquote then Some Js.dquote
  else if Ascii.eqb e "\" then Some "\"%char
  else if Ascii.eqb e "/" then Some "/"%char
  else if Ascii.eqb e "b" then Some "008"%char
  else if Ascii.eqb e "f" then Some "012"%char
  else if Ascii.eqb e "n" then Some "010"%char
  else if Ascii.eqb e "r" then Some "013"%char
  else if Ascii.eqb e "t" then Some "009"%char
  else None.

Definition prepend (prefix : string) (r : option (string * string))
  : option (string * string) :=
  match r with
  | Some (str, rest) => Some ((prefix ++ str)%string, rest)
  | None => None
  end.

(** The characters of a string literal after its opening quote, up to and
    including the closing quote: the string they denote and what follows. *)
Fixpoint parse_chars (s : string) : option (string * string) :=
  match s with
  | EmptyString => None
  | String c rest =>
      if Ascii.eqb c Js.dquote then Some (EmptyString, rest)
      else if Ascii.eqb c "\" then
        match rest with
        | EmptyString => None
        | String e rest1 =>
            match unescape e with
            | Some c' => prepend (String c' EmptyString) (parse_chars rest1)
            | None =>
                if Ascii.eqb e "u" then
                  match rest1 with
                  | String h1 (String h2 (String h3 (String h4 rest2))) =>
                      match hex4 h1 h2 h3 h4 with
                      | Some n => prepend (utf8 n) (parse_chars rest2)
                      | None => None
                      end
                  | _ => None
                  end
                else None
            end
        end
      else if (N_of_ascii c <? 32)%N then None
      else prepend (String c EmptyString) (parse_chars rest)
  end.

(** [s] must start with [word]; what follows it. *)
Fixpoint expect (word s : string) : option string :=
  match word, s with
  | EmptyString, _ => Some s
  | String w word', String c rest =>
      if Ascii.eqb w c then expect word' rest else None
  | String _ _, EmptyString => None
  end.

Fixpoint remove_key (k : string) (members : list (string * value))
  : list (string * value) :=
  match members with
  | [] => []
  | (k', v) :: rest =>
      if String.eqb k k' then remove_key k rest
      else (k', v) :: remove_key k rest
  end.

(** The member [k: v] followed by the members [later]: a later member of
    the same name overwrites the value and the name keeps its first
    place. *)
Definition add_member (k : string) (v : value)
           (later : list (string * value)) : list (string * value) :=
  match lookup k later with
  | Some v' => (k, v') :: remove_key k later
  | None => (k, v) :: later
  end.

(** The punctuation character [c], after any white space: what follows
    it. *)
Definition token (c : ascii) (s : string) : option string :=
  match skip_ws s with
  | EmptyString => None
  | String c' r => if Ascii.eqb c' c then Some r else None
  end.

Fixpoint parse_value (fuel : nat) (s : string) : option (value * string) :=
  match fuel with
  | O => None
  | S fuel' =>
      match skip_ws s with
      | EmptyString => None
      | String c rest =>
          if Ascii.eqb c "n" then option_map (pair Null) (expect "ull" rest)
          else if Ascii.eqb c "t" then
            option_map (pair (Bool true)) (expect "rue" rest)
          else if Ascii.eqb c "f" then
            option_map (pair (Bool false)) (expect "alse" rest)
          else if Ascii.eqb c Js.dquote then
            match parse_chars rest with
            | Some (str, r) => Some (Str str, r)
            | None => None
            end
          else if Ascii.eqb c "[" then
            match token "]" rest with
            | Some r => Some (Arr [], r)
            | None =>
                match parse_elements fuel' rest with
                | Some (items, r) => Some (Arr items, r)
                | None => None
                end
            end
          else if Ascii.eqb c "{" then
            match token "}" rest with
            | Some r => Some (Obj [], r)
            | None =>
                match parse_members fuel' rest with
                | Some (members, r) => Some (Obj members, r)
                | None => None
                end
            end
          else
            match parse_number (String c rest) with
            | Some (q, r) => Some (Num q, r)
            | None => None
            end
      end
  end

(** One or more values separated by commas, then the closing bracket. *)
with parse_elements (fuel : nat) (s : string)
  : option (list value * string) :=
  match fuel with
  | O => None
  | S fuel' =>
      match parse_value fuel' s with
      | None => None
      | Some (v, r) =>
          match token "," r with
          | Some r' =>
              match parse_elements fuel' r' with
              | Some (vs, r'') => Some (v :: vs, r'')
              | None => None
              end
          | None =>
              match token "]" r with
              | Some r' => Some ([v], r')
              | None => None
              end
          end
      end
  end

(** One or more [name: value] members separated by commas, then the
    closing brace. *)
with parse_members (fuel : nat) (s : string)
  : option (list (string * value) * string) :=
  match fuel with
  | O => None
  | S fuel' =>
      match token Js.dquote s with
      | None => None
      | Some r =>
          match parse_chars r with
          | None => None
          | Some (k, r1) =>
              match token ":" r1 with
              | None => None
              | Some r2 =>
                  match parse_value fuel' r2 with
                  | None => None
                  | Some (v, r3) =>
                      match token "," r3 with
                      | Some r4 =>
                          match parse_members fuel' r4 with
                          | Some (ms, r5) => Some (add_member k v ms, r5)
                          | None => None
                          end
                      | None =>
                          match token "}" r3 with
                          | Some r4 => Some ([(k, v)], r4)
                          | None => None
                          end
                      end
                  end
              end
          end
      end
  end.

(** [JSON.parse text]; [None] is a thrown [SyntaxError].  Every second
    call at least consumes a character, so the fuel is never the reason
    for [None]. *)
Definition parse (text : string) : option value :=
  match parse_value (2 * String.length text + 2) text with
  | Some (v, r) =>
      match skip_ws r with
      | EmptyString => Some v
      | _ => None
      end
  | None => None
  end.

(** *** Writing *)

Definition hexDigit (n : N) : ascii :=
  if (n <? 10)%N then ascii_of_N (48 + n) else ascii_of_N (87 + n).

(** How [JSON.stringify] writes one character of a string. *)
Definition quote_char (c : ascii) : string :=
  if Ascii.eqb c Js.dquote then String "\" (String Js.dquote EmptyString)
  else if Ascii.eqb c "\" then "\\"
  else if Ascii.eqb c "008" then "\b"
  else if Ascii.eqb c "012" then "\f"
  else if Ascii.eqb c "010" then "\n"
  else if Ascii.eqb c "013" then "\r"
  else if Ascii.eqb c "009" then "\t"
  else
    let n := N_of_ascii c in
    if (n <? 32)%N
    then String "\" (String "u" (String "0" (String "0"
           (String (hexDigit (n / 16))
              (String (hexDigit (n mod 16)) EmptyString)))))
    else String c EmptyString.

Fixpoint quote_chars (s : string) : string :=
  match s with
  | EmptyString => EmptyString
  | String c rest => (quote_char c ++ quote_chars rest)%string
  end.

Definition quote (s : string) : string :=
  String Js.dquote (quote_chars s ++ String Js.dquote EmptyString)%string.

(** The least [k <= fuel] with [10^k * num] a multiple of [den]. *)
Fixpoint decimal_places (fuel : nat) (k : nat) (num : Z) (den : positive)
  : option nat :=
  if (Z.rem (10 ^ Z.of_nat k * num) (Zpos den) =? 0)%Z then Some k
  else match fuel with
       | O => None
       | S fuel' => decimal_places fuel' (S k) num den
       end.

Definition digitChar (d : Z) : ascii := ascii_of_N (Z.to_N (48 + d)).

(** The last [k] decimal digits of [n], most significant first. *)
Fixpoint fixed_digits (k : nat) (n : Z) : string :=
  match k with
  | O => EmptyString
  | S k' =>
      String (digitChar ((n / 10 ^ Z.of_nat k') mod 10))
             (fixed_digits k' (n mod 10 ^ Z.of_nat k'))
  end.

(** A number in positional decimal notation: the integer part, then the
    fraction digits when there are any.  (For very large and very small
    magnitudes JavaScript writes an exponent instead; the numeral differs,
    the number it denotes does not.)  The denominator of a fraction in
    lowest terms with a finite decimal numeral is [2^a * 5^b], and the
    number of fraction digits, the larger of [a] and [b], is at most its
    binary size: that bounds the search.  A rational with no finite decimal
    numeral is not a value a [number] takes; like the non-finite ones it is
    written [null]. *)
Definition Number_toJSON (q : Q) : string :=
  let q := Qred q in
  match decimal_places (Pos.size_nat (Qden q)) 0 (Qnum q) (Qden q) with
  | None => "null"
  | Some k =>
      let scaled := (Z.abs (Qnum q) * 10 ^ Z.of_nat k / Zpos (Qden q))%Z in
      let whole := (scaled / 10 ^ Z.of_nat k)%Z in
      let part := (scaled mod 10 ^ Z.of_nat k)%Z in
      ((if (Qnum q <? 0)%Z then "-" else EmptyString)
       ++ Js.Number_toString whole
       ++ match k with
          | O => EmptyString
          | _ => String "." (fixed_digits k part)
          end)%string
  end.

Fixpoint stringify (v : value) : string :=
  match v with
  | Null => "null"
  | Bool true => "true"
  | Bool false => "false"
  | Num q => Number_toJSON q
  | Str s => quote s
  | Arr items => "[" ++ Js.join "," (map stringify items) ++ "]"
  | Obj members =>
      "{" ++ Js.join ","
               (map (fun m => quote (fst m) ++ ":" ++ stringify (snd m))
                    members)
          ++ "}"
  end%string.

(** [JSON.stringify(v, null, 2)] at the indentation [indent]: an array or
    object that is not empty has one element or member per line, two
    spaces deeper than the line it starts on, and a space follows the
    colon of a member. *)
Fixpoint stringify_indent (indent : string) (v : value) : string :=
  let stepback := indent in
  let indent := (indent ++ "  ")%string in
  let separator := ("," ++ String "010" indent)%string in
  match v with
  | Null => "null"
  | Bool true => "true"
  | Bool false => "false"
  | Num q => Number_toJSON q
  | Str s => quote s
  | Arr [] => "[]"
  | Arr items =>
      "[" ++ String "010" indent
          ++ Js.join separator (map (stringify_indent indent) items)
          ++ String "010" stepback ++ "]"
  | Obj [] => "{}"
  | Obj members =>
      "{" ++ String "010" indent
          ++ Js.join separator
               (map (fun m => quote (fst m) ++ ": "
                              ++ stringify_indent indent (snd m))
                    members)
          ++ String "010" stepback ++ "}"
  end%string.

End JSON.

(* ================================================================= *)
(** ** Sessions as JavaScript objects

  [toJSON] is the object a typed record stands for, as [JSON.stringify]
  sees it: one member per field that is defined, in the order of the type
  declaration (an [undefined] field is left out).  [read] is the typed
  view of an object: the fields that code holding it as a [Session]
  reads. *)

Module Codec.
Import JSON.
Local Open Scope string_scope.
Local Open Scope list_scope.

Definition optional {A} (k : string) (f : A -> value) (x : option A)
  : list (string * value) :=
  match x with Some a => [(k, f a)] | None => [] end.

Definition strings (l : list string) : value := Arr (map Str l).

Definition ConsumptionEvent_toJSON (ev : ConsumptionEvent) : value :=
  Obj ([("timestamp", Num (timestamp ev));
        ("weightGrams", Num (weightGrams ev));
        ("thcPercent", Num (thcPercent ev));
        ("method", Str (method ev))]
       ++ optional "notes" Str (eventNotes ev)).

Definition SessionContext_toJSON (c : SessionContext) : value :=
  Obj (optional "place" Str (place c) ++ optional "weather" Str (weather c)
       ++ optional "noise" Str (noise c) ++ optional "light" Str (light c)
       ++ optional "music" Str (music c)
       ++ optional "activity" Str (activity c)).

Definition SocialContext_toJSON (c : SocialContext) : value :=
  Obj (optional "numPeopleSharing" Num (numPeopleSharing c)).

Definition UserState_toJSON (u : UserState) : value :=
  Obj (optional "lastMeal" Str (lastMeal u) ++ optional "mood" Str (mood u)
       ++ optional "intention" Str (intention u)).

Definition GeoLocation_toJSON (g : GeoLocation) : value :=
  Obj [("lat", Num (lat g)); ("lon", Num (lon g))].

Definition TimeOfDay_toJSON (t : TimeOfDay) : value :=
  Str match t with
      | Morning => "Morning" | Afternoon => "Afternoon"
      | Evening => "Evening" | Night => "Night"
      end.

Definition BaseSubstance_toJSON (b : BaseSubstance) : value :=
  Obj (optional "type" Str (type b)).

Definition Session_toJSON (s : Session) : value :=
  Obj ([("id", Str (id s)); ("startTime", Num (startTime s))]
       ++ optional "endTime" Num (endTime s)
       ++ [("active", Bool (active s))]
       ++ optional "geo" GeoLocation_toJSON (geo s)
       ++ optional "timeOfDay" TimeOfDay_toJSON (timeOfDay s)
       ++ optional "baseSubstance" BaseSubstance_toJSON (baseSubstance s)
       ++ [("context", SessionContext_toJSON (context s));
           ("social", SocialContext_toJSON (social s));
           ("user", UserState_toJSON (user s));
           ("supplements", strings (supplements s));
           ("effects", strings (effects s))]
       ++ optional "notes" Str (notes s)
       ++ [("consumptions",
            Arr (map ConsumptionEvent_toJSON (consumptions s)))]).

(** *** The typed view *)

Definition bind {A B} (x : option A) (f : A -> option B) : option B :=
  match x with Some a => f a | None => None end.

Notation "x <- e ;; k" := (bind e (fun x => k))
  (at level 61, e at next level, right associativity).

Definition asNum (v : option value) : option Q :=
  match v with Some (Num q) => Some q | _ => None end.

Definition asStr (v : option value) : option string :=
  match v with Some (Str s) => Some s | _ => None end.

Definition asBool (v : option value) : option bool :=
  match v with Some (Bool b) => Some b | _ => None end.

(** A field declared [k?: T]: absent, or of type [T]. *)
Definition opt {A} (as_ : option value -> option A) (v : option value)
  : option (option A) :=
  match v with None => Some None | _ => option_map Some (as_ v) end.

Fixpoint all {A} (as_ : option value -> option A) (l : list value)
  : option (list A) :=
  match l with
  | [] => Some []
  | v :: rest =>
      a <- as_ (Some v) ;; r <- all as_ rest ;; Some (a :: r)
  end.

Definition asList {A} (as_ : option value -> option A) (v : option value)
  : option (list A) :=
  match v with Some (Arr items) => all as_ items | _ => None end.

Definition asObj {A} (readObj : value -> option A) (v : option value)
  : option A :=
  match v with Some (Obj m) => readObj (Obj m) | _ => None end.

Definition ConsumptionEvent_read (v : value) : option ConsumptionEvent :=
  t <- asNum (getProp v "timestamp") ;;
  w <- asNum (getProp v "weightGrams") ;;
  p <- asNum (getProp v "thcPercent") ;;
  m <- asStr (getProp v "method") ;;
  n <- opt asStr (getProp v "notes") ;;
  Some {| timestamp := t; weightGrams := w; thcPercent := p;
          method := m; eventNotes := n |}.

Definition SessionContext_read (v : value) : option SessionContext :=
  a <- opt asStr (getProp v "place") ;;
  b <- opt asStr (getProp v "weather") ;;
  c <- opt asStr (getProp v "noise") ;;
  d <- opt asStr (getProp v "light") ;;
  e <- opt asStr (getProp v "music") ;;
  f <- opt asStr (getProp v "activity") ;;
  Some {| place := a; weather := b; noise := c; light := d; music := e;
          activity := f |}.

Definition SocialContext_read (v : value) : option SocialContext :=
  n <- opt asNum (getProp v "numPeopleSharing") ;;
  Some {| numPeopleSharing := n |}.

Definition UserState_read (v : value) : option UserState :=
  a <- opt asStr (getProp v "lastMeal") ;;
  b <- opt asStr (getProp v "mood") ;;
  c <- opt asStr (getProp v "intention") ;;
  Some {| lastMeal := a; mood := b; intention := c |}.

Definition GeoLocation_read (v : value) : option GeoLocation :=
  a <- asNum (getProp v "lat") ;;
  b <- asNum (getProp v "lon") ;;
  Some {| lat := a; lon := b |}.

Definition asTimeOfDay (v : option value) : option TimeOfDay :=
  s <- asStr v ;;
  if String.eqb s "Morning" then Some Morning
  else if String.eqb s "Afternoon" then Some Afternoon
  else if String.eqb s "Evening" then Some Evening
  else if String.eqb s "Night" then Some Night
  else None.

Definition BaseSubstance_read (v : value) : option BaseSubstance :=
  t <- opt asStr (getProp v "type") ;;
  Some {| type := t |}.

Definition Session_read (v : value) : option Session :=
  i <- asStr (getProp v "id") ;;
  st <- asNum (getProp v "startTime") ;;
  en <- opt asNum (getProp v "endTime") ;;
  ac <- asBool (getProp v "active") ;;
  ge <- opt (asObj GeoLocation_read) (getProp v "geo") ;;
  td <- opt asTimeOfDay (getProp v "timeOfDay") ;;
  bs <- opt (asObj BaseSubstance_read) (getProp v "baseSubstance") ;;
  cx <- asObj SessionContext_read (getProp v "context") ;;
  so <- asObj SocialContext_read (getProp v "social") ;;
  us <- asObj UserState_read (getProp v "user") ;;
  su <- asList asStr (getProp v "supplements") ;;
  ef <- asList asStr (getProp v "effects") ;;
  no <- opt asStr (getProp v "notes") ;;
  co <- asList (asObj ConsumptionEvent_read) (getProp v "consumptions") ;;
  Some {| id := i; startTime := st; endTime := en; active := ac;
          geo := ge; timeOfDay := td; baseSubstance := bs; context := cx;
          social := so; user := us; supplements := su; effects := ef;
          notes := no; consumptions := co |}.

End Codec.

(* ================================================================= *)
(** ** [localStorage] *)

Module LocalStorage.

(** The stored string of every key; [None] where [getItem] gives [null]. *)
Definition t := string -> option string.

Definition empty : t := fun _ => None.

Definition getItem (key : string) (ls : t) : option string := ls key.

Definition setItem (key value : string) (ls : t) : t :=
  fun k => if String.eqb k key then Some value else ls k.

End LocalStorage.

(* ================================================================= *)
(** ** Dose, tolerance, interval and duration ([utils.ts]) *)

Module Utils.
Import Js.

Definition STORAGE_KEY : string := "WEED_SESSIONS_V1".

(** The result is what was parsed, cast to [Session[]] unchecked: a list of
    JSON values.  [try ... catch] is the [None] of [JSON.parse]. *)
Definition loadSessions (localStorage : LocalStorage.t) : list JSON.value :=
  match LocalStorage.getItem STORAGE_KEY localStorage with
  | None => []
  | Some raw =>
      if negb (truthyStr raw) then [] else
      match JSON.parse raw with
      | None => []
      | Some parsed =>
          if JSON.isArray (Some parsed) then JSON.elements (Some parsed)
          else if JSON.truthy parsed
                  && JSON.isArray (JSON.getProp parsed "sessions")
          then JSON.elements (JSON.getProp parsed "sessions")
          else []
      end
  end.

(** [payload] of [saveSessions]; [createdAt] is [Date.now()]. *)
Definition payload (sessions : list Session) (createdAt : Q) : JSON.value :=
  JSON.Obj [("sessions"%string, JSON.Arr (map Codec.Session_toJSON sessions));
            ("createdAt"%string, JSON.Num createdAt);
            ("version"%string, JSON.Num 1)].

Definition saveSessions (sessions : list Session) (createdAt : Q)
           (localStorage : LocalStorage.t) : LocalStorage.t :=
  LocalStorage.setItem STORAGE_KEY
    (JSON.stringify (payload sessions createdAt)) localStorage.

Definition doseFromEvent (ev : ConsumptionEvent) (sharers : option Q) : Q :=
  let thcFrac := Qmax 0 (Qmin (thcPercent ev) 100) / 100 in
  let baseDose := weightGrams ev * thcFrac in   (* grams of THC-equivalent *)
  let people := Qmax 1 (nullish sharers 1) in
  baseDose / people.

(** Exponential decay with half-life 48h. *)
Definition halfLifeHours : R := 48.
Definition lambda : R := (ln 2 / (halfLifeHours * 3600 * 1000))%R.

(** The two nested [for] loops of [computeTolerance]: the running [score]
    after every event of every session has been added. *)
Definition toleranceScore (now : Q) (sessions : list Session) : R :=
  fold_left
    (fun score s =>
       fold_left
         (fun score ev =>
            let elapsed := Qmax 0 (now - timestamp ev) in
            let contribution :=
              (Q2R (doseFromEvent ev (numPeopleSharing (social s)))
               * exp (- lambda * Q2R elapsed))%R in
            (score + contribution)%R)
         (consumptions s) score)
    sessions 0%R.

Definition computeTolerance (now : Q) (sessions : list Session) : R :=
  let score := toleranceScore now sessions in
  (* Scale to more readable range *)
  (IZR (Math_round (score * 1000)) / 10)%R.

Definition computeSessionDose (s : Session) : Q :=
  fold_left
    (fun acc ev => acc + doseFromEvent ev (numPeopleSharing (social s)))
    (consumptions s) 0.

(** [sessions[i]] for a numeric index: [undefined] off the array. *)
Definition at_index {A} (l : list A) (i : Z) : option A :=
  if (i <? 0)%Z then None else nth_error l (Z.to_nat i).

Definition intervalSincePrevious (sessions : list Session) (index : Z)
  : option Q :=
  if (index <=? 0)%Z then None else
  match at_index sessions index, at_index sessions (index - 1) with
  | Some curr, Some prev =>
      let t1 := startTime curr in
      let t0 := nullish (endTime prev) (startTime prev) in
      Some (Qmax 0 (t1 - t0))
  | _, _ => None
  end.

Definition formatDuration (ms : Q) : string :=
  let totalSeconds := Qfloor (ms / 1000) in
  let hours := (totalSeconds / 3600)%Z in
  let minutes := (Z.rem totalSeconds 3600 / 60)%Z in
  let seconds := Z.rem totalSeconds 60 in
  let parts := [] in
  let parts :=
    if truthyZ hours
    then parts ++ [(Number_toString hours ++ "h")%string] else parts in
  let parts :=
    if truthyZ minutes
    then parts ++ [(Number_toString minutes ++ "m")%string] else parts in
  let parts :=
    if truthyZ seconds && negb (truthyZ hours)
    then parts ++ [(Number_toString seconds ++ "s")%string] else parts in
  orElse (join " " parts) "0m".

Definition byTimeAsc (a b : Session) : Q := startTime a - startTime b.

(** [getTimeOfDay(date)], as a function of [date.getHours()], the hour of
    the day in local time. *)
Definition getTimeOfDay (getHours : Z) : TimeOfDay :=
  let h := getHours in
  if ((5 <=? h) && (h <? 12))%Z then Morning
  else if ((12 <=? h) && (h <? 17))%Z then Afternoon
  else if ((17 <=? h) && (h <? 22))%Z then Evening
  else Night.

(** [downloadJSON(filename, data)]: the name and the text of the file
    offered for download.  (The object URL and the click on a link that
    hand it to the browser are not modelled.) *)
Definition downloadJSON (filename : string) (data : JSON.value)
  : string * string :=
  (filename, JSON.stringify_indent EmptyString data).

End Utils.
Import Utils.


(* ================================================================= *)
(** ** Session store handlers and derived views ([App.tsx])

  The React state is the session list.  A handler is a function from the
  list the component rendered with to the list it sets; [Date.now()] is
  the argument [now].  What the platform supplies ([generateId()], the
  local hour of a date, its [toLocaleString()], the answer to [confirm])
  is an argument too. *)

Module Form.

Record t := {
  substanceType    : string;
  weightGrams      : Q;
  thcPercent       : Q;
  method           : string;
  place            : string;
  weather          : string;
  noise            : string;
  light            : string;
  music            : string;
  activity         : string;
  numPeopleSharing : Q;
  lastMeal         : string;
  mood             : string;
  intention        : string;
  supplements      : string;
  effects          : list string;
  notes            : string
}.

End Form.

Module App.
Import Js.

(** [{ ...s, consumptions: c }] *)
Definition with_consumptions (s : Session) (c : list ConsumptionEvent)
  : Session :=
  {| id := id s; startTime := startTime s; endTime := endTime s;
     active := active s; geo := geo s; timeOfDay := timeOfDay s;
     baseSubstance := baseSubstance s; context := context s;
     social := social s; user := user s; supplements := supplements s;
     effects := effects s; notes := notes s; consumptions := c |}.

(** The [updated] object of [updateContext]. *)
Record ContextUpdate := {
  u_context     : SessionContext;
  u_social      : SocialContext;
  u_user        : UserState;
  u_supplements : list string;
  u_effects     : list string;
  u_notes       : option string
}.

(** [{ ...s, ...updated }] *)
Definition with_update (s : Session) (u : ContextUpdate) : Session :=
  {| id := id s; startTime := startTime s; endTime := endTime s;
     active := active s; geo := geo s; timeOfDay := timeOfDay s;
     baseSubstance := baseSubstance s; context := u_context u;
     social := u_social u; user := u_user u;
     supplements := u_supplements u; effects := u_effects u;
     notes := u_notes u; consumptions := consumptions s |}.

(** [{ ...s, active: a, endTime: e }] *)
Definition with_active_endTime (s : Session) (a : bool) (e : option Q)
  : Session :=
  {| id := id s; startTime := startTime s; endTime := e;
     active := a; geo := geo s; timeOfDay := timeOfDay s;
     baseSubstance := baseSubstance s; context := context s;
     social := social s; user := user s; supplements := supplements s;
     effects := effects s; notes := notes s;
     consumptions := consumptions s |}.

(** [const active = sessions.find(s => s.active)] *)
Definition findActive (sessions : list Session) : option Session :=
  find active sessions.

Definition formEvent (form : Form.t) (now : Q) : ConsumptionEvent :=
  {| timestamp := now;
     weightGrams := orNum (Form.weightGrams form) 0;
     thcPercent := orNum (Form.thcPercent form) 0;
     method := Form.method form;
     eventNotes := None |}.

Definition formUpdate (form : Form.t) : ContextUpdate :=
  {| u_context :=
       {| place := Some (Form.place form);
          weather := Some (Form.weather form);
          noise := Some (Form.noise form);
          light := Some (Form.light form);
          music := Some (Form.music form);
          activity := Some (Form.activity form) |};
     u_social :=
       {| numPeopleSharing := Some (orNum (Form.numPeopleSharing form) 1) |};
     u_user :=
       {| lastMeal := Some (Form.lastMeal form);
          mood := Some (Form.mood form);
          intention := Some (Form.intention form) |};
     u_supplements :=
       if truthyStr (Form.supplements form)
       then filter truthyStr (map trim (split "," (Form.supplements form)))
       else [];
     u_effects := Form.effects form;
     u_notes := Some (Form.notes form) |}.

Definition addConsumption (form : Form.t) (now : Q)
           (sessions : list Session) : list Session :=
  match findActive sessions with
  | None => sessions
  | Some act =>
      let ev := formEvent form now in
      map (fun s => if String.eqb (id s) (id act)
                    then with_consumptions s (consumptions s ++ [ev])
                    else s) sessions
  end.

Definition updateContext (form : Form.t) (sessions : list Session)
  : list Session :=
  match findActive sessions with
  | None => sessions
  | Some act =>
      let updated := formUpdate form in
      map (fun s => if String.eqb (id s) (id act)
                    then with_update s updated else s) sessions
  end.

Definition endSession (now : Q) (sessions : list Session) : list Session :=
  match findActive sessions with
  | None => sessions
  | Some act =>
      map (fun s => if String.eqb (id s) (id act)
                    then with_active_endTime s false (Some now)
                    else s) sessions
  end.

(** [avgDuration]: the mean of [endTime - startTime] over the sessions
    whose [endTime] is truthy (defined and not zero), 0 when there is
    none.  [durations] is the [filter] and the [map] in one pass. *)
Definition durations (sessions : list Session) : list Q :=
  flat_map (fun s => match endTime s with
                     | Some e => if truthyNum e then [e - startTime s] else []
                     | None => []
                     end) sessions.

Definition avgDuration (sessions : list Session) : Q :=
  let durations := durations sessions in
  if (List.length durations =? 0)%nat then 0
  else fold_left Qplus durations 0
       / inject_Z (Z.of_nat (List.length durations)).

(** [newSession] of [startSession], before the first event is pushed.
    [newId] is [generateId()], [now] is [Date.now()] and [hours] is
    [new Date().getHours()].  The descriptive fields are the expressions
    that [updateContext] also builds. *)
Definition newSession (newId : string) (form : Form.t) (now : Q) (hours : Z)
  : Session :=
  {| id := newId;
     startTime := now;
     endTime := None;
     active := true;
     geo := None;
     timeOfDay := Some (getTimeOfDay hours);
     baseSubstance :=
       Some {| type := Some (orElse (Form.substanceType form) "Unknown") |};
     context := u_context (formUpdate form);
     social := u_social (formUpdate form);
     user := u_user (formUpdate form);
     supplements := u_supplements (formUpdate form);
     effects := u_effects (formUpdate form);
     notes := u_notes (formUpdate form);
     consumptions := [] |}.

(** [startSession]; [now'] is the [Date.now()] of the first event. *)
Definition startSession (newId : string) (form : Form.t) (now : Q)
           (hours : Z) (now' : Q) (sessions : list Session) : list Session :=
  let newSession := newSession newId form now hours in
  let first := formEvent form now' in
  let newSession :=
    if gtNum (Types.weightGrams first) 0
    then with_consumptions newSession (consumptions newSession ++ [first])
    else newSession in
  Array_sort byTimeAsc (sessions ++ [newSession]).

(** [{ ...s, geo: g }] *)
Definition with_geo (s : Session) (g : option GeoLocation) : Session :=
  {| id := id s; startTime := startTime s; endTime := endTime s;
     active := active s; geo := g; timeOfDay := timeOfDay s;
     baseSubstance := baseSubstance s; context := context s;
     social := social s; user := user s; supplements := supplements s;
     effects := effects s; notes := notes s;
     consumptions := consumptions s |}.

(** The callback given to [useGeoOnStart]: attach geo to active session
    when available. *)
Definition onGeo (latitude longitude : Q) (sessions : list Session)
  : list Session :=
  map (fun s => if active s
                then with_geo s (Some {| lat := latitude; lon := longitude |})
                else s) sessions.

Definition resumeSession (s : Session) (sessions : list Session)
  : list Session :=
  map (fun x => if String.eqb (id x) (id s)
                then with_active_endTime x true None else x) sessions.

(** [deleteSession]; [confirmed] is the answer to [confirm(...)]. *)
Definition deleteSession (confirmed : bool) (id0 : string)
           (sessions : list Session) : list Session :=
  if negb confirmed then sessions
  else filter (fun s => negb (String.eqb (id s) id0)) sessions.

(** [const sorted = [...sessions].sort(byTimeAsc)] *)
Definition sorted (sessions : list Session) : list Session :=
  Array_sort byTimeAsc sessions.

(** The loop of [chartTolerance]: [accum] and [points] as they stand
    before the sessions [rest] are visited. *)
Fixpoint chartTolerance_loop (accum : list Session) (points : list (Q * R))
         (rest : list Session) : list (Q * R) :=
  match rest with
  | [] => points
  | s :: rest' =>
      let accum := accum ++ [s] in
      let t := nullish (endTime s) (startTime s) in
      let v := computeTolerance t accum in
      chartTolerance_loop accum
        (points ++ [(t, (IZR (Math_round (v * 10)) / 10)%R)]) rest'
  end.

(** [chartTolerance]; [toLocaleString t] is
    [new Date(t).toLocaleString()]. *)
Definition chartTolerance (toLocaleString : Q -> string)
           (sorted : list Session) : list (string * R) :=
  let points := chartTolerance_loop [] [] sorted in
  map (fun p => (toLocaleString (fst p), snd p)) points.

Definition chartConsumption (toLocaleString : Q -> string)
           (sorted : list Session) : list (string * Q) :=
  map (fun s =>
         (toLocaleString (startTime s),
          inject_Z (Math_roundQ (computeSessionDose s * 1000)) / 1000))
      sorted.

(** The [counts] object of [chartTimeOfDay]. *)
Record Counts := {
  nMorning : Z; nAfternoon : Z; nEvening : Z; nNight : Z
}.

(** [counts[t]++] *)
Definition increment (t : TimeOfDay) (counts : Counts) : Counts :=
  match t with
  | Morning =>
      {| nMorning := nMorning counts + 1; nAfternoon := nAfternoon counts;
         nEvening := nEvening counts; nNight := nNight counts |}
  | Afternoon =>
      {| nMorning := nMorning counts; nAfternoon := nAfternoon counts + 1;
         nEvening := nEvening counts; nNight := nNight counts |}
  | Evening =>
      {| nMorning := nMorning counts; nAfternoon := nAfternoon counts;
         nEvening := nEvening counts + 1; nNight := nNight counts |}
  | Night =>
      {| nMorning := nMorning counts; nAfternoon := nAfternoon counts;
         nEvening := nEvening counts; nNight := nNight counts + 1 |}
  end%Z.

(** [chartTimeOfDay]; [getHours t] is [new Date(t).getHours()].  The
    entries come in the order the keys were written. *)
Definition chartTimeOfDay (getHours : Q -> Z) (sorted : list Session)
  : list (string * Z) :=
  let counts :=
    fold_left
      (fun counts s =>
         let t := nullish (timeOfDay s)
                          (getTimeOfDay (getHours (startTime s))) in
         increment t counts)
      sorted
      {| nMorning := 0; nAfternoon := 0; nEvening := 0; nNight := 0 |} in
  [("Morning"%string, nMorning counts);
   ("Afternoon"%string, nAfternoon counts);
   ("Evening"%string, nEvening counts);
   ("Night"%string, nNight counts)].

(** [exportAll]; [exportedAt] is [new Date().toISOString()]. *)
Definition exportAll (exportedAt : string) (sessions : list Session)
  : string * string :=
  downloadJSON "weed_sessions.json"
    (JSON.Obj
       [("sessions"%string, JSON.Arr (map Codec.Session_toJSON sessions));
        ("exportedAt"%string, JSON.Str exportedAt);
        ("version"%string, JSON.Num 1)]).

End App.

(* ================================================================= *)
(** ** Specification-side definitions

    What the properties below are stated with: the formulas of the
    specification, the values that survive a trip through JSON text, and
    sample data. *)

Import Js JSON Codec.

(** *** Dose and tolerance *)

(** The percentage brought to the nearest bound of [lo, hi]. *)
Definition clamp (lo hi x : Q) : Q :=
  if Qlt_le_dec x lo then lo else if Qlt_le_dec hi x then hi else x.

Definition with_thcPercent (ev : ConsumptionEvent) (p : Q) : ConsumptionEvent :=
  {| timestamp := timestamp ev; weightGrams := weightGrams ev;
     thcPercent := p; method := method ev; eventNotes := eventNotes ev |}.

Definition Qsum (l : list Q) : Q := fold_right Qplus 0 l.
Definition Rsum (l : list R) : R := fold_right Rplus 0%R l.

(** The decayed contribution of one event, as the specification writes it. *)
Definition decayedDose (now : Q) (sharers : option Q) (e : ConsumptionEvent)
  : R :=
  (Q2R (doseFromEvent e sharers)
   * exp (- (ln 2 / (48 * 3600 * 1000))
          * Rmax 0 (Q2R now - Q2R (timestamp e))))%R.

Definition decayedSum (now : Q) (sessions : list Session) : R :=
  Rsum (map (fun s =>
               Rsum (map (decayedDose now (numPeopleSharing (social s)))
                         (consumptions s)))
            sessions).

(** The text of a duration with [h] hours, [m] minutes and [s] seconds, as
    the code composes it: hours and minutes when they are not zero, seconds
    when they are not zero and there are no hours. *)
Definition durationText (h m s : Z) : string :=
  let H := (Number_toString h ++ "h")%string in
  let M := (Number_toString m ++ "m")%string in
  let S := (Number_toString s ++ "s")%string in
  if (h =? 0)%Z then
    if (m =? 0)%Z then
      if (s =? 0)%Z then "0m" else S
    else
      if (s =? 0)%Z then M else (M ++ " " ++ S)%string
  else
    if (m =? 0)%Z then H else (H ++ " " ++ M)%string.

(** *** JSON text *)

(** [rest] does not start with a digit. *)
Definition digit_end (rest : string) : bool :=
  match rest with
  | EmptyString => true
  | String c _ => match digitOf c with Some _ => false | None => true end
  end.

(** [rest] does not continue a numeral: it starts with no digit, point or
    exponent mark. *)
Definition number_end (rest : string) : bool :=
  match rest with
  | EmptyString => true
  | String c _ =>
      digit_end rest
      && negb (Ascii.eqb c "." || Ascii.eqb c "e" || Ascii.eqb c "E")
  end.

(** The value of the digits of [d] read after the digits of [acc]. *)
Fixpoint uint_acc (d : Decimal.uint) (acc : Z) : Z :=
  match d with
  | Decimal.Nil => acc
  | Decimal.D0 l => uint_acc l (10 * acc + 0)
  | Decimal.D1 l => uint_acc l (10 * acc + 1)
  | Decimal.D2 l => uint_acc l (10 * acc + 2)
  | Decimal.D3 l => uint_acc l (10 * acc + 3)
  | Decimal.D4 l => uint_acc l (10 * acc + 4)
  | Decimal.D5 l => uint_acc l (10 * acc + 5)
  | Decimal.D6 l => uint_acc l (10 * acc + 6)
  | Decimal.D7 l => uint_acc l (10 * acc + 7)
  | Decimal.D8 l => uint_acc l (10 * acc + 8)
  | Decimal.D9 l => uint_acc l (10 * acc + 9)
  end%Z.

(** A number is stored as is when it is a fraction in lowest terms with a
    finite decimal numeral. *)
Definition storableNum (q : Q) : bool :=
  (Qnum (Qred q) =? Qnum q)%Z && (Qden (Qred q) =? Qden q)%positive
  && match decimal_places (Pos.size_nat (Qden q)) 0 (Qnum q) (Qden q) with
     | Some _ => true
     | None => false
     end.

Fixpoint distinct (keys : list string) : bool :=
  match keys with
  | [] => true
  | k :: rest => negb (existsb (String.eqb k) rest) && distinct rest
  end.

(** The values [JSON.stringify] writes and [JSON.parse] reads back as they
    are: every number is storable and no object names a member twice. *)
Fixpoint storable (v : value) : bool :=
  match v with
  | Null | Bool _ | Str _ => true
  | Num q => storableNum q
  | Arr items => forallb storable items
  | Obj members =>
      distinct (map fst members)
      && forallb (fun m => storable (snd m)) members
  end.

(** A bound on the calls the reader makes for a value. *)
Fixpoint size (v : value) : nat :=
  match v with
  | Null | Bool _ | Num _ | Str _ => 1
  | Arr items => S (fold_right (fun v n => S (size v + n)) 0 items)%nat
  | Obj members =>
      S (fold_right (fun m n => S (size (snd m) + n)) 0 members)%nat
  end.

Definition sizes (items : list value) : nat :=
  fold_right (fun v n => S (size v + n)) 0%nat items.

Definition member_sizes (members : list (string * value)) : nat :=
  fold_right (fun m n => S (size (snd m) + n)) 0%nat members.

Definition member_text (m : string * value) : string :=
  (quote (fst m) ++ ":" ++ stringify (snd m))%string.

(** What follows a value in a text [stringify] writes. *)
Definition value_end (rest : string) : bool :=
  match rest with
  | EmptyString => true
  | String c _ => Ascii.eqb c "," || Ascii.eqb c "]" || Ascii.eqb c "}"
  end.

(** The first character of a value's text. *)
Definition value_start (c : ascii) : bool :=
  negb (isWs c) && negb (Ascii.eqb c "]") && negb (Ascii.eqb c "}").

(** Induction on a value with the hypothesis for every element of an array
    and every member of an object. *)
Fixpoint value_nested_ind (P : value -> Prop)
         (HNull : P Null) (HBool : forall b, P (Bool b))
         (HNum : forall q, P (Num q)) (HStr : forall s, P (Str s))
         (HArr : forall items, Forall P items -> P (Arr items))
         (HObj : forall members,
             Forall (fun m => P (snd m)) members -> P (Obj members))
         (v : value) {struct v} : P v :=
  match v with
  | Null => HNull
  | Bool b => HBool b
  | Num q => HNum q
  | Str s => HStr s
  | Arr items =>
      HArr items
        ((fix all (l : list value) : Forall P l :=
            match l with
            | [] => Forall_nil P
            | x :: r =>
                Forall_cons x
                  (value_nested_ind P HNull HBool HNum HStr HArr HObj x)
                  (all r)
            end) items)
  | Obj members =>
      HObj members
        ((fix all (l : list (string * value))
            : Forall (fun m => P (snd m)) l :=
            match l with
            | [] => Forall_nil _
            | x :: r =>
                Forall_cons x
                  (value_nested_ind P HNull HBool HNum HStr HArr HObj (snd x))
                  (all r)
            end) members)
  end.

(** A successful run of a reader consumes at least one character, and the
    same run succeeds with any fuel that is at least twice what it
    consumed. *)
Definition enough {A} (run : nat -> string -> option (A * string))
           (slack : nat) (s : string) (a : A) (r : string) : Prop :=
  (String.length r < String.length s)%nat
  /\ forall g, (2 * (String.length s - String.length r) + slack <= g)%nat ->
               run g s = Some (a, r).

(** *** Sessions in storage *)

Definition optnum (x : option Q) : list Q :=
  match x with Some q => [q] | None => [] end.

Definition ConsumptionEvent_numbers (ev : ConsumptionEvent) : list Q :=
  [timestamp ev; weightGrams ev; thcPercent ev].

(** Every number a session holds. *)
Definition Session_numbers (s : Session) : list Q :=
  startTime s :: optnum (endTime s)
  ++ match geo s with Some g => [lat g; lon g] | None => [] end
  ++ optnum (numPeopleSharing (social s))
  ++ flat_map ConsumptionEvent_numbers (consumptions s).

Definition storableSession (s : Session) : bool :=
  forallb storableNum (Session_numbers s).

(** [JSON.stringify(sessions)]: the bare array older versions stored. *)
Definition legacyText (sessions : list Session) : string :=
  stringify (Arr (map Session_toJSON sessions)).

(** *** Sample data *)

Definition emptyContext : SessionContext :=
  {| place := None; weather := None; noise := None; light := None;
     music := None; activity := None |}.

(** A finished session with the given events and no optional detail. *)
Definition plainSession (i : string) (start : Q) (stop : option Q)
           (sharers : option Q) (evs : list ConsumptionEvent) : Session :=
  {| id := i; startTime := start; endTime := stop; active := false;
     geo := None; timeOfDay := None; baseSubstance := None;
     context := emptyContext;
     social := {| numPeopleSharing := sharers |};
     user := {| lastMeal := None; mood := None; intention := None |};
     supplements := []; effects := []; notes := None;
     consumptions := evs |}.

Definition joint (t w p : Q) : ConsumptionEvent :=
  {| timestamp := t; weightGrams := w; thcPercent := p; method := "Joint";
     eventNotes := None |}.

(** One solo session with one event at time 0: 1 g at 20 %. *)
Definition oneJoint : list Session :=
  [plainSession "s_1" 0 (Some 60000) None [joint 0 1 20]].

(** Two sessions: the second starts one hour after the first ends. *)
Definition hourApart : list Session :=
  [plainSession "s_1" 0 (Some 1000) None [joint 0 1 20];
   plainSession "s_2" 3601000 None None []].

(** Two sessions: the second starts before the first has ended. *)
Definition overlapping : list Session :=
  [plainSession "s_1" 0 (Some 5000) None [];
   plainSession "s_2" 3000 None None []].

Definition strongEvent : ConsumptionEvent :=
  {| timestamp := 0; weightGrams := 1; thcPercent := 150; method := "Dab";
     eventNotes := None |}.

Definition negativeEvent : ConsumptionEvent :=
  {| timestamp := 0; weightGrams := 1; thcPercent := -5; method := "Vape";
     eventNotes := None |}.

Definition futureEvent : ConsumptionEvent :=
  {| timestamp := 5000; weightGrams := 1; thcPercent := 20;
     method := "Joint"; eventNotes := None |}.

Definition sampleForm : Form.t :=
  {| Form.substanceType := ""; Form.weightGrams := 1; Form.thcPercent := 20;
     Form.method := "Joint"; Form.place := "Home"; Form.weather := "";
     Form.noise := ""; Form.light := ""; Form.music := ""; Form.activity := "";
     Form.numPeopleSharing := 1; Form.lastMeal := ""; Form.mood := "";
     Form.intention := ""; Form.supplements := "CBD, L-theanine";
     Form.effects := ["Relaxed"%string]; Form.notes := "" |}.

Definition richSession : Session :=
  {| id := "s_a1"; startTime := 1700000000000; endTime := Some 1700000360000;
     active := false; geo := Some {| lat := 977 # 20; lon := -3 # 2 |};
     timeOfDay := Some Evening;
     baseSubstance := Some {| type := Some "Unknown"%string |};
     context := {| place := Some "Home"%string; weather := Some ""%string;
                   noise := None; light := None; music := None;
                   activity := Some ("a\b" ++ String dquote "c")%string |};
     social := {| numPeopleSharing := Some 2 |};
     user := {| lastMeal := None; mood := Some "Calm"%string;
                intention := None |};
     supplements := ["CBD"%string; "L-theanine"%string];
     effects := ["Relaxed"%string];
     notes := Some "line 1
line 2"%string;
     consumptions := [joint 1700000000000 (1 # 2) 20;
                      joint 1700000060000 (1 # 4) (37 # 2)] |}.

(** The stored text [{"sessions": "oops"}]. *)
Definition oopsText : string :=
  String "{" (String dquote ("sessions" ++ String dquote (": "
    ++ String dquote ("oops" ++ String dquote "}")))).

(** *** Session store *)

(** [a] does not start after [b]. *)
Definition byStart (a b : Session) : Prop := startTime a <= startTime b.

(** The sessions that start at [t]. *)
Definition startingAt (t : Q) (l : list Session) : list Session :=
  filter (fun s => Qeq_bool (startTime s) t) l.

(** What identifies a session and places it in the list. *)
Definition identity (l : list Session) : list (string * Q) :=
  map (fun s => (id s, startTime s)) l.

(** The session [startSession] creates. *)
Definition created (newId : string) (form : Form.t) (now : Q) (hours : Z)
           (now' : Q) : Session :=
  App.with_consumptions (App.newSession newId form now hours)
    (if Qlt_le_dec 0 (Form.weightGrams form)
     then [App.formEvent form now'] else []).

(** A running session and a finished one before it. *)
Definition running : list Session :=
  [plainSession "s_1" 0 (Some 60000) None [joint 0 1 20];
   App.with_active_endTime
     (plainSession "s_2" 3600000 None (Some 2) [joint 3600000 1 20])
     true None].

(** The form with nothing entered and no weight. *)
Definition blankForm : Form.t :=
  {| Form.substanceType := ""; Form.weightGrams := 0; Form.thcPercent := 20;
     Form.method := "Joint"; Form.place := ""; Form.weather := "";
     Form.noise := ""; Form.light := ""; Form.music := ""; Form.activity := "";
     Form.numPeopleSharing := 0; Form.lastMeal := ""; Form.mood := "";
     Form.intention := ""; Form.supplements := ""; Form.effects := [];
     Form.notes := "" |}.

(** *** Supplements *)

(** The character [c] occurs in [s]. *)
Fixpoint contains (c : ascii) (s : string) : bool :=
  match s with
  | EmptyString => false
  | String c' rest => Ascii.eqb c' c || contains c rest
  end.

(** A name as the supplement list holds it: not empty, with no comma and
    no white space around it. *)
Definition cleanName (s : string) : bool :=
  truthyStr s && negb (contains "," s) && String.eqb (trim s) s.

(** Every character of [s] is in the ASCII range, where [trim] is
    modelled in full. *)
Fixpoint asciiOnly (s : string) : bool :=
  match s with
  | EmptyString => true
  | String c rest => (N_of_ascii c <? 128)%N && asciiOnly rest
  end.


(** *** Charts *)

(** The time of day a session is counted under. *)
Definition timeOfDayOf (getHours : Q -> Z) (s : Session) : TimeOfDay :=
  match timeOfDay s with
  | Some t => t
  | None => getTimeOfDay (getHours (startTime s))
  end.

Definition TimeOfDay_eqb (a b : TimeOfDay) : bool :=
  match a, b with
  | Morning, Morning | Afternoon, Afternoon
  | Evening, Evening | Night, Night => true
  | _, _ => false
  end.

(** The number of sessions of [l] counted under [t]. *)
Definition countOf (getHours : Q -> Z) (t : TimeOfDay) (l : list Session)
  : Z :=
  Z.of_nat
    (List.length
       (filter (fun s => TimeOfDay_eqb (timeOfDayOf getHours s) t) l)).

(** The whole seconds below one hour. *)
Definition secondsOfHour : list Z := map Z.of_nat (seq 0 3600).

(** The text of [n] whole seconds. *)
Definition secondsText (n : Z) : string :=
  formatDuration (inject_Z (1000 * n)).

(** The whole seconds a duration text stands for: the numerals before
    [m] count 60, those before [s] count 1. *)
Fixpoint readSeconds (acc total : Z) (text : string) : Z :=
  match text with
  | EmptyString => total
  | String c rest =>
      match digitOf c with
      | Some d => readSeconds (10 * acc + d) total rest
      | None =>
          if Ascii.eqb c "m" then readSeconds 0 (total + 60 * acc) rest
          else if Ascii.eqb c "s" then readSeconds 0 (total + acc) rest
          else readSeconds 0 total rest
      end
  end.

(** *** Indented JSON text *)

(** [w] is white space only. *)
Fixpoint all_ws (w : string) : bool :=
  match w with
  | EmptyString => true
  | String c rest => isWs c && all_ws rest
  end.

(** The separator of the lines of an array or object at depth [indent]. *)
Definition line_sep (indent : string) : string :=
  String "," (String "010" indent).

Definition member_line (indent : string) (m : string * value) : string :=
  (quote (fst m) ++ ": " ++ stringify_indent indent (snd m))%string.

(** The object [exportAll] writes. *)
Definition exported (exportedAt : string) (sessions : list Session) : value :=
  Obj [("sessions"%string, Arr (map Session_toJSON sessions));
       ("exportedAt"%string, Str exportedAt);
       ("version"%string, Num 1)].

(* ================================================================= *)
(** ** Proof tools *)

(** [Lra] and [Lqa] both define [lra]; each proof says which one it uses. *)
Ltac lraR := Lra.lra.
Ltac lraQ := Lqa.lra.

Ltac tuple_eq := repeat first [reflexivity | lia | f_equal].

(** Closes a conjunction of booleans that the hypotheses say are true. *)
Ltac rewrite_true :=
  repeat match goal with
         | H : _ = true |- _ => rewrite H; clear H
         end;
  reflexivity.

(* ================================================================= *)
(** ** Dose model *)

Lemma Qmax_Qmin_clamp x : Qmax 0 (Qmin x 100) == clamp 0 100 x.
Proof.
  unfold clamp.
  destruct (Qlt_le_dec x 0) as [H|H].
  - rewrite Q.max_l; [reflexivity|]. rewrite Q.min_l; lraQ.
  - destruct (Qlt_le_dec 100 x) as [H'|H'].
    + rewrite Q.min_r by lraQ. rewrite Q.max_r by lraQ. reflexivity.
    + rewrite Q.min_l by lraQ. rewrite Q.max_r by lraQ. reflexivity.
Qed.

Lemma people_default n : n <= 1 -> Qmax 1 n == 1.
Proof. intros. apply Q.max_l. assumption. Qed.

Lemma people_pos sh : 1 <= Qmax 1 (nullish sh 1).
Proof. apply Q.le_max_l. Qed.

Lemma people_nonzero sh : ~ Qmax 1 (nullish sh 1) == 0.
Proof. pose proof (people_pos sh). lraQ. Qed.

Lemma doseFromEvent_eq ev sh :
  doseFromEvent ev sh
  == (weightGrams ev * (clamp 0 100 (thcPercent ev) / 100))
     / Qmax 1 (nullish sh 1).
Proof.
  unfold doseFromEvent. cbv zeta. rewrite Qmax_Qmin_clamp. reflexivity.
Qed.

Lemma clamp_below lo hi x : x < lo -> clamp lo hi x = lo.
Proof. intros H. unfold clamp. destruct (Qlt_le_dec x lo); [reflexivity|lraQ]. Qed.

Lemma clamp_above lo hi x : lo <= hi -> hi < x -> clamp lo hi x = hi.
Proof.
  intros Hb H. unfold clamp.
  destruct (Qlt_le_dec x lo); [lraQ|].
  destruct (Qlt_le_dec hi x); [reflexivity|lraQ].
Qed.

Lemma clamp_inside lo hi x : lo <= x <= hi -> clamp lo hi x == x.
Proof.
  intros H. unfold clamp.
  destruct (Qlt_le_dec x lo); [lraQ|].
  destruct (Qlt_le_dec hi x); [lraQ|reflexivity].
Qed.

Lemma doseFromEvent_nonneg e sh :
  0 <= weightGrams e -> 0 <= doseFromEvent e sh.
Proof.
  intros Hw. unfold doseFromEvent. cbv zeta.
  pose proof (people_pos sh) as Hp.
  pose proof (Q.le_max_l 0 (Qmin (thcPercent e) 100)) as Hc.
  apply Qle_shift_div_l; [lraQ|]. rewrite Qmult_0_l.
  apply Qmult_le_0_compat; [assumption|].
  apply Qle_shift_div_l; [lraQ|]. lraQ.
Qed.

Lemma doseFromEvent_pos e sh :
  0 < weightGrams e -> 0 < thcPercent e -> 0 < doseFromEvent e sh.
Proof.
  intros Hw Ht. unfold doseFromEvent. cbv zeta.
  pose proof (people_pos sh) as Hp.
  assert (Hc : 0 < Qmax 0 (Qmin (thcPercent e) 100)).
  { apply Q.max_lt_iff. right. apply Q.min_glb_lt; lraQ. }
  apply Qlt_shift_div_l; [lraQ|]. rewrite Qmult_0_l.
  apply Qmult_lt_0_compat; [assumption|].
  apply Qlt_shift_div_l; [lraQ|]. lraQ.
Qed.

(** C3.  For every event and every sharer count, undefined included,
    [doseFromEvent] is [weightGrams * clamp(thcPercent, 0, 100) / 100]
    divided by [max(1, sharers ?? 1)].  So a percentage below 0 gives the
    dose of 0 %, one above 100 the dose of 100 %, one inside the range is
    used as it is, and a sharer count that is undefined or at most 0 gives
    the dose of one sharer. *)
Theorem doseFromEvent_clamps (ev : ConsumptionEvent) (sharers : option Q) :
  doseFromEvent ev sharers
  == (weightGrams ev * clamp 0 100 (thcPercent ev) / 100)
     / Qmax 1 (match sharers with Some n => n | None => 1 end)
  /\ (thcPercent ev < 0 ->
      doseFromEvent ev sharers
      == doseFromEvent (with_thcPercent ev 0) sharers)
  /\ (100 < thcPercent ev ->
      doseFromEvent ev sharers
      == doseFromEvent (with_thcPercent ev 100) sharers)
  /\ (0 <= thcPercent ev <= 100 ->
      doseFromEvent ev sharers
      == weightGrams ev * thcPercent ev / 100
         / Qmax 1 (match sharers with Some n => n | None => 1 end))
  /\ doseFromEvent ev None == doseFromEvent ev (Some 1)
  /\ (forall n,
         n <= 0 -> doseFromEvent ev (Some n) == doseFromEvent ev (Some 1)).
Proof.
  pose proof (people_nonzero sharers) as Hp. unfold nullish in Hp.
  refine (conj _ (conj _ (conj _ (conj _ (conj _ _))))).
  - rewrite doseFromEvent_eq. unfold nullish. field. exact Hp.
  - intros H. rewrite !doseFromEvent_eq. cbn [with_thcPercent thcPercent weightGrams].
    rewrite (clamp_below 0 100 (thcPercent ev)) by exact H.
    rewrite (clamp_inside 0 100 0) by lraQ. reflexivity.
  - intros H. rewrite !doseFromEvent_eq. cbn [with_thcPercent thcPercent weightGrams].
    rewrite (clamp_above 0 100 (thcPercent ev)) by (try exact H; lraQ).
    rewrite (clamp_inside 0 100 100) by lraQ. reflexivity.
  - intros H. rewrite doseFromEvent_eq, (clamp_inside 0 100 _ H).
    unfold nullish. field. exact Hp.
  - reflexivity.
  - intros n Hn. rewrite !doseFromEvent_eq. cbn [nullish].
    rewrite (people_default n) by lraQ. rewrite (people_default 1) by lraQ.
    reflexivity.
Qed.

(** The clamping cases of C3 at -5 %, at 150 % and at -3 sharers. *)
Lemma doseFromEvent_clamps_witness :
  doseFromEvent negativeEvent (Some 2)
  == doseFromEvent (with_thcPercent negativeEvent 0) (Some 2)
  /\ doseFromEvent strongEvent (Some 2)
     == doseFromEvent (with_thcPercent strongEvent 100) (Some 2)
  /\ doseFromEvent strongEvent (Some (-3))
     == doseFromEvent strongEvent (Some 1).
Proof.
  split; [|split].
  - apply (proj1 (proj2 (doseFromEvent_clamps negativeEvent (Some 2)))).
    reflexivity.
  - apply (proj1 (proj2 (proj2 (doseFromEvent_clamps strongEvent (Some 2))))).
    reflexivity.
  - apply (proj2 (proj2 (proj2 (proj2 (proj2
             (doseFromEvent_clamps strongEvent None)))))).
    discriminate.
Defined.

Lemma doseFromEvent_examples :
  doseFromEvent strongEvent None == 1
  /\ doseFromEvent negativeEvent None == 0
  /\ doseFromEvent strongEvent (Some 4) == 1 # 4.
Proof. repeat split. Qed.

(* ---- sums ---- *)
Lemma fold_left_Qplus {A} (f : A -> Q) (l : list A) (a : Q) :
  fold_left (fun acc x => acc + f x) l a == a + Qsum (map f l).
Proof.
  revert a. induction l as [|x l IH]; intros a; simpl.
  - ring.
  - rewrite IH. ring.
Qed.

Lemma Qsum_app l1 l2 : Qsum (l1 ++ l2) == Qsum l1 + Qsum l2.
Proof.
  induction l1 as [|x l1 IH]; simpl.
  - ring.
  - rewrite IH. ring.
Qed.

(** C4.  [computeSessionDose s] is the sum of [doseFromEvent e n] over the
    events [e] of [s], [n] being the sharer count of the session, and it is
    additive in the event list: with the other fields of the session
    unchanged, the dose for [l1 ++ l2] is the dose for [l1] plus the dose
    for [l2], in particular for [[a; b]], [[a]] and [[b]]. *)
Theorem computeSessionDose_additive (s : Session) :
  computeSessionDose s
  == Qsum (map (fun e => doseFromEvent e (numPeopleSharing (social s)))
               (consumptions s))
  /\ (forall l1 l2,
         computeSessionDose (App.with_consumptions s (l1 ++ l2))
         == computeSessionDose (App.with_consumptions s l1)
            + computeSessionDose (App.with_consumptions s l2))
  /\ (forall a b,
         computeSessionDose (App.with_consumptions s [a; b])
         == computeSessionDose (App.with_consumptions s [a])
            + computeSessionDose (App.with_consumptions s [b])).
Proof.
  assert (E : forall s', computeSessionDose s'
    == Qsum (map (fun e => doseFromEvent e (numPeopleSharing (social s')))
                 (consumptions s'))).
  { intros s'. unfold computeSessionDose. rewrite fold_left_Qplus. ring. }
  assert (A : forall l1 l2,
         computeSessionDose (App.with_consumptions s (l1 ++ l2))
         == computeSessionDose (App.with_consumptions s l1)
            + computeSessionDose (App.with_consumptions s l2)).
  { intros l1 l2. rewrite !E. simpl. rewrite map_app, Qsum_app. reflexivity. }
  split; [apply E|]. split; [exact A|].
  intros a b. apply (A [a] [b]).
Qed.

(** The end-to-end check of the specification: 1 g at 20 % alone is a dose
    of 0.2, and a second identical event makes it 0.4. *)
Example computeSessionDose_examples :
  computeSessionDose (plainSession "s_1" 0 None None [joint 0 1 20]) == 1 # 5
  /\ computeSessionDose
       (plainSession "s_1" 0 None None [joint 0 1 20; joint 60000 1 20])
     == 2 # 5.
Proof. split; reflexivity. Qed.

(* ================================================================= *)
(** ** Tolerance model *)

Lemma fold_left_Rplus {A} (f : A -> R) (l : list A) (a : R) :
  fold_left (fun acc x => (acc + f x)%R) l a = (a + Rsum (map f l))%R.
Proof.
  revert a. induction l as [|x l IH]; intros a; simpl.
  - ring.
  - rewrite IH. ring.
Qed.

Lemma Q2R_Qmax0 x : Q2R (Qmax 0 x) = Rmax 0 (Q2R x).
Proof.
  destruct (Qlt_le_dec x 0) as [H|H].
  - rewrite (Qeq_eqR _ _ (Q.max_l 0 x (Qlt_le_weak _ _ H))).
    apply Qlt_Rlt in H. rewrite RMicromega.Q2R_0 in *.
    rewrite Rmax_left; lraR.
  - rewrite (Qeq_eqR _ _ (Q.max_r 0 x H)).
    apply Qle_Rle in H. rewrite RMicromega.Q2R_0 in *.
    rewrite Rmax_right; lraR.
Qed.

Lemma contribution_decayedDose now sh e :
  (Q2R (doseFromEvent e sh) * exp (- lambda * Q2R (Qmax 0 (now - timestamp e))))%R
  = decayedDose now sh e.
Proof.
  unfold decayedDose, lambda, halfLifeHours.
  rewrite Q2R_Qmax0, Q2R_minus. reflexivity.
Qed.

(** The inner loop adds the decayed doses of one session to the score. *)
Lemma session_loop now s score :
  fold_left
    (fun score ev =>
       let elapsed := Qmax 0 (now - timestamp ev) in
       let contribution :=
         (Q2R (doseFromEvent ev (numPeopleSharing (social s)))
          * exp (- lambda * Q2R elapsed))%R in
       (score + contribution)%R)
    (consumptions s) score
  = (score
     + Rsum (map (decayedDose now (numPeopleSharing (social s)))
                 (consumptions s)))%R.
Proof.
  cbv zeta.
  rewrite (fold_left_Rplus
             (fun ev =>
                (Q2R (doseFromEvent ev (numPeopleSharing (social s)))
                 * exp (- lambda * Q2R (Qmax 0 (now - timestamp ev))))%R)).
  f_equal. f_equal. apply map_ext. intros ev.
  apply contribution_decayedDose.
Qed.

Lemma toleranceScore_decayedSum now sessions :
  toleranceScore now sessions = decayedSum now sessions.
Proof.
  unfold toleranceScore, decayedSum.
  rewrite <- (Rplus_0_l (Rsum _)). generalize 0%R.
  induction sessions as [|s l IH]; intros score; cbn [fold_left map].
  - unfold Rsum. cbn [fold_right]. ring.
  - rewrite session_loop, IH. unfold Rsum. cbn [fold_right]. ring.
Qed.

Lemma Math_round_spec x :
  (IZR (Math_round x) - / 2 <= x < IZR (Math_round x) + / 2)%R.
Proof.
  unfold Math_round. destruct (base_Int_part (x + / 2)) as [H1 H2]. lraR.
Qed.

Lemma Math_round_unique x k :
  (IZR k - / 2 <= x < IZR k + / 2)%R -> Math_round x = k.
Proof.
  intros H. unfold Math_round. symmetry. apply Int_part_spec. lraR.
Qed.

Lemma Math_round_le x y : (x <= y)%R -> (Math_round x <= Math_round y)%Z.
Proof.
  intros H. pose proof (Math_round_spec x). pose proof (Math_round_spec y).
  assert (IZR (Math_round x) < IZR (Math_round y) + 1)%R by lraR.
  rewrite <- plus_IZR in H2. apply lt_IZR in H2. lia.
Qed.

(** C1.  [computeTolerance now sessions] is the sum, over every event [e]
    of every session [s], of [doseFromEvent e (sharers of s) * exp (-
    lambda * max 0 (now - timestamp e))] with [lambda = ln 2 / (48 * 3600 *
    1000)], multiplied by 1000, rounded and divided by 10: it is [k / 10]
    for the integer [k] nearest to 1000 times the sum (a tie goes up).  An
    event whose timestamp is not before [now] contributes its full dose to
    the sum. *)
Theorem computeTolerance_decayed_sum (now : Q) (sessions : list Session) :
  computeTolerance now sessions
  = (IZR (Math_round (decayedSum now sessions * 1000)) / 10)%R
  /\ (exists k : Z,
         computeTolerance now sessions = (IZR k / 10)%R
         /\ (IZR k - / 2 <= decayedSum now sessions * 1000 < IZR k + / 2)%R)
  /\ (forall sharers e,
         now <= timestamp e ->
         decayedDose now sharers e = Q2R (doseFromEvent e sharers)).
Proof.
  refine (conj _ (conj _ _)).
  - unfold computeTolerance. rewrite toleranceScore_decayedSum. reflexivity.
  - exists (Math_round (toleranceScore now sessions * 1000)). split.
    + reflexivity.
    + rewrite <- toleranceScore_decayedSum. apply Math_round_spec.
  - intros sh e H. unfold decayedDose.
    apply Qle_Rle in H. rewrite Rmax_left by lraR.
    rewrite Rmult_0_r, exp_0. ring.
Qed.

(** The second part of C1 for an event 5 seconds in the future. *)
Lemma computeTolerance_decayed_sum_witness :
  decayedDose 0 None futureEvent = Q2R (doseFromEvent futureEvent None).
Proof.
  apply (proj2 (proj2 (computeTolerance_decayed_sum 0 []))). discriminate.
Defined.

(** *** Monotonicity *)

Lemma lambda_bounds : (0 < lambda < / 172800000)%R.
Proof.
  unfold lambda, halfLifeHours.
  assert (H0 : (0 < ln 2)%R).
  { rewrite <- ln_1. apply ln_increasing; lraR. }
  assert (H1 : (ln 2 < 1)%R).
  { rewrite <- (ln_exp 1). apply ln_increasing; [lraR|].
    pose proof (exp_ineq1 1 ltac:(lraR)). lraR. }
  split.
  - apply Rdiv_lt_0_compat; lraR.
  - unfold Rdiv. replace (48 * 3600 * 1000)%R with 172800000%R by lraR.
    rewrite <- (Rmult_1_l (/ 172800000)) at 2.
    apply Rmult_lt_compat_r; [|exact H1].
    apply Rinv_0_lt_compat. lraR.
Qed.

Lemma exp_neg_lower x : (0 <= x -> 1 - x <= exp (- x) <= 1)%R.
Proof.
  intros Hx. destruct (Req_dec x 0) as [->|Hn].
  - rewrite Ropp_0, exp_0. lraR.
  - split.
    + pose proof (exp_ineq1 (- x) ltac:(lraR)). lraR.
    + rewrite <- exp_0. left. apply exp_increasing. lraR.
Qed.

Lemma oneJoint_score now :
  toleranceScore now oneJoint
  = (/ 5 * exp (- lambda * Rmax 0 (Q2R now)))%R.
Proof.
  rewrite toleranceScore_decayedSum. unfold decayedSum, oneJoint. simpl.
  unfold decayedDose. simpl timestamp.
  replace (Q2R (doseFromEvent (joint 0 1 20) None)) with (/ 5)%R.
  2:{ rewrite (Qeq_eqR (doseFromEvent (joint 0 1 20) None) (1 # 5)) by reflexivity.
      unfold Q2R. simpl. lraR. }
  rewrite RMicromega.Q2R_0, Rminus_0_r.
  unfold lambda, halfLifeHours. ring.
Qed.

Lemma oneJoint_tolerance_0 : computeTolerance 0 oneJoint = 20%R.
Proof.
  unfold computeTolerance. cbv zeta. rewrite oneJoint_score.
  rewrite RMicromega.Q2R_0, Rmax_left by lraR.
  rewrite Rmult_0_r, exp_0.
  rewrite (Math_round_unique (/ 5 * 1 * 1000) 200) by lraR. lraR.
Qed.

Lemma oneJoint_tolerance_1 : computeTolerance 1 oneJoint = 20%R.
Proof.
  unfold computeTolerance. cbv zeta. rewrite oneJoint_score.
  rewrite RMicromega.Q2R_1, Rmax_right by lraR. rewrite Rmult_1_r.
  pose proof lambda_bounds as [L0 L1].
  pose proof (exp_neg_lower lambda ltac:(lraR)) as [E0 E1].
  rewrite (Math_round_unique (/ 5 * exp (- lambda) * 1000) 200) by lraR. lraR.
Qed.

(** C2 as stated fails.  One solo session with one event at time 0 (1 g at
    20 %): every event is before time 1, [0 < 1] and both times are at or
    beyond the latest event, yet the tolerance is 20 at both times, since
    [200 * exp (- lambda)] still rounds to 200. *)
Lemma tolerance_not_strictly_decreasing :
  (forall s e, In s oneJoint -> In e (consumptions s) ->
               timestamp e < 1 /\ timestamp e <= 0)
  /\ (exists s e, In s oneJoint /\ In e (consumptions s))
  /\ 0 < 1
  /\ computeTolerance 0 oneJoint = 20%R
  /\ computeTolerance 1 oneJoint = 20%R
  /\ ~ (computeTolerance 1 oneJoint < computeTolerance 0 oneJoint)%R.
Proof.
  refine (conj _ (conj _ (conj _ (conj _ (conj _ _))))).
  - intros s e [<-|[]] [<-|[]]. simpl. split; lraQ.
  - exists (plainSession "s_1" 0 (Some 60000) None [joint 0 1 20]), (joint 0 1 20).
    simpl. auto.
  - lraQ.
  - apply oneJoint_tolerance_0.
  - apply oneJoint_tolerance_1.
  - rewrite oneJoint_tolerance_0, oneJoint_tolerance_1. lraR.
Qed.

Lemma Rsum_le {A} (f g : A -> R) l :
  (forall x, In x l -> (f x <= g x)%R) ->
  (Rsum (map f l) <= Rsum (map g l))%R.
Proof.
  induction l as [|a l IH]; intros H; simpl.
  - lraR.
  - pose proof (H a (or_introl eq_refl)).
    pose proof (IH (fun x Hx => H x (or_intror Hx))). lraR.
Qed.

Lemma Rsum_lt {A} (f g : A -> R) l :
  (forall x, In x l -> (f x <= g x)%R) ->
  (exists x, In x l /\ (f x < g x)%R) ->
  (Rsum (map f l) < Rsum (map g l))%R.
Proof.
  induction l as [|a l IH]; intros H [x [Hx Hlt]]; simpl.
  - destruct Hx.
  - pose proof (H a (or_introl eq_refl)) as Ha.
    pose proof (Rsum_le f g l (fun x Hx => H x (or_intror Hx))) as Hl.
    destruct Hx as [->|Hx].
    + lraR.
    + pose proof (IH (fun x Hx => H x (or_intror Hx))
                     (ex_intro _ x (conj Hx Hlt))). lraR.
Qed.

Lemma decayedDose_le now1 now2 sh e :
  0 <= weightGrams e -> now1 <= now2 ->
  (decayedDose now2 sh e <= decayedDose now1 sh e)%R.
Proof.
  intros Hw Hn. unfold decayedDose.
  apply Rmult_le_compat_l.
  - pose proof (Qle_Rle _ _ (doseFromEvent_nonneg e sh Hw)) as H.
    rewrite RMicromega.Q2R_0 in H. exact H.
  - pose proof lambda_bounds as [L0 _]. unfold lambda, halfLifeHours in L0.
    apply Qle_Rle in Hn.
    set (l := (ln 2 / (48 * 3600 * 1000))%R) in *.
    assert (Hm : (Rmax 0 (Q2R now1 - Q2R (timestamp e))
                  <= Rmax 0 (Q2R now2 - Q2R (timestamp e)))%R).
    { apply Rmax_lub.
      - apply Rmax_l.
      - eapply Rle_trans; [|apply Rmax_r]. lraR. }
    destruct Hm as [Hm|Hm].
    + left. apply exp_increasing.
      rewrite !Ropp_mult_distr_l_reverse. apply Ropp_lt_contravar.
      apply Rmult_lt_compat_l; assumption.
    + rewrite Hm. lraR.
Qed.

Lemma decayedDose_lt now1 now2 sh e :
  0 < weightGrams e -> 0 < thcPercent e -> timestamp e <= now1 ->
  now1 < now2 ->
  (decayedDose now2 sh e < decayedDose now1 sh e)%R.
Proof.
  intros Hw Ht Hpast Hn. unfold decayedDose.
  apply Rmult_lt_compat_l.
  - pose proof (Qlt_Rlt _ _ (doseFromEvent_pos e sh Hw Ht)) as H.
    rewrite RMicromega.Q2R_0 in H. exact H.
  - pose proof lambda_bounds as [L0 _]. unfold lambda, halfLifeHours in L0.
    apply Qlt_Rlt in Hn. apply Qle_Rle in Hpast.
    set (l := (ln 2 / (48 * 3600 * 1000))%R) in *.
    rewrite !Rmax_right by lraR.
    apply exp_increasing.
    rewrite !Ropp_mult_distr_l_reverse. apply Ropp_lt_contravar.
    apply Rmult_lt_compat_l; [assumption|lraR].
Qed.

(** C2, amended.  When every event has a non-negative weight and a
    timestamp at or before [now1], and [now1 < now2], the tolerance at
    [now2] is at most the tolerance at [now1]; and the score before
    rounding is strictly smaller at [now2] as soon as some event has a
    positive weight and a positive THC percentage. *)
Theorem computeTolerance_nonincreasing
        (sessions : list Session) (now1 now2 : Q) :
  (forall s e, In s sessions -> In e (consumptions s) ->
               timestamp e <= now1 /\ 0 <= weightGrams e) ->
  now1 < now2 ->
  (computeTolerance now2 sessions <= computeTolerance now1 sessions)%R
  /\ ((exists s e, In s sessions /\ In e (consumptions s)
                   /\ 0 < weightGrams e /\ 0 < thcPercent e) ->
      (toleranceScore now2 sessions < toleranceScore now1 sessions)%R).
Proof.
  intros Hall Hlt.
  assert (Hle : now1 <= now2) by lraQ.
  split.
  - unfold computeTolerance. cbv zeta.
    assert (Hs : (toleranceScore now2 sessions <= toleranceScore now1 sessions)%R).
    { rewrite !toleranceScore_decayedSum. unfold decayedSum.
      apply Rsum_le. intros s Hs. apply Rsum_le. intros e He.
      apply decayedDose_le; [apply (Hall s e Hs He)|exact Hle]. }
    assert (Hr : (Math_round (toleranceScore now2 sessions * 1000)
                  <= Math_round (toleranceScore now1 sessions * 1000))%Z)
      by (apply Math_round_le; lraR).
    apply IZR_le in Hr. lraR.
  - intros [s [e [Hs [He [Hw Ht]]]]].
    rewrite !toleranceScore_decayedSum. unfold decayedSum.
    apply Rsum_lt.
    + intros s' Hs'. apply Rsum_le. intros e' He'.
      apply decayedDose_le; [apply (Hall s' e' Hs' He')|exact Hle].
    + exists s. split; [exact Hs|].
      apply Rsum_lt.
      * intros e' He'. apply decayedDose_le; [apply (Hall s e' Hs He')|exact Hle].
      * exists e. split; [exact He|].
        apply decayedDose_lt; try assumption. apply (Hall s e Hs He).
Qed.

(** C2, amended, between time 0 and one half-life later. *)
Lemma computeTolerance_nonincreasing_witness :
  (computeTolerance 172800000 oneJoint <= computeTolerance 0 oneJoint)%R
  /\ (toleranceScore 172800000 oneJoint < toleranceScore 0 oneJoint)%R.
Proof.
  assert (H : forall s e, In s oneJoint -> In e (consumptions s) ->
               timestamp e <= 0 /\ 0 <= weightGrams e).
  { intros s e [<-|[]] [<-|[]]. simpl. split; lraQ. }
  destruct (computeTolerance_nonincreasing oneJoint 0 172800000 H
              ltac:(reflexivity)) as [H1 H2].
  split; [exact H1|]. apply H2.
  exists (plainSession "s_1" 0 (Some 60000) None [joint 0 1 20]), (joint 0 1 20).
  simpl. repeat split; auto; reflexivity.
Defined.

(* ================================================================= *)
(** ** Derived queries *)

Lemma at_index_None {A} (l : list A) i :
  (i < 0 \/ Z.of_nat (List.length l) <= i)%Z -> at_index l i = None.
Proof.
  unfold at_index. intros H. destruct (i <? 0)%Z eqn:E; [reflexivity|].
  apply Z.ltb_ge in E. apply nth_error_None. lia.
Qed.

Lemma at_index_in_range {A} (l : list A) i :
  (0 <= i < Z.of_nat (List.length l))%Z -> exists x, at_index l i = Some x.
Proof.
  intros H. unfold at_index.
  destruct (i <? 0)%Z eqn:E; [apply Z.ltb_lt in E; lia|].
  destruct (nth_error l (Z.to_nat i)) eqn:N; [eauto|].
  apply nth_error_None in N. lia.
Qed.

(** C8.  [intervalSincePrevious sessions index] is undefined when [index]
    is at most 0 or at least the length of the list.  For any other index
    both sessions exist and the result is the gap from [t0], the end time
    of the session before if it has one and else its start time, to the
    start time of the session at [index]: [max 0 (startTime - t0)], which
    is [startTime - t0] whenever the session does not start before [t0].
    A session that starts 3600000 ms after the end of the one before gives
    3600000. *)
Theorem intervalSincePrevious_gap (sessions : list Session) (index : Z) :
  ((index <= 0)%Z \/ (Z.of_nat (List.length sessions) <= index)%Z ->
   intervalSincePrevious sessions index = None)
  /\ ((0 < index < Z.of_nat (List.length sessions))%Z ->
      exists curr prev,
        at_index sessions index = Some curr
        /\ at_index sessions (index - 1) = Some prev
        /\ let t0 := match endTime prev with
                     | Some e => e
                     | None => startTime prev
                     end in
           intervalSincePrevious sessions index
           = Some (Qmax 0 (startTime curr - t0))
           /\ (t0 <= startTime curr ->
               Qmax 0 (startTime curr - t0) == startTime curr - t0))
  /\ (forall curr prev e,
         (0 < index)%Z ->
         at_index sessions index = Some curr ->
         at_index sessions (index - 1) = Some prev ->
         endTime prev = Some e ->
         startTime curr == e + 3600000 ->
         exists gap, intervalSincePrevious sessions index = Some gap
                     /\ gap == 3600000)
  /\ intervalSincePrevious hourApart 1 = Some 3600000.
Proof.
  refine (conj _ (conj _ (conj _ _))).
  - intros [H|H]; unfold intervalSincePrevious.
    + apply Z.leb_le in H. rewrite H. reflexivity.
    + destruct (index <=? 0)%Z; [reflexivity|].
      rewrite (at_index_None sessions index) by lia. reflexivity.
  - intros H.
    destruct (at_index_in_range sessions index ltac:(lia)) as [curr Hc].
    destruct (at_index_in_range sessions (index - 1) ltac:(lia)) as [prev Hp].
    exists curr, prev. split; [exact Hc|]. split; [exact Hp|].
    cbv zeta. unfold intervalSincePrevious.
    destruct H as [Hpos _]. apply Z.leb_gt in Hpos. rewrite Hpos, Hc, Hp.
    split; [reflexivity|]. intros H. apply Q.max_r. lraQ.
  - intros curr prev e Hpos Hc Hp He Hs. unfold intervalSincePrevious.
    apply Z.leb_gt in Hpos. rewrite Hpos, Hc, Hp, He. simpl.
    eexists. split; [reflexivity|]. rewrite Q.max_r; lraQ.
  - reflexivity.
Qed.

(** C8 on two sessions one hour apart: index 2 is out of range, index 1 is
    not. *)
Lemma intervalSincePrevious_gap_witness :
  intervalSincePrevious hourApart 2 = None
  /\ exists curr prev,
       at_index hourApart 1 = Some curr
       /\ at_index hourApart (1 - 1) = Some prev
       /\ let t0 := match endTime prev with
                    | Some e => e
                    | None => startTime prev
                    end in
          intervalSincePrevious hourApart 1
          = Some (Qmax 0 (startTime curr - t0))
          /\ (t0 <= startTime curr ->
              Qmax 0 (startTime curr - t0) == startTime curr - t0).
Proof.
  split.
  - apply (proj1 (intervalSincePrevious_gap hourApart 2)). right. simpl. lia.
  - apply (proj1 (proj2 (intervalSincePrevious_gap hourApart 1))). simpl. lia.
Defined.

(** C10.  A number returned by [intervalSincePrevious] is never negative,
    and when the session at [index] starts before the end (or, with no end,
    the start) of the session before it, the result is 0. *)
Theorem intervalSincePrevious_nonneg (sessions : list Session) (index : Z) :
  (forall gap, intervalSincePrevious sessions index = Some gap -> 0 <= gap)
  /\ (forall curr prev,
         (0 < index)%Z ->
         at_index sessions index = Some curr ->
         at_index sessions (index - 1) = Some prev ->
         startTime curr
         < match endTime prev with Some e => e | None => startTime prev end ->
         intervalSincePrevious sessions index = Some 0)
  /\ intervalSincePrevious overlapping 1 = Some 0.
Proof.
  refine (conj _ (conj _ _)).
  - unfold intervalSincePrevious. intros gap.
    destruct (index <=? 0)%Z; [discriminate|].
    destruct (at_index sessions index); [|discriminate].
    destruct (at_index sessions (index - 1)); [|discriminate].
    intros H. injection H as <-. apply Q.le_max_l.
  - intros curr prev Hpos Hc Hp Hlt. unfold intervalSincePrevious.
    apply Z.leb_gt in Hpos. rewrite Hpos, Hc, Hp. f_equal.
    unfold nullish, Qmax, GenericMinMax.gmax.
    destruct (0 ?= _) eqn:E; try reflexivity.
    apply Qlt_alt in E. lraQ.
  - reflexivity.
Qed.

(** C10 on the sessions one hour apart and on two overlapping sessions. *)
Lemma intervalSincePrevious_nonneg_witness :
  (intervalSincePrevious hourApart 1 = Some 3600000 /\ 0 <= 3600000)
  /\ intervalSincePrevious overlapping 1 = Some 0.
Proof.
  split; [split; [reflexivity|]|].
  - apply (proj1 (intervalSincePrevious_nonneg hourApart 1) 3600000).
    reflexivity.
  - apply (proj1 (proj2 (intervalSincePrevious_nonneg overlapping 1))
             (plainSession "s_2" 3000 None None [])
             (plainSession "s_1" 0 (Some 5000) None []));
      reflexivity.
Defined.

Lemma orElse_nonempty a b d :
  orElse (a ++ String b EmptyString) d = (a ++ String b EmptyString)%string.
Proof. destruct a; reflexivity. Qed.

Lemma orElse_nonempty2 a b c e d :
  orElse ((a ++ String b c) ++ e) d = ((a ++ String b c) ++ e)%string.
Proof. destruct a; reflexivity. Qed.

Lemma Qfloor_nonneg q : 0 <= q -> (0 <= Qfloor q)%Z.
Proof. intros H. apply (Qfloor_resp_le 0 q) in H. exact H. Qed.

Lemma formatDuration_parts (ms : Q) :
  let total := Qfloor (ms / 1000) in
  formatDuration ms
  = durationText (total / 3600) (Z.rem total 3600 / 60) (Z.rem total 60).
Proof.
  intros total. unfold formatDuration. fold total. cbv zeta.
  unfold durationText, truthyZ.
  destruct (total / 3600 =? 0)%Z, (Z.rem total 3600 / 60 =? 0)%Z,
           (Z.rem total 60 =? 0)%Z; simpl;
    try reflexivity; try apply orElse_nonempty; apply orElse_nonempty2.
Qed.

Lemma formatDuration_durationText (ms : Q) :
  0 <= ms ->
  let total := Qfloor (ms / 1000) in
  formatDuration ms
  = durationText (total / 3600) (total mod 3600 / 60) (total mod 60).
Proof.
  intros Hms total.
  assert (Ht : (0 <= total)%Z).
  { apply Qfloor_nonneg. apply Qle_shift_div_l; lraQ. }
  rewrite formatDuration_parts. fold total. cbv zeta.
  rewrite !Z.rem_mod_nonneg by lia. reflexivity.
Qed.

(** C9, amended.  With [total] the whole seconds of [ms] and the hours,
    minutes and seconds the code takes from it, [formatDuration ms] is
    [durationText hours minutes seconds]: hours and minutes are shown when
    they are not zero, seconds when they are not zero and the hours are
    zero (whatever the minutes), and ["0m"] when nothing is shown.  For
    [ms >= 0] these are [total / 3600], [total mod 3600 / 60] and
    [total mod 60].  In particular 0 gives ["0m"], 90000 gives ["1m 30s"],
    45000 gives ["45s"] and 3661000 gives ["1h 1m"]. *)
Theorem formatDuration_text :
  (forall ms : Q,
      let total := Qfloor (ms / 1000) in
      formatDuration ms
      = durationText (total / 3600) (Z.rem total 3600 / 60) (Z.rem total 60))
  /\ (forall ms : Q,
         0 <= ms ->
         let total := Qfloor (ms / 1000) in
         formatDuration ms
         = durationText (total / 3600) (total mod 3600 / 60) (total mod 60))
  /\ formatDuration 0 = "0m"%string
  /\ formatDuration 90000 = "1m 30s"%string
  /\ formatDuration 45000 = "45s"%string
  /\ formatDuration 3661000 = "1h 1m"%string.
Proof.
  split; [exact formatDuration_parts|].
  split; [exact formatDuration_durationText|].
  repeat split; vm_compute; reflexivity.
Qed.

(** C9, amended, at 1 h 30 min. *)
Lemma formatDuration_text_witness :
  0 <= 5400000 /\ formatDuration 5400000 = durationText 1 30 0.
Proof.
  split; [discriminate|].
  apply (proj1 (proj2 formatDuration_text) 5400000). discriminate.
Defined.

(** C9 as stated fails: 90000 ms is rendered ["1m 30s"], not ["1m"]; the
    seconds are shown although the minutes are not zero. *)
Lemma formatDuration_90000 :
  formatDuration 90000 = "1m 30s"%string
  /\ formatDuration 90000 <> "1m"%string.
Proof. split; [vm_compute; reflexivity | vm_compute; discriminate]. Qed.

(* ================================================================= *)
(** ** Session store *)

Lemma findActive_none sessions :
  (forall s, In s sessions -> active s = false) ->
  App.findActive sessions = None.
Proof.
  intros H. unfold App.findActive.
  induction sessions as [|s l IH]; simpl; [reflexivity|].
  rewrite (H s (or_introl eq_refl)). apply IH.
  intros s' Hs'. apply H. right. exact Hs'.
Qed.

(** C7.  When no session of the list is active, adding a consumption,
    updating the context and ending the session each return the list
    unchanged (and, being total functions, raise nothing). *)
Theorem no_active_session_noop
        (form : Form.t) (now : Q) (sessions : list Session) :
  (forall s, In s sessions -> active s = false) ->
  App.addConsumption form now sessions = sessions
  /\ App.updateContext form sessions = sessions
  /\ App.endSession now sessions = sessions.
Proof.
  intros H. apply findActive_none in H.
  unfold App.addConsumption, App.updateContext, App.endSession.
  rewrite H. auto.
Qed.

(** C7 on a list with one finished session. *)
Lemma no_active_session_noop_witness :
  App.findActive oneJoint = None
  /\ App.addConsumption sampleForm 5 oneJoint = oneJoint
  /\ App.updateContext sampleForm oneJoint = oneJoint
  /\ App.endSession 5 oneJoint = oneJoint.
Proof.
  split; [reflexivity|].
  apply (no_active_session_noop sampleForm 5 oneJoint).
  intros s [<-|[]]. reflexivity.
Defined.

(* ================================================================= *)
(** ** JSON: reading back what was written *)

(** *** Strings *)

Lemma append_assoc (a b c : string) : ((a ++ b) ++ c = a ++ (b ++ c))%string.
Proof. induction a; simpl; congruence. Qed.

Lemma append_empty_r (a : string) : (a ++ EmptyString)%string = a.
Proof. induction a; simpl; congruence. Qed.

Lemma length_append (a b : string) :
  String.length (a ++ b) = (String.length a + String.length b)%nat.
Proof. induction a; simpl; congruence. Qed.

Lemma prepend_append a b r :
  prepend (a ++ b) r = prepend a (prepend b r).
Proof.
  destruct r as [[str rest]|]; simpl; [|reflexivity].
  f_equal. f_equal. induction a; simpl; congruence.
Qed.

Lemma parse_chars_quote_char c tail :
  parse_chars (quote_char c ++ tail)
  = prepend (String c EmptyString) (parse_chars tail).
Proof.
  destruct c as [[] [] [] [] [] [] [] []]; reflexivity.
Qed.

Lemma parse_chars_quote_chars s rest :
  parse_chars (quote_chars s ++ String dquote rest) = Some (s, rest).
Proof.
  induction s as [|c s IH]; simpl.
  - reflexivity.
  - rewrite append_assoc, parse_chars_quote_char, IH. reflexivity.
Qed.

(** *** Numbers *)

Lemma digitOf_digitChar d : (0 <= d <= 9)%Z -> digitOf (digitChar d) = Some d.
Proof.
  intros H.
  assert (C : (d = 0 \/ d = 1 \/ d = 2 \/ d = 3 \/ d = 4 \/ d = 5 \/ d = 6
               \/ d = 7 \/ d = 8 \/ d = 9)%Z) by lia.
  repeat (destruct C as [-> | C]; [reflexivity|]). subst. reflexivity.
Qed.

Lemma digit_end_read_digits acc cnt rest :
  digit_end rest = true -> read_digits acc cnt rest = (acc, cnt, rest).
Proof.
  destruct rest as [|c r]; simpl; [reflexivity|].
  destruct (digitOf c); [discriminate|reflexivity].
Qed.

Lemma read_digits_fixed k : forall n acc cnt rest,
  (0 <= n < 10 ^ Z.of_nat k)%Z -> digit_end rest = true ->
  read_digits acc cnt (fixed_digits k n ++ rest)
  = ((acc * 10 ^ Z.of_nat k + n)%Z, (cnt + k)%nat, rest).
Proof.
  induction k as [|k IH]; intros n acc cnt rest Hn Hr.
  - simpl in *. rewrite digit_end_read_digits by assumption.
    simpl. tuple_eq.
  - assert (Hp : (0 < 10 ^ Z.of_nat k)%Z) by (apply Z.pow_pos_nonneg; lia).
    rewrite Nat2Z.inj_succ, Z.pow_succ_r in Hn by lia.
    assert (Hd : (0 <= n / 10 ^ Z.of_nat k < 10)%Z).
    { split; [apply Z.div_pos; lia|]. apply Z.div_lt_upper_bound; lia. }
    change (fixed_digits (S k) n)
      with (String (digitChar ((n / 10 ^ Z.of_nat k) mod 10))
                   (fixed_digits k (n mod 10 ^ Z.of_nat k))).
    rewrite Z.mod_small by lia.
    cbn [append read_digits]. rewrite digitOf_digitChar by lia.
    rewrite IH; [|apply Z.mod_pos_bound; lia|assumption].
    rewrite Nat2Z.inj_succ, Z.pow_succ_r by lia.
    pose proof (Z.div_mod n (10 ^ Z.of_nat k) ltac:(lia)).
    repeat first [reflexivity | lia | nia | f_equal].
Qed.

Lemma read_digits_uint d : forall acc cnt rest,
  digit_end rest = true ->
  read_digits acc cnt (NilEmpty.string_of_uint d ++ rest)
  = (uint_acc d acc, (cnt + Decimal.nb_digits d)%nat, rest).
Proof.
  induction d; intros acc cnt rest Hr;
    cbn [NilEmpty.string_of_uint append uint_acc Decimal.nb_digits].
  all: try (rewrite digit_end_read_digits by assumption; tuple_eq).
  all: cbn [read_digits].
  all: match goal with |- context [digitOf ?c] =>
         let v := eval vm_compute in (digitOf c) in change (digitOf c) with v end.
  all: cbv beta iota; rewrite IHd by assumption; tuple_eq.
Qed.

Lemma uint_acc_pos d : forall acc,
  Zpos (Pos.of_uint_acc d acc) = uint_acc d (Zpos acc).
Proof.
  induction d; intros acc; cbn [Pos.of_uint_acc uint_acc];
    try reflexivity; rewrite IHd; f_equal; lia.
Qed.

Lemma uint_acc_value d : uint_acc d 0 = Z.of_uint d.
Proof.
  unfold Z.of_uint.
  induction d; cbn [Pos.of_uint uint_acc Z.of_N]; try reflexivity;
    try (rewrite uint_acc_pos; reflexivity).
  exact IHd.
Qed.

(** The numeral of a positive number starts with a digit that is not 0. *)
Lemma to_uint_head p :
  exists c tl d,
    NilEmpty.string_of_uint (Pos.to_uint p) = String c tl
    /\ digitOf c = Some d /\ (d =? 0)%Z = false
    /\ forall rest, digit_end rest = true ->
         read_digits d 1 (tl ++ rest)
         = (Zpos p, Decimal.nb_digits (Pos.to_uint p), rest).
Proof.
  pose proof (DecimalPos.Unsigned.to_of (Pos.to_uint p)) as Hn.
  rewrite DecimalPos.Unsigned.of_to in Hn. simpl in Hn.
  pose proof (DecimalPos.Unsigned.to_uint_nonzero p) as Hz.
  pose proof (DecimalPos.Unsigned.of_to p) as Hv.
  assert (Hval : uint_acc (Pos.to_uint p) 0 = Zpos p).
  { rewrite uint_acc_value. unfold Z.of_uint. rewrite Hv. reflexivity. }
  destruct (Pos.to_uint p) as [|u|u|u|u|u|u|u|u|u|u] eqn:E.
  1: { exfalso. revert Hn. unfold Decimal.unorm. simpl. discriminate. }
  1: { exfalso. rewrite unorm_D0 in Hn.
       unfold Decimal.unorm in Hn.
       destruct (Decimal.nzhead u) eqn:En; try discriminate.
       - apply Hz. congruence.
       - exact (nzhead_nonzero _ _ En). }
  all: eexists _, _, _; split; [reflexivity|]; split; [reflexivity|];
    split; [reflexivity|];
    intros rest Hr; rewrite read_digits_uint by assumption;
    rewrite <- Hval; reflexivity.
Qed.

Lemma number_end_digit_end rest : number_end rest = true -> digit_end rest = true.
Proof.
  destruct rest as [|c r]; [reflexivity|]. unfold number_end.
  intros H. apply andb_true_iff in H. apply H.
Qed.

Lemma parse_int_toString n rest :
  (0 <= n)%Z -> digit_end rest = true ->
  parse_int (Number_toString n ++ rest) = Some (n, rest)
  /\ exists c tl, (Number_toString n ++ rest)%string = String c tl
                  /\ Ascii.eqb c "-" = false.
Proof.
  intros Hn Hr. unfold Number_toString.
  destruct n as [|p|p]; [| |lia].
  - split; [reflexivity|]. eexists _, _. split; reflexivity.
  - cbn [Z.to_int NilZero.string_of_int].
    destruct (to_uint_head p) as (c & tl & d & E & Hc & Hd & Hread).
    assert (Es : NilZero.string_of_uint (Pos.to_uint p) = String c tl).
    { unfold NilZero.string_of_uint.
      destruct (Pos.to_uint p); [discriminate E|exact E..]. }
    rewrite Es. cbn [append parse_int]. rewrite Hc, Hd, Hread by assumption.
    split; [reflexivity|]. eexists _, _. split; [reflexivity|].
    destruct (Ascii.eqb_spec c "-"); [|reflexivity].
    subst c. vm_compute in Hc. discriminate.
Qed.

Lemma parse_frac_none m rest :
  number_end rest = true -> parse_frac m rest = Some (m, 0%Z, rest).
Proof.
  destruct rest as [|c r]; [reflexivity|]. unfold number_end, parse_frac.
  intros H. apply andb_true_iff in H. destruct H as [_ H].
  destruct (Ascii.eqb c "."); [discriminate|reflexivity].
Qed.

Lemma parse_frac_fixed m k part rest :
  (0 <= part < 10 ^ Z.of_nat (S k))%Z -> digit_end rest = true ->
  parse_frac m (String "." (fixed_digits (S k) part) ++ rest)
  = Some ((m * 10 ^ Z.of_nat (S k) + part)%Z, Z.of_nat (S k), rest).
Proof.
  intros Hp Hr. cbn [append parse_frac]. 
  change (Ascii.eqb "." ".") with true. cbv iota.
  rewrite read_digits_fixed by assumption. reflexivity.
Qed.

Lemma parse_exp_none rest :
  number_end rest = true -> parse_exp rest = Some (0%Z, rest).
Proof.
  destruct rest as [|c r]; [reflexivity|]. unfold number_end, parse_exp.
  intros H. apply andb_true_iff in H. destruct H as [_ H].
  apply negb_true_iff in H. rewrite !orb_false_iff in H.
  destruct H as [[_ He] HE]. rewrite He, HE. reflexivity.
Qed.

Lemma decimal_places_sound fuel : forall k0 num den k,
  decimal_places fuel k0 num den = Some k ->
  (Z.rem (10 ^ Z.of_nat k * num) (Zpos den) = 0)%Z.
Proof.
  induction fuel as [|fuel IH]; intros k0 num den k; simpl;
    destruct (Z.rem (10 ^ Z.of_nat k0 * num) (Z.pos den) =? 0)%Z eqn:E;
    intros H; try discriminate.
  - injection H as <-. apply Z.eqb_eq. exact E.
  - injection H as <-. apply Z.eqb_eq. exact E.
  - eapply IH. exact H.
Qed.

Lemma decimal_value (neg : bool) (num : Z) (den : positive) (k : nat) :
  neg = (num <? 0)%Z ->
  Qred (num # den) = num # den ->
  (Z.rem (10 ^ Z.of_nat k * num) (Zpos den) = 0)%Z ->
  decimal neg (Z.abs num * 10 ^ Z.of_nat k / Zpos den) (0 - Z.of_nat k)
  = num # den.
Proof.
  intros Hneg Hred Hrem. unfold decimal.
  rewrite <- Hred. apply Qred_complete.
  set (P := (10 ^ Z.of_nat k)%Z).
  assert (HP : (0 < P)%Z) by (apply Z.pow_pos_nonneg; lia).
  apply Z.rem_divide in Hrem; [|lia]. destruct Hrem as [c Hc].
  fold P in Hc.
  assert (Hs : (Z.abs num * P / Z.pos den = Z.abs c)%Z).
  { replace (Z.abs num * P)%Z with (Z.abs c * Z.pos den)%Z.
    - apply Z.div_mul. lia.
    - rewrite <- (Z.abs_eq (Z.pos den)) at 1 by lia.
      rewrite <- Z.abs_mul, <- Hc, Z.abs_mul. rewrite (Z.abs_eq P) by lia. lia. }
  rewrite Hs.
  assert (Hsign : (if neg then - Z.abs c else Z.abs c)%Z = c).
  { subst neg. destruct (num <? 0)%Z eqn:E.
    - apply Z.ltb_lt in E. assert (c < 0)%Z by nia. lia.
    - apply Z.ltb_ge in E. assert (0 <= c)%Z by nia. lia. }
  rewrite Hsign.
  replace (0 - Z.of_nat k)%Z with (- Z.of_nat k)%Z by lia.
  rewrite Qpower_opp.
  rewrite <- (Zpower_Qpower 10 (Z.of_nat k)) by lia. fold P.
  unfold Qeq. simpl.
  destruct P as [|P'|P'] eqn:EP; try lia. simpl.
  lia.
Qed.

Lemma storableNum_spec q :
  storableNum q = true ->
  Qred q = q
  /\ exists k, decimal_places (Pos.size_nat (Qden q)) 0 (Qnum q) (Qden q)
               = Some k.
Proof.
  unfold storableNum. intros H.
  apply andb_true_iff in H. destruct H as [H Hk].
  apply andb_true_iff in H. destruct H as [Hn Hd].
  apply Z.eqb_eq in Hn. apply Pos.eqb_eq in Hd. split.
  - destruct q as [n d], (Qred (n # d)) as [n' d']. simpl in *. congruence.
  - destruct (decimal_places _ _ _ _) as [k|]; [eauto|discriminate].
Qed.

Lemma parse_unsigned_printed neg scaled k rest :
  (0 <= scaled)%Z -> number_end rest = true ->
  let P := (10 ^ Z.of_nat k)%Z in
  let body := (Number_toString (scaled / P)
               ++ match k with
                  | O => EmptyString
                  | S _ => String "." (fixed_digits k (scaled mod P))
                  end ++ rest)%string in
  parse_unsigned neg body = Some (decimal neg scaled (0 - Z.of_nat k), rest)
  /\ exists c tl, body = String c tl /\ Ascii.eqb c "-" = false.
Proof.
  intros Hsc Hr P body.
  pose proof (number_end_digit_end rest Hr) as Hr'.
  assert (HP : (0 < P)%Z) by (apply Z.pow_pos_nonneg; lia).
  assert (Hw : (0 <= scaled / P)%Z) by (apply Z.div_pos; lia).
  assert (Hpart : (0 <= scaled mod P < P)%Z) by (apply Z.mod_pos_bound; lia).
  assert (Hsplit : (scaled / P * P + scaled mod P = scaled)%Z).
  { pose proof (Z.div_mod scaled P ltac:(lia)). lia. }
  subst body. destruct k as [|k].
  - destruct (parse_int_toString (scaled / P) rest Hw Hr') as [Hint Hhead].
    split; [|exact Hhead].
    unfold parse_unsigned. cbn [append]. rewrite Hint.
    rewrite parse_frac_none, parse_exp_none by assumption.
    do 3 f_equal. subst P. simpl in *. rewrite Z.div_1_r. reflexivity.
  - assert (Hd : digit_end (String "." (fixed_digits (S k) (scaled mod P)) ++ rest)
                 = true) by reflexivity.
    destruct (parse_int_toString (scaled / P) _ Hw Hd) as [Hint Hhead].
    split; [|exact Hhead].
    unfold parse_unsigned. rewrite Hint.
    rewrite parse_frac_fixed by assumption. fold P.
    rewrite parse_exp_none by assumption.
    rewrite Hsplit. reflexivity.
Qed.

Lemma Number_toJSON_parse q rest :
  storableNum q = true -> number_end rest = true ->
  parse_number (Number_toJSON q ++ rest) = Some (q, rest)
  /\ exists c tl, (Number_toJSON q ++ rest)%string = String c tl
                  /\ (Ascii.eqb c "-" = true \/ exists d, digitOf c = Some d).
Proof.
  intros Hq Hr. destruct (storableNum_spec q Hq) as [Hred [k Hk]].
  unfold Number_toJSON. cbv zeta. rewrite Hred, Hk.
  destruct q as [num den]. cbn [Qnum Qden] in *.
  pose proof (decimal_places_sound _ _ _ _ _ Hk) as Hrem.
  pose proof (decimal_value (num <? 0)%Z num den k eq_refl Hred Hrem) as Hval.
  assert (Hsc : (0 <= Z.abs num * 10 ^ Z.of_nat k / Z.pos den)%Z).
  { apply Z.div_pos; [|lia]. apply Z.mul_nonneg_nonneg; [lia|].
    apply Z.pow_nonneg. lia. }
  destruct (parse_unsigned_printed (num <? 0)%Z
              (Z.abs num * 10 ^ Z.of_nat k / Z.pos den) k rest Hsc Hr)
    as [Hparse (c & tl & Ebody & Hc)].
  cbv zeta in Hparse, Ebody. rewrite Hval in Hparse.
  destruct (num <? 0)%Z eqn:Hneg.
  - cbn [append]. rewrite append_assoc. split.
    + unfold parse_number. change (Ascii.eqb "-" "-") with true. cbv iota.
      exact Hparse.
    + eexists _, _. split; [reflexivity|]. left. reflexivity.
  - cbn [append]. rewrite append_assoc. rewrite Ebody in *. split.
    + unfold parse_number. rewrite Hc. exact Hparse.
    + eexists _, _. split; [reflexivity|]. right.
      unfold parse_unsigned, parse_int in Hparse.
      destruct (digitOf c); [eauto|discriminate].
Qed.

(** *** Which numbers are storable *)

Lemma divides_ten_pow_factor d K :
  (1 < d)%Z -> (d | 10 ^ K)%Z -> (0 <= K)%Z -> ((2 | d) \/ (5 | d))%Z.
Proof.
  intros Hd Hdiv HK.
  assert (Hg : (Z.gcd d 10 | 10)%Z) by apply Z.gcd_divide_r.
  assert (Hg' : (Z.gcd d 10 | d)%Z) by apply Z.gcd_divide_l.
  assert (Hpos : (0 < Z.gcd d 10)%Z).
  { pose proof (Z.gcd_nonneg d 10).
    destruct (Z.eq_dec (Z.gcd d 10) 0) as [E|E]; [|lia].
    apply Z.gcd_eq_0_r in E. lia. }
  assert (Hle : (Z.gcd d 10 <= 10)%Z) by (apply Z.divide_pos_le; [lia|exact Hg]).
  destruct (Z.eq_dec (Z.gcd d 10) 1) as [E1|E1].
  - exfalso.
    assert (Hrel : Z.gcd d (10 ^ K) = 1%Z)
      by (apply (Z.coprime_pow_r d 10 K HK); exact E1).
    assert (Hd1 : (d | 1)%Z).
    { apply (Z.gauss d (10 ^ K) 1); [rewrite Z.mul_1_r; exact Hdiv|exact Hrel]. }
    apply Z.divide_1_r_nonneg in Hd1; lia.
  - assert (C : (Z.gcd d 10 = 2 \/ Z.gcd d 10 = 5 \/ Z.gcd d 10 = 10)%Z).
    { destruct Hg as [c Hc].
      assert (0 < c <= 10)%Z by nia.
      assert (c = 1 \/ c = 2 \/ c = 3 \/ c = 4 \/ c = 5 \/ c = 6 \/ c = 7
              \/ c = 8 \/ c = 9 \/ c = 10)%Z as Hcases by lia.
      repeat (destruct Hcases as [-> | Hcases]); try subst c; lia. }
    destruct C as [E|[E|E]]; rewrite E in Hg'.
    + left. exact Hg'.
    + right. exact Hg'.
    + left. destruct Hg' as [c Hc]. exists (c * 5)%Z. lia.
Qed.

Lemma divides_ten_pow_log2 n : forall d K,
  (0 < d)%Z -> (Z.to_nat d <= n)%nat -> (0 <= K)%Z -> (d | 10 ^ K)%Z ->
  (d | 10 ^ Z.log2 d)%Z.
Proof.
  induction n as [|n IH]; intros d K Hd Hn HK Hdiv; [lia|].
  destruct (Z.eq_dec d 1) as [->|Hne]; [exists 1%Z; reflexivity|].
  assert (Hp : exists p d', (p = 2 \/ p = 5)%Z /\ d = (p * d')%Z).
  { destruct (divides_ten_pow_factor d K ltac:(lia) Hdiv HK) as [[c Hc]|[c Hc]].
    - exists 2%Z, c. split; [auto|lia].
    - exists 5%Z, c. split; [auto|lia]. }
  destruct Hp as (p & d' & Hp & ->).
  assert (Hd' : (0 < d')%Z) by (destruct Hp; subst p; lia).
  assert (Hdiv' : (d' | 10 ^ K)%Z).
  { apply Z.divide_trans with (p * d')%Z; [|exact Hdiv].
    exists p. lia. }
  specialize (IH d' K Hd' ltac:(destruct Hp; subst p; lia) HK Hdiv').
  assert (Hlog : (Z.log2 d' + 1 <= Z.log2 (p * d'))%Z).
  { replace (Z.log2 d' + 1)%Z with (Z.succ (Z.log2 d')) by lia.
    rewrite <- (Z.log2_double d') by lia. apply Z.log2_le_mono.
    destruct Hp; subst p; lia. }
  apply Z.divide_trans with (10 ^ (Z.log2 d' + 1))%Z.
  - rewrite Z.pow_add_r by (pose proof (Z.log2_nonneg d'); lia).
    rewrite Z.pow_1_r. destruct IH as [c Hc]. rewrite Hc.
    destruct Hp; subst p.
    + exists (c * 5)%Z. lia.
    + exists (c * 2)%Z. lia.
  - exists (10 ^ (Z.log2 (p * d') - (Z.log2 d' + 1)))%Z.
    rewrite <- Z.pow_add_r; [f_equal; lia|lia|].
    pose proof (Z.log2_nonneg d'). lia.
Qed.

Lemma decimal_places_finds fuel : forall k0 num den k,
  (k0 <= k <= k0 + fuel)%nat ->
  (Z.rem (10 ^ Z.of_nat k * num) (Zpos den) = 0)%Z ->
  exists k', decimal_places fuel k0 num den = Some k'.
Proof.
  induction fuel as [|fuel IH]; intros k0 num den k Hk Hrem; simpl.
  - assert (k = k0) by lia. subst k. rewrite Hrem. simpl. eauto.
  - destruct (Z.rem (10 ^ Z.of_nat k0 * num) (Z.pos den) =? 0)%Z eqn:E; [eauto|].
    apply (IH (S k0) num den k); [|exact Hrem].
    destruct (Nat.eq_dec k k0) as [->|]; [|lia].
    rewrite Hrem in E. discriminate.
Qed.

Lemma size_nat_size p : Z.pos (Pos.size p) = Z.of_nat (Pos.size_nat p).
Proof. induction p; simpl Pos.size; simpl Pos.size_nat; lia. Qed.

Lemma log2_lt_size_nat p : (Z.log2 (Z.pos p) < Z.of_nat (Pos.size_nat p))%Z.
Proof.
  destruct p; simpl Z.log2; simpl Pos.size_nat; rewrite ?size_nat_size; lia.
Qed.

Lemma Qred_fixed_coprime num den :
  Qred (num # den) = num # den -> Z.gcd (Z.pos den) num = 1%Z.
Proof.
  unfold Qred. pose proof (Z.ggcd_gcd num (Z.pos den)) as Hg.
  pose proof (Z.ggcd_correct_divisors num (Z.pos den)) as Hd.
  pose proof (Z.gcd_nonneg num (Z.pos den)) as Hnn.
  rewrite <- Hg in Hnn. rewrite Z.gcd_comm, <- Hg. clear Hg.
  destruct (Z.ggcd num (Z.pos den)) as [g [r1 r2]]. cbn [fst snd] in *.
  destruct Hd as [Hn Hden]. intros E. injection E as E1 E2.
  assert (Hr2 : (0 < r2)%Z) by nia.
  rewrite <- (Z2Pos.id r2 Hr2), E2 in Hden. nia.
Qed.

(** The storable numbers are the fractions in lowest terms whose
    denominator divides a power of ten: the decimal fractions. *)
Theorem storableNum_decimal (q : Q) :
  storableNum q = true
  <-> Qred q = q /\ exists k : nat, (Z.pos (Qden q) | 10 ^ Z.of_nat k)%Z.
Proof.
  split.
  - intros H. destruct (storableNum_spec q H) as [Hred [k Hk]].
    split; [exact Hred|]. exists k.
    apply decimal_places_sound in Hk. destruct q as [num den].
    cbn [Qnum Qden] in *. apply Z.rem_divide in Hk; [|lia].
    apply (Z.gauss (Z.pos den) num (10 ^ Z.of_nat k)).
    + rewrite Z.mul_comm. exact Hk.
    + apply Qred_fixed_coprime, Hred.
  - intros [Hred [K HK]]. unfold storableNum. rewrite Hred.
    rewrite Z.eqb_refl, Pos.eqb_refl. cbn [andb].
    destruct q as [num den]. cbn [Qnum Qden] in *.
    pose proof (divides_ten_pow_log2 (Z.to_nat (Z.pos den)) (Z.pos den)
                  (Z.of_nat K) ltac:(lia) ltac:(lia) ltac:(lia) HK) as Hlog.
    pose proof (log2_lt_size_nat den) as Hsize.
    pose proof (Z.log2_nonneg (Z.pos den)) as Hnn.
    destruct (decimal_places_finds (Pos.size_nat den) 0 num den
                (Z.to_nat (Z.log2 (Z.pos den)))) as [k' Hk'].
    + lia.
    + rewrite Z2Nat.id by lia. apply Z.rem_divide; [lia|].
      apply Z.divide_mul_l. exact Hlog.
    + rewrite Hk'. reflexivity.
Qed.

(** *** Values *)

Lemma value_end_number_end rest : value_end rest = true -> number_end rest = true.
Proof.
  destruct rest as [|c r]; [reflexivity|]. unfold value_end, number_end, digit_end.
  destruct c as [[] [] [] [] [] [] [] []]; vm_compute; congruence.
Qed.

Lemma token_here c r : isWs c = false -> token c (String c r) = Some r.
Proof.
  intros H. unfold token. cbn [skip_ws]. rewrite H, Ascii.eqb_refl. reflexivity.
Qed.

Lemma token_other c c' r :
  isWs c' = false -> Ascii.eqb c' c = false -> token c (String c' r) = None.
Proof.
  intros H E. unfold token. cbn [skip_ws]. rewrite H, E. reflexivity.
Qed.

Lemma number_head_dispatch c :
  (Ascii.eqb c "-" = true \/ exists d, digitOf c = Some d) ->
  isWs c = false /\ Ascii.eqb c "n" = false /\ Ascii.eqb c "t" = false
  /\ Ascii.eqb c "f" = false /\ Ascii.eqb c dquote = false
  /\ Ascii.eqb c "[" = false /\ Ascii.eqb c "{" = false
  /\ value_start c = true.
Proof.
  destruct c as [[] [] [] [] [] [] [] []]; vm_compute;
    intros [H|[d H]]; try discriminate; repeat split; reflexivity.
Qed.

Lemma stringify_head v rest :
  storable v = true ->
  exists c tl, (stringify v ++ rest)%string = String c tl
               /\ value_start c = true.
Proof.
  intros Hv. destruct v as [|[]|q|s|items|members]; cbn [stringify];
    try (eexists _, _; split; reflexivity).
  destruct (Number_toJSON_parse q EmptyString Hv eq_refl) as [_ (c & tl & E & Hc)].
  destruct (Number_toJSON q) as [|c' tl'] eqn:En.
  - discriminate E.
  - cbn [append] in *. injection E as -> _.
    eexists _, _. split; [reflexivity|]. apply number_head_dispatch, Hc.
Qed.

Lemma join_cons (sep x : string) (l : list string) :
  join sep (x :: l)
  = match l with [] => x | _ => (x ++ sep ++ join sep l)%string end.
Proof. destruct l; reflexivity. Qed.

Lemma lookup_none k members :
  existsb (String.eqb k) (map fst members) = false -> lookup k members = None.
Proof.
  induction members as [|[k' v] ms IH]; simpl; [reflexivity|].
  intros H. apply orb_false_iff in H. destruct H as [H1 H2].
  rewrite H1. apply IH, H2.
Qed.

(** One more unit of fuel: the three readers at [S fuel], from the three at
    [fuel]. *)
Section Roundtrip.

Variable fuel : nat.

Hypothesis IHvalue : forall v rest,
  storable v = true -> (size v <= fuel)%nat -> value_end rest = true ->
  parse_value fuel (stringify v ++ rest) = Some (v, rest).

Hypothesis IHelements : forall v vs rest,
  forallb storable (v :: vs) = true -> (sizes (v :: vs) <= fuel)%nat ->
  parse_elements fuel
    (join "," (map stringify (v :: vs)) ++ String "]" rest)
  = Some (v :: vs, rest).

Hypothesis IHmembers : forall m ms rest,
  distinct (map fst (m :: ms)) = true ->
  forallb (fun m => storable (snd m)) (m :: ms) = true ->
  (member_sizes (m :: ms) <= fuel)%nat ->
  parse_members fuel
    (join "," (map member_text (m :: ms)) ++ String "}" rest)
  = Some (m :: ms, rest).

Lemma parse_value_step v rest :
  storable v = true -> (size v <= S fuel)%nat -> value_end rest = true ->
  parse_value (S fuel) (stringify v ++ rest) = Some (v, rest).
Proof.
  intros Hv Hs Hr.
  destruct v as [|[]|q|s|items|members]; try reflexivity.
  - (* Num *)
    cbn [stringify storable] in *.
    destruct (Number_toJSON_parse q rest Hv (value_end_number_end _ Hr))
      as [Hp (c & tl & E & Hc)].
    rewrite E in *.
    destruct (number_head_dispatch c Hc) as (W & N1 & N2 & N3 & N4 & N5 & N6 & _).
    cbn [parse_value skip_ws]. rewrite W, N1, N2, N3, N4, N5, N6, Hp.
    reflexivity.
  - (* Str *)
    cbn [stringify]. unfold quote. cbn [append parse_value skip_ws].
    change (isWs dquote) with false. cbv iota.
    change (Ascii.eqb dquote "n") with false.
    change (Ascii.eqb dquote "t") with false.
    change (Ascii.eqb dquote "f") with false.
    change (Ascii.eqb dquote dquote) with true. cbv iota.
    rewrite append_assoc. cbn [append].
    rewrite parse_chars_quote_chars. reflexivity.
  - (* Arr *)
    destruct items as [|v vs]; [reflexivity|].
    cbn [stringify]. cbn [append parse_value skip_ws].
    change (isWs "[") with false. cbv iota.
    change (Ascii.eqb "[" "n") with false.
    change (Ascii.eqb "[" "t") with false.
    change (Ascii.eqb "[" "f") with false.
    change (Ascii.eqb "[" dquote) with false.
    change (Ascii.eqb "[" "[") with true. cbv iota.
    assert (Hhead : token "]" ((join "," (map stringify (v :: vs)) ++ "]") ++ rest) = None).
    { cbn [storable forallb] in Hv. apply andb_true_iff in Hv. destruct Hv as [Hv _].
      cbn [map]. rewrite join_cons.
      destruct (stringify_head v
                  ((match map stringify vs with
                    | [] => EmptyString
                    | _ => "," ++ join "," (map stringify vs)
                    end ++ "]") ++ rest) Hv) as (c & tl & E & Hc).
      replace ((match map stringify vs with
                | [] => stringify v
                | _ :: _ => stringify v ++ "," ++ join "," (map stringify vs)
                end ++ "]") ++ rest)%string with (String c tl).
      - unfold value_start in Hc.
        apply andb_true_iff in Hc. destruct Hc as [Hc H3].
        apply andb_true_iff in Hc. destruct Hc as [H1 H2].
        apply negb_true_iff in H1, H2. apply token_other; assumption.
      - rewrite <- E. destruct (map stringify vs); cbn [append];
          rewrite ?append_assoc; reflexivity. }
    rewrite Hhead. rewrite append_assoc. cbn [append].
    rewrite IHelements; [reflexivity|exact Hv|].
    cbn [size] in Hs. unfold sizes. lia.
  - (* Obj *)
    destruct members as [|m ms]; [reflexivity|].
    cbn [stringify].
    change (map (fun m0 => (quote (fst m0) ++ ":" ++ stringify (snd m0))%string) (m :: ms))
      with (map member_text (m :: ms)).
    cbn [append parse_value skip_ws].
    change (isWs "{") with false. cbv iota.
    change (Ascii.eqb "{" "n") with false.
    change (Ascii.eqb "{" "t") with false.
    change (Ascii.eqb "{" "f") with false.
    change (Ascii.eqb "{" dquote) with false.
    change (Ascii.eqb "{" "[") with false.
    change (Ascii.eqb "{" "{") with true. cbv iota.
    assert (Hhead : token "}" ((join "," (map member_text (m :: ms)) ++ "}") ++ rest) = None).
    { cbn [map]. rewrite join_cons.
      destruct (map member_text ms); unfold member_text, quote; cbn [append];
        apply token_other; reflexivity. }
    rewrite Hhead. rewrite append_assoc. cbn [append].
    cbn [storable] in Hv. apply andb_true_iff in Hv. destruct Hv as [Hd Hv].
    rewrite IHmembers; [reflexivity|exact Hd|exact Hv|].
    cbn [size] in Hs. unfold member_sizes. lia.
Qed.

Lemma parse_elements_step v vs rest :
  forallb storable (v :: vs) = true -> (sizes (v :: vs) <= S fuel)%nat ->
  parse_elements (S fuel)
    (join "," (map stringify (v :: vs)) ++ String "]" rest)
  = Some (v :: vs, rest).
Proof.
  intros Hv Hs. cbn [forallb] in Hv.
  apply andb_true_iff in Hv. destruct Hv as [Hv Hvs].
  cbn [sizes fold_right] in Hs. fold (sizes vs) in Hs.
  cbn [map]. rewrite join_cons. cbn [parse_elements].
  destruct vs as [|v' vs'].
  - cbn [map]. rewrite IHvalue; [|exact Hv|lia|reflexivity].
    reflexivity.
  - cbn [map]. rewrite !append_assoc. cbn [append].
    rewrite IHvalue; [|exact Hv|lia|reflexivity].
    rewrite token_here by reflexivity.
    change (stringify v' :: map stringify vs')
      with (map stringify (v' :: vs')).
    rewrite IHelements; [reflexivity|exact Hvs|lia].
Qed.

Lemma parse_members_step m ms rest :
  distinct (map fst (m :: ms)) = true ->
  forallb (fun m => storable (snd m)) (m :: ms) = true ->
  (member_sizes (m :: ms) <= S fuel)%nat ->
  parse_members (S fuel)
    (join "," (map member_text (m :: ms)) ++ String "}" rest)
  = Some (m :: ms, rest).
Proof.
  intros Hd Hv Hs. destruct m as [k v].
  cbn [map fst distinct] in Hd.
  apply andb_true_iff in Hd. destruct Hd as [Hk Hd].
  apply negb_true_iff in Hk.
  cbn [forallb snd] in Hv.
  apply andb_true_iff in Hv. destruct Hv as [Hv Hvs].
  cbn [member_sizes fold_right snd] in Hs. fold (member_sizes ms) in Hs.
  cbn [map]. rewrite join_cons. cbn [parse_members].
  destruct ms as [|m' ms'].
  - cbn [map]. unfold member_text. cbn [fst snd]. unfold quote.
    cbn [append]. rewrite token_here by reflexivity.
    rewrite !append_assoc. cbn [append].
    rewrite parse_chars_quote_chars.
    rewrite token_here by reflexivity.
    rewrite IHvalue; [|exact Hv|lia|reflexivity].
    reflexivity.
  - cbn [map]. unfold member_text at 1. cbn [fst snd]. unfold quote at 1.
    cbn [append]. rewrite token_here by reflexivity.
    rewrite !append_assoc. cbn [append].
    rewrite parse_chars_quote_chars.
    rewrite token_here by reflexivity.
    rewrite IHvalue; [|exact Hv|lia|reflexivity].
    rewrite token_here by reflexivity.
    change (member_text m' :: map member_text ms')
      with (map member_text (m' :: ms')).
    rewrite IHmembers; [|exact Hd|exact Hvs|lia].
    unfold add_member. rewrite lookup_none by exact Hk. reflexivity.
Qed.

End Roundtrip.

Lemma size_pos v : (1 <= size v)%nat.
Proof. destruct v; simpl; lia. Qed.

Lemma parse_printed fuel :
  (forall v rest,
      storable v = true -> (size v <= fuel)%nat -> value_end rest = true ->
      parse_value fuel (stringify v ++ rest) = Some (v, rest))
  /\ (forall v vs rest,
         forallb storable (v :: vs) = true -> (sizes (v :: vs) <= fuel)%nat ->
         parse_elements fuel
           (join "," (map stringify (v :: vs)) ++ String "]" rest)
         = Some (v :: vs, rest))
  /\ (forall m ms rest,
         distinct (map fst (m :: ms)) = true ->
         forallb (fun m => storable (snd m)) (m :: ms) = true ->
         (member_sizes (m :: ms) <= fuel)%nat ->
         parse_members fuel
           (join "," (map member_text (m :: ms)) ++ String "}" rest)
         = Some (m :: ms, rest)).
Proof.
  induction fuel as [|fuel (IH1 & IH2 & IH3)].
  - repeat split.
    + intros v rest _ H. pose proof (size_pos v). lia.
    + intros v vs rest _ H. simpl in H. lia.
    + intros m ms rest _ _ H. simpl in H. lia.
  - repeat split.
    + intros. apply parse_value_step; assumption.
    + intros. apply parse_elements_step; assumption.
    + intros. apply parse_members_step; assumption.
Qed.

Lemma sizes_le_length (texts : list string) (ns : list nat) :
  Forall2 (fun t n => (n <= 2 * String.length t + 1)%nat) texts ns ->
  (fold_right (fun n acc => S (n + acc)) 0 ns
   <= 2 * String.length (join "," texts) + 2)%nat.
Proof.
  induction 1 as [|t n texts ns Hn Hrest IH]; [simpl; lia|].
  rewrite join_cons. cbn [fold_right].
  destruct Hrest as [|t' n' texts' ns' Hn' Hrest'].
  - simpl. lia.
  - rewrite !length_append. cbn [String.length] in *. lia.
Qed.

Lemma size_le_length v : (size v <= 2 * String.length (stringify v) + 1)%nat.
Proof.
  induction v as [| b | q | s | items IH | members IH] using value_nested_ind;
    try (simpl; lia).
  - cbn [size stringify]. rewrite !length_append. cbn [String.length].
    pose proof (sizes_le_length (map stringify items) (map size items)) as H.
    replace (fold_right (fun v n => S (size v + n)) 0 items)%nat
      with (fold_right (fun n acc => S (n + acc)) 0 (map size items))%nat
      by (clear; induction items; simpl; congruence).
    assert (F : Forall2 (fun t n => (n <= 2 * String.length t + 1)%nat)
                        (map stringify items) (map size items)).
    { clear H. induction IH; simpl; constructor; assumption. }
    specialize (H F). lia.
  - cbn [size stringify]. rewrite !length_append. cbn [String.length].
    pose proof (sizes_le_length
                  (map (fun m => (quote (fst m) ++ ":" ++ stringify (snd m))%string) members)
                  (map (fun m => size (snd m)) members)) as H.
    replace (fold_right (fun m n => S (size (snd m) + n)) 0 members)%nat
      with (fold_right (fun n acc => S (n + acc)) 0
                       (map (fun m => size (snd m)) members))%nat
      by (clear; induction members; simpl; congruence).
    assert (F : Forall2 (fun t n => (n <= 2 * String.length t + 1)%nat)
                  (map (fun m => (quote (fst m) ++ ":" ++ stringify (snd m))%string) members)
                  (map (fun m => size (snd m)) members)).
    { clear H. induction IH as [|m ms Hm Hms IHms]; cbn [map]; constructor;
        [|assumption].
      rewrite !length_append. lia. }
    specialize (H F). lia.
Qed.

(** [JSON.parse (JSON.stringify v)] is [v] for every storable value. *)
Theorem parse_stringify v : storable v = true -> parse (stringify v) = Some v.
Proof.
  intros Hv. unfold parse.
  destruct (parse_printed (2 * String.length (stringify v) + 2)) as [H _].
  specialize (H v EmptyString Hv).
  rewrite append_empty_r in H. rewrite H; [reflexivity| |reflexivity].
  pose proof (size_le_length v). lia.
Qed.

(** *** The fuel of [parse] is enough *)

Lemma skip_ws_length s : (String.length (skip_ws s) <= String.length s)%nat.
Proof.
  induction s as [|c s IH]; simpl; [lia|].
  destruct (isWs c); simpl; lia.
Qed.

Lemma token_length c s r :
  token c s = Some r -> (String.length r < String.length s)%nat.
Proof.
  unfold token. pose proof (skip_ws_length s) as H.
  destruct (skip_ws s) as [|c' r']; [discriminate|].
  destruct (Ascii.eqb c' c); [|discriminate].
  intros E. injection E as <-. simpl in H. lia.
Qed.

Lemma prepend_length p x str r :
  prepend p x = Some (str, r) -> exists str', x = Some (str', r).
Proof.
  destruct x as [[str' r']|]; simpl; [|discriminate].
  intros E. injection E as _ <-. eauto.
Qed.

Lemma parse_chars_length_upto n : forall s str r,
  (String.length s <= n)%nat ->
  parse_chars s = Some (str, r) -> (String.length r < String.length s)%nat.
Proof.
  induction n as [|n IH]; intros s str r Hn;
    (destruct s as [|c rest]; [discriminate|]); [simpl in Hn; lia|].
  cbn [parse_chars].
  destruct (Ascii.eqb c dquote).
  { intros E. injection E as _ <-. simpl. lia. }
  destruct (Ascii.eqb c "\").
  - destruct rest as [|e rest1]; [discriminate|].
    destruct (unescape e).
    + intros E. apply prepend_length in E. destruct E as [str' E].
      apply IH in E; simpl in *; lia.
    + destruct (Ascii.eqb e "u"); [|discriminate].
      destruct rest1 as [|h1 [|h2 [|h3 [|h4 rest2]]]]; try discriminate.
      destruct (hex4 h1 h2 h3 h4); [|discriminate].
      intros E. apply prepend_length in E. destruct E as [str' E].
      apply IH in E; simpl in *; lia.
  - destruct (N_of_ascii c <? 32)%N; [discriminate|].
    intros E. apply prepend_length in E. destruct E as [str' E].
    apply IH in E; simpl in *; lia.
Qed.

Lemma parse_chars_length s str r :
  parse_chars s = Some (str, r) -> (String.length r < String.length s)%nat.
Proof. apply (parse_chars_length_upto (String.length s)). lia. Qed.

Lemma expect_length w : forall s r,
  expect w s = Some r -> (String.length r <= String.length s)%nat.
Proof.
  induction w as [|a w IH]; intros s r; simpl.
  - intros E. injection E as <-. lia.
  - destruct s as [|c s]; [discriminate|].
    destruct (Ascii.eqb a c); [|discriminate].
    intros E. apply IH in E. simpl. lia.
Qed.

Lemma read_digits_length s : forall acc cnt m k r,
  read_digits acc cnt s = (m, k, r) ->
  (String.length r <= String.length s)%nat.
Proof.
  induction s as [|c s IH]; intros acc cnt m k r; simpl.
  - intros E. injection E as _ _ <-. simpl. lia.
  - destruct (digitOf c).
    + intros E. apply IH in E. lia.
    + intros E. injection E as _ _ <-. simpl. lia.
Qed.

Lemma parse_int_length s m r :
  parse_int s = Some (m, r) -> (String.length r < String.length s)%nat.
Proof.
  unfold parse_int. destruct s as [|c s]; [discriminate|].
  destruct (digitOf c) as [d|]; [|discriminate].
  destruct (d =? 0)%Z.
  - intros E. injection E as _ <-. simpl. lia.
  - destruct (read_digits d 1 s) as [[m' k'] r'] eqn:R.
    intros E. injection E as _ <-. apply read_digits_length in R. simpl. lia.
Qed.

Lemma parse_frac_length m s m' k r :
  parse_frac m s = Some (m', k, r) -> (String.length r <= String.length s)%nat.
Proof.
  unfold parse_frac. destruct s as [|c s].
  - intros E. injection E as _ _ <-. lia.
  - destruct (Ascii.eqb c ".").
    + destruct (read_digits m 0 s) as [[m1 k1] r1] eqn:R.
      apply read_digits_length in R.
      destruct k1; [discriminate|]. intros E. injection E as _ _ <-.
      simpl. lia.
    + intros E. injection E as _ _ <-. lia.
Qed.

Lemma parse_exp_length s x r :
  parse_exp s = Some (x, r) -> (String.length r <= String.length s)%nat.
Proof.
  unfold parse_exp. destruct s as [|c s].
  - intros E. injection E as _ <-. lia.
  - destruct (Ascii.eqb c "e" || Ascii.eqb c "E").
    + destruct s as [|sign s'].
      * simpl. discriminate.
      * destruct (Ascii.eqb sign "-");
          [|destruct (Ascii.eqb sign "+")];
          match goal with
          | |- context [read_digits 0 0 ?t] =>
              destruct (read_digits 0 0 t) as [[m1 k1] r1] eqn:R;
              apply read_digits_length in R
          end;
          (destruct k1; [discriminate|]); intros E; injection E as _ <-;
          simpl in *; lia.
    + intros E. injection E as _ <-. lia.
Qed.

Lemma parse_unsigned_length neg s q r :
  parse_unsigned neg s = Some (q, r) ->
  (String.length r < String.length s)%nat.
Proof.
  unfold parse_unsigned.
  destruct (parse_int s) as [[m s2]|] eqn:E1; [|discriminate].
  destruct (parse_frac m s2) as [[[m' k] s3]|] eqn:E2; [|discriminate].
  destruct (parse_exp s3) as [[x s4]|] eqn:E3; [|discriminate].
  intros E. injection E as _ <-.
  apply parse_int_length in E1. apply parse_frac_length in E2.
  apply parse_exp_length in E3. lia.
Qed.

Lemma parse_number_length s q r :
  parse_number s = Some (q, r) -> (String.length r < String.length s)%nat.
Proof.
  unfold parse_number. destruct s as [|c s]; [discriminate|].
  destruct (Ascii.eqb c "-"); intros E; apply parse_unsigned_length in E;
    simpl in *; lia.
Qed.

Lemma option_map_pair {A B} (a : A) (x : option B) (a' : A) (b : B) :
  option_map (pair a) x = Some (a', b) -> a' = a /\ x = Some b.
Proof. destruct x; simpl; [|discriminate]. intros E. injection E as <- <-. auto. Qed.

Lemma parse_enough f :
  (forall s v r, parse_value f s = Some (v, r) -> enough parse_value 0 s v r)
  /\ (forall s vs r,
         parse_elements f s = Some (vs, r) -> enough parse_elements 1 s vs r)
  /\ (forall s ms r,
         parse_members f s = Some (ms, r) -> enough parse_members 1 s ms r).
Proof.
  induction f as [|f (IHv & IHe & IHm)];
    [repeat split; intros; discriminate|].
  refine (conj _ (conj _ _)).
  - (* parse_value *)
    intros s v r. cbn [parse_value].
    pose proof (skip_ws_length s) as Hws.
    destruct (skip_ws s) as [|c rest] eqn:Es; [discriminate|].
    cbn [String.length] in Hws.
    assert (Hg : forall g, (2 * (String.length s - String.length r) <= g)%nat ->
                 (String.length r < String.length s)%nat ->
                 exists g', g = S g'
                   /\ (2 * (String.length rest - String.length r) + 1 <= g')%nat).
    { intros g Hg Hr. destruct g as [|g']; [lia|]. exists g'. split; [reflexivity|lia]. }
    destruct (Ascii.eqb c "n") eqn:E1.
    { intros E. apply option_map_pair in E. destruct E as [-> E].
      pose proof (expect_length _ _ _ E). split; [lia|].
      intros g Hg'. destruct (Hg g) as (g' & -> & _); [lia..|].
      cbn [parse_value]. rewrite Es, E1, E. reflexivity. }
    destruct (Ascii.eqb c "t") eqn:E2.
    { intros E. apply option_map_pair in E. destruct E as [-> E].
      pose proof (expect_length _ _ _ E). split; [lia|].
      intros g Hg'. destruct (Hg g) as (g' & -> & _); [lia..|].
      cbn [parse_value]. rewrite Es, E1, E2, E. reflexivity. }
    destruct (Ascii.eqb c "f") eqn:E3.
    { intros E. apply option_map_pair in E. destruct E as [-> E].
      pose proof (expect_length _ _ _ E). split; [lia|].
      intros g Hg'. destruct (Hg g) as (g' & -> & _); [lia..|].
      cbn [parse_value]. rewrite Es, E1, E2, E3, E. reflexivity. }
    destruct (Ascii.eqb c dquote) eqn:E4.
    { destruct (parse_chars rest) as [[str r']|] eqn:Ec; [|discriminate].
      intros E. injection E as <- <-.
      pose proof (parse_chars_length _ _ _ Ec). split; [lia|].
      intros g Hg'. destruct (Hg g) as (g' & -> & _); [lia..|].
      cbn [parse_value]. rewrite Es, E1, E2, E3, E4, Ec. reflexivity. }
    destruct (Ascii.eqb c "[") eqn:E5.
    { destruct (token "]" rest) as [r'|] eqn:Et.
      - intros E. injection E as <- <-.
        pose proof (token_length _ _ _ Et). split; [lia|].
        intros g Hg'. destruct (Hg g) as (g' & -> & _); [lia..|].
        cbn [parse_value]. rewrite Es, E1, E2, E3, E4, E5, Et. reflexivity.
      - destruct (parse_elements f rest) as [[items r']|] eqn:Ee; [|discriminate].
        intros E. injection E as <- <-.
        destruct (IHe _ _ _ Ee) as [Hl He]. split; [lia|].
        intros g Hg'. destruct (Hg g) as (g' & -> & Hg''); [lia..|].
        cbn [parse_value]. rewrite Es, E1, E2, E3, E4, E5, Et, He by lia.
        reflexivity. }
    destruct (Ascii.eqb c "{") eqn:E6.
    { destruct (token "}" rest) as [r'|] eqn:Et.
      - intros E. injection E as <- <-.
        pose proof (token_length _ _ _ Et). split; [lia|].
        intros g Hg'. destruct (Hg g) as (g' & -> & _); [lia..|].
        cbn [parse_value]. rewrite Es, E1, E2, E3, E4, E5, E6, Et. reflexivity.
      - destruct (parse_members f rest) as [[ms r']|] eqn:Ee; [|discriminate].
        intros E. injection E as <- <-.
        destruct (IHm _ _ _ Ee) as [Hl He]. split; [lia|].
        intros g Hg'. destruct (Hg g) as (g' & -> & Hg''); [lia..|].
        cbn [parse_value]. rewrite Es, E1, E2, E3, E4, E5, E6, Et, He by lia.
        reflexivity. }
    destruct (parse_number (String c rest)) as [[q r']|] eqn:En; [|discriminate].
    intros E. injection E as <- <-.
    pose proof (parse_number_length _ _ _ En) as Hl. cbn [String.length] in Hl.
    split; [lia|].
    intros g Hg'. destruct (Hg g) as (g' & -> & _); [lia..|].
    cbn [parse_value]. rewrite Es, E1, E2, E3, E4, E5, E6, En. reflexivity.
  - (* parse_elements *)
    intros s vs r. cbn [parse_elements].
    destruct (parse_value f s) as [[v r1]|] eqn:Ev; [|discriminate].
    destruct (IHv _ _ _ Ev) as [Hl1 Hv].
    destruct (token "," r1) as [r2|] eqn:Et.
    + destruct (parse_elements f r2) as [[vs' r3]|] eqn:Ee; [|discriminate].
      intros E. injection E as <- <-.
      pose proof (token_length _ _ _ Et).
      destruct (IHe _ _ _ Ee) as [Hl3 He]. split; [lia|].
      intros g Hg. destruct g as [|g']; [lia|].
      cbn [parse_elements]. rewrite Hv by lia. rewrite Et. rewrite He by lia.
      reflexivity.
    + destruct (token "]" r1) as [r2|] eqn:Et2; [|discriminate].
      intros E. injection E as <- <-.
      pose proof (token_length _ _ _ Et2). split; [lia|].
      intros g Hg. destruct g as [|g']; [lia|].
      cbn [parse_elements]. rewrite Hv by lia. rewrite Et, Et2. reflexivity.
  - (* parse_members *)
    intros s ms r. cbn [parse_members].
    destruct (token dquote s) as [r0|] eqn:Eq; [|discriminate].
    pose proof (token_length _ _ _ Eq).
    destruct (parse_chars r0) as [[k r1]|] eqn:Ec; [|discriminate].
    pose proof (parse_chars_length _ _ _ Ec).
    destruct (token ":" r1) as [r2|] eqn:Ecol; [|discriminate].
    pose proof (token_length _ _ _ Ecol).
    destruct (parse_value f r2) as [[v r3]|] eqn:Ev; [|discriminate].
    destruct (IHv _ _ _ Ev) as [Hl3 Hv].
    destruct (token "," r3) as [r4|] eqn:Et.
    + destruct (parse_members f r4) as [[ms' r5]|] eqn:Ee; [|discriminate].
      intros E. injection E as <- <-.
      pose proof (token_length _ _ _ Et).
      destruct (IHm _ _ _ Ee) as [Hl5 He]. split; [lia|].
      intros g Hg. destruct g as [|g']; [lia|].
      cbn [parse_members]. rewrite Eq, Ec, Ecol. rewrite Hv by lia.
      rewrite Et. rewrite He by lia. reflexivity.
    + destruct (token "}" r3) as [r4|] eqn:Et2; [|discriminate].
      intros E. injection E as <- <-.
      pose proof (token_length _ _ _ Et2). split; [lia|].
      intros g Hg. destruct g as [|g']; [lia|].
      cbn [parse_members]. rewrite Eq, Ec, Ecol. rewrite Hv by lia.
      rewrite Et, Et2. reflexivity.
Qed.

(** The fuel [parse] gives the reader is never the reason for [None]: what
    any amount of fuel reads, that fuel reads, and more fuel changes
    nothing. *)
Theorem parse_fuel_enough (text : string) (fuel : nat) :
  (forall v r,
      parse_value fuel text = Some (v, r) ->
      parse_value (2 * String.length text + 2) text = Some (v, r))
  /\ ((2 * String.length text + 2 <= fuel)%nat ->
      parse_value fuel text
      = parse_value (2 * String.length text + 2) text).
Proof.
  assert (H : forall f v r,
             parse_value f text = Some (v, r) ->
             forall g, (2 * String.length text + 2 <= g)%nat ->
                       parse_value g text = Some (v, r)).
  { intros f v r E g Hg. destruct (parse_enough f) as [Hv _].
    destruct (Hv _ _ _ E) as [_ He]. apply He. lia. }
  split.
  - intros v r E. apply (H fuel v r E). lia.
  - intros Hf.
    destruct (parse_value (2 * String.length text + 2) text) as [[v r]|] eqn:E.
    + apply (H _ v r E). exact Hf.
    + destruct (parse_value fuel text) as [[v r]|] eqn:E'; [|reflexivity].
      rewrite (H fuel v r E' (2 * String.length text + 2)%nat) in E by lia.
      discriminate.
Qed.

(* ================================================================= *)
(** ** Sessions as objects *)

Lemma storable_strings l : storable (strings l) = true.
Proof. unfold strings. simpl. induction l; simpl; auto. Qed.

Lemma storable_event ev :
  forallb storableNum (ConsumptionEvent_numbers ev) = true ->
  storable (ConsumptionEvent_toJSON ev) = true.
Proof.
  destruct ev as [t w p m n]. unfold ConsumptionEvent_numbers.
  cbn [forallb timestamp weightGrams thcPercent].
  rewrite !andb_true_iff. intros (Ht & Hw & Hp & _).
  unfold ConsumptionEvent_toJSON.
  cbn [timestamp weightGrams thcPercent method eventNotes].
  destruct n; cbn; rewrite Ht, Hw, Hp; reflexivity.
Qed.

Lemma storable_events evs :
  forallb storableNum (flat_map ConsumptionEvent_numbers evs) = true ->
  forallb storable (map ConsumptionEvent_toJSON evs) = true.
Proof.
  induction evs as [|ev evs IH]; [reflexivity|].
  cbn [flat_map map forallb]. rewrite forallb_app, andb_true_iff.
  intros [H1 H2]. rewrite storable_event by exact H1. apply IH, H2.
Qed.

Lemma storable_context c : storable (SessionContext_toJSON c) = true.
Proof. destruct c as [[] [] [] [] [] []]; reflexivity. Qed.

Lemma storable_user u : storable (UserState_toJSON u) = true.
Proof. destruct u as [[] [] []]; reflexivity. Qed.

Lemma storable_baseSubstance b : storable (BaseSubstance_toJSON b) = true.
Proof. destruct b as [[]]; reflexivity. Qed.

Lemma storable_session s :
  storableSession s = true -> storable (Session_toJSON s) = true.
Proof.
  destruct s as [i st en ac ge td bs cx so us su ef no co].
  unfold storableSession, Session_numbers.
  cbn [startTime endTime geo social consumptions forallb].
  rewrite andb_true_iff, !forallb_app, !andb_true_iff.
  intros (Hst & Hen & Hge & Hso & Hco).
  unfold Session_toJSON.
  cbn [id startTime endTime active geo timeOfDay baseSubstance context social
       user supplements effects notes consumptions].
  assert (Hcx := storable_context cx). assert (Hus := storable_user us).
  assert (Hsu := storable_strings su). assert (Hef := storable_strings ef).
  assert (Hev := storable_events co Hco).
  assert (Hsoc : storable (SocialContext_toJSON so) = true).
  { destruct so as [[n|]]; cbn in *; [|reflexivity].
    rewrite andb_true_r in Hso. rewrite Hso. reflexivity. }
  assert (Hcons : storable (Arr (map ConsumptionEvent_toJSON co)) = true)
    by exact Hev.
  remember (SessionContext_toJSON cx) as vcx eqn:Ecx.
  remember (UserState_toJSON us) as vus eqn:Eus.
  remember (strings su) as vsu eqn:Esu.
  remember (strings ef) as vef eqn:Eef.
  remember (SocialContext_toJSON so) as vso eqn:Eso.
  remember (Arr (map ConsumptionEvent_toJSON co)) as vco eqn:Eco.
  clear Ecx Eus Esu Eef Eso Eco Hco Hso Hev.
  assert (Hbs : forall b, storable (BaseSubstance_toJSON b) = true)
    by apply storable_baseSubstance.
  destruct en as [en|], ge as [[la lo]|], td as [td|], bs as [bs|], no as [no|];
    cbn [optional app optnum forallb lat lon] in *;
    cbn [storable map fst snd distinct existsb forallb GeoLocation_toJSON lat lon];
    rewrite ?Hbs, ?Hcx, ?Hus, ?Hsu, ?Hef, ?Hsoc, ?Hcons, ?Hst;
    repeat match goal with
           | H : _ && _ = true |- _ => apply andb_true_iff in H; destruct H
           end;
    repeat match goal with
           | H : storableNum _ = true |- _ => rewrite H; clear H
           end;
    reflexivity.
Qed.

Lemma storable_sessions sessions :
  forallb storableSession sessions = true ->
  forallb storable (map Session_toJSON sessions) = true.
Proof.
  induction sessions as [|s l IH]; [reflexivity|]. cbn [forallb map].
  rewrite andb_true_iff. intros [Hs Hl].
  rewrite storable_session by exact Hs. apply IH, Hl.
Qed.

Lemma storable_payload sessions createdAt :
  forallb storableSession sessions = true -> storableNum createdAt = true ->
  storable (payload sessions createdAt) = true.
Proof.
  intros Hs Hc. unfold payload.
  cbn [storable map fst snd distinct forallb].
  rewrite (storable_sessions _ Hs), Hc. reflexivity.
Qed.

Lemma read_strings l : asList asStr (Some (strings l)) = Some l.
Proof.
  unfold strings. cbn [asList]. induction l as [|x l IH]; [reflexivity|].
  cbn [map all asStr bind]. rewrite IH. reflexivity.
Qed.

Lemma read_event ev :
  asObj ConsumptionEvent_read (Some (ConsumptionEvent_toJSON ev)) = Some ev.
Proof. destruct ev as [t w p m [n|]]; reflexivity. Qed.

Lemma read_events evs :
  asList (asObj ConsumptionEvent_read)
         (Some (Arr (map ConsumptionEvent_toJSON evs))) = Some evs.
Proof.
  cbn [asList]. induction evs as [|ev evs IH]; [reflexivity|].
  cbn [map all]. rewrite read_event. cbn [bind]. rewrite IH. reflexivity.
Qed.

Lemma read_context c :
  asObj SessionContext_read (Some (SessionContext_toJSON c)) = Some c.
Proof. destruct c as [[] [] [] [] [] []]; reflexivity. Qed.

Lemma read_social c :
  asObj SocialContext_read (Some (SocialContext_toJSON c)) = Some c.
Proof. destruct c as [[]]; reflexivity. Qed.

Lemma read_user u :
  asObj UserState_read (Some (UserState_toJSON u)) = Some u.
Proof. destruct u as [[] [] []]; reflexivity. Qed.

Lemma read_geo g :
  opt (asObj GeoLocation_read) (Some (GeoLocation_toJSON g)) = Some (Some g).
Proof. destruct g; reflexivity. Qed.

Lemma read_timeOfDay t :
  opt asTimeOfDay (Some (TimeOfDay_toJSON t)) = Some (Some t).
Proof. destruct t; reflexivity. Qed.

Lemma read_baseSubstance b :
  opt (asObj BaseSubstance_read) (Some (BaseSubstance_toJSON b))
  = Some (Some b).
Proof. destruct b as [[]]; reflexivity. Qed.

Lemma Session_read_toJSON s : Session_read (Session_toJSON s) = Some s.
Proof.
  destruct s as [i st en ac ge td bs cx so us su ef no co].
  unfold Session_read, Session_toJSON.
  cbn [id startTime endTime active geo timeOfDay baseSubstance context social
       user supplements effects notes consumptions].
  pose proof (read_context cx) as Hcx. pose proof (read_social so) as Hso.
  pose proof (read_user us) as Hus. pose proof (read_strings su) as Hsu.
  pose proof (read_strings ef) as Hef. pose proof (read_events co) as Hco.
  remember (SessionContext_toJSON cx) as vcx eqn:Ecx.
  remember (UserState_toJSON us) as vus eqn:Eus.
  remember (strings su) as vsu eqn:Esu.
  remember (strings ef) as vef eqn:Eef.
  remember (SocialContext_toJSON so) as vso eqn:Eso.
  remember (Arr (map ConsumptionEvent_toJSON co)) as vco eqn:Eco.
  clear Ecx Eus Esu Eef Eso Eco.
  destruct en as [en|], ge as [g|], td as [td|], bs as [bs|], no as [no|];
    cbn [optional app getProp lookup String.eqb Ascii.eqb Bool.eqb];
    rewrite ?read_geo, ?read_timeOfDay, ?read_baseSubstance,
            ?Hcx, ?Hso, ?Hus, ?Hsu, ?Hef, ?Hco;
    reflexivity.
Qed.

Lemma read_sessions sessions :
  map Session_read (map Session_toJSON sessions) = map Some sessions.
Proof.
  induction sessions as [|s l IH]; [reflexivity|].
  cbn [map]. rewrite Session_read_toJSON, IH. reflexivity.
Qed.

(* ================================================================= *)
(** ** Persistence *)

Lemma getItem_setItem k v ls :
  LocalStorage.getItem k (LocalStorage.setItem k v ls) = Some v.
Proof.
  unfold LocalStorage.getItem, LocalStorage.setItem.
  rewrite String.eqb_refl. reflexivity.
Qed.

Lemma loadSessions_stored raw ls :
  loadSessions (LocalStorage.setItem STORAGE_KEY raw ls)
  = if negb (truthyStr raw) then [] else
    match parse raw with
    | None => []
    | Some parsed =>
        if isArray (Some parsed) then elements (Some parsed)
        else if truthy parsed && isArray (getProp parsed "sessions")
             then elements (getProp parsed "sessions") else []
    end.
Proof. unfold loadSessions. rewrite getItem_setItem. reflexivity. Qed.

Lemma stringify_truthy v : storable v = true -> truthyStr (stringify v) = true.
Proof.
  intros Hv. destruct (stringify_head v EmptyString Hv) as (c & tl & E & _).
  rewrite append_empty_r in E. rewrite E. reflexivity.
Qed.

Lemma loadSessions_saved sessions createdAt ls :
  forallb storableSession sessions = true ->
  storableNum createdAt = true ->
  loadSessions (saveSessions sessions createdAt ls)
  = map Session_toJSON sessions.
Proof.
  intros Hs Hc. unfold saveSessions. rewrite loadSessions_stored.
  pose proof (storable_payload sessions createdAt Hs Hc) as Hp.
  rewrite (stringify_truthy _ Hp), (parse_stringify _ Hp). reflexivity.
Qed.

Lemma loadSessions_legacy sessions ls :
  forallb storableSession sessions = true ->
  loadSessions (LocalStorage.setItem STORAGE_KEY (legacyText sessions) ls)
  = map Session_toJSON sessions.
Proof.
  intros Hs. rewrite loadSessions_stored. unfold legacyText.
  assert (Hp : storable (Arr (map Session_toJSON sessions)) = true)
    by exact (storable_sessions _ Hs).
  rewrite (stringify_truthy _ Hp), (parse_stringify _ Hp). reflexivity.
Qed.

(** C5.  Saving a list of sessions and loading it gives back the objects
    of the sessions saved, in order, and read as sessions they are equal to
    the ones saved field for field; the list may be empty.  The numbers of
    the sessions and [createdAt] are storable numbers (fractions in lowest
    terms with a finite decimal numeral, as every finite [number] is). *)
Theorem saveSessions_loadSessions_roundtrip
        (sessions : list Session) (createdAt : Q) (ls : LocalStorage.t) :
  forallb storableSession sessions = true ->
  storableNum createdAt = true ->
  loadSessions (saveSessions sessions createdAt ls)
  = map Session_toJSON sessions
  /\ map Session_read (loadSessions (saveSessions sessions createdAt ls))
     = map Some sessions.
Proof.
  intros Hs Hc. rewrite (loadSessions_saved _ _ _ Hs Hc).
  split; [reflexivity|apply read_sessions].
Qed.

(** C5 on the empty list and on a list of one session with every kind of
    field. *)
Lemma saveSessions_loadSessions_roundtrip_witness :
  (loadSessions (saveSessions [] 1700000400000 LocalStorage.empty) = []
   /\ map Session_read
          (loadSessions (saveSessions [] 1700000400000 LocalStorage.empty))
      = [])
  /\ (loadSessions
        (saveSessions [richSession] 1700000400000 LocalStorage.empty)
      = [Session_toJSON richSession]
      /\ map Session_read
             (loadSessions
                (saveSessions [richSession] 1700000400000 LocalStorage.empty))
         = [Some richSession]).
Proof.
  split.
  - apply (saveSessions_loadSessions_roundtrip [] 1700000400000
             LocalStorage.empty); reflexivity.
  - apply (saveSessions_loadSessions_roundtrip [richSession] 1700000400000
             LocalStorage.empty); reflexivity.
Defined.

(** C6.  [loadSessions] is a total function of the storage.  It gives the
    empty list when nothing is stored under the key, when the stored text
    does not parse, and when it parses to anything but an array or an
    object whose [sessions] is an array; it gives the elements of the array
    in those two cases.  So the bare array of a list of sessions loads
    identically to the wrapped form written by [saveSessions], and the
    texts [not json] and [{"sessions": "oops"}] load as the empty list. *)
Theorem loadSessions_fails_soft (ls : LocalStorage.t) :
  (LocalStorage.getItem STORAGE_KEY ls = None -> loadSessions ls = [])
  /\ (forall raw,
         LocalStorage.getItem STORAGE_KEY ls = Some raw ->
         parse raw = None -> loadSessions ls = [])
  /\ (forall raw items,
         LocalStorage.getItem STORAGE_KEY ls = Some raw ->
         parse raw = Some (Arr items) -> loadSessions ls = items)
  /\ (forall raw members items,
         LocalStorage.getItem STORAGE_KEY ls = Some raw ->
         parse raw = Some (Obj members) ->
         lookup "sessions" members = Some (Arr items) ->
         loadSessions ls = items)
  /\ (forall raw parsed,
         LocalStorage.getItem STORAGE_KEY ls = Some raw ->
         parse raw = Some parsed ->
         isArray (Some parsed) = false ->
         isArray (getProp parsed "sessions") = false ->
         loadSessions ls = [])
  /\ (forall sessions createdAt,
         forallb storableSession sessions = true ->
         storableNum createdAt = true ->
         loadSessions
           (LocalStorage.setItem STORAGE_KEY (legacyText sessions) ls)
         = loadSessions (saveSessions sessions createdAt ls))
  /\ loadSessions (LocalStorage.setItem STORAGE_KEY "not json" ls) = []
  /\ loadSessions (LocalStorage.setItem STORAGE_KEY oopsText ls) = [].
Proof.
  assert (Hne : forall raw v, parse raw = Some v -> truthyStr raw = true).
  { intros [|c r] v H; [discriminate H|reflexivity]. }
  refine (conj _ (conj _ (conj _ (conj _ (conj _ (conj _ (conj _ _))))))).
  - intros H. unfold loadSessions. rewrite H. reflexivity.
  - intros raw H Hp. unfold loadSessions. rewrite H, Hp.
    destruct (negb (truthyStr raw)); reflexivity.
  - intros raw items H Hp. unfold loadSessions.
    rewrite H, Hp, (Hne _ _ Hp). reflexivity.
  - intros raw members items H Hp Hl. unfold loadSessions.
    rewrite H, Hp, (Hne _ _ Hp). cbn. rewrite Hl. reflexivity.
  - intros raw parsed H Hp Ha Hs. unfold loadSessions.
    rewrite H, Hp, (Hne _ _ Hp), Ha, Hs, andb_false_r. reflexivity.
  - intros sessions createdAt Hs Hc.
    rewrite (loadSessions_legacy _ _ Hs), (loadSessions_saved _ _ _ Hs Hc).
    reflexivity.
  - rewrite loadSessions_stored. reflexivity.
  - rewrite loadSessions_stored. reflexivity.
Qed.

(** C6, legacy load, for a list of one session. *)
Lemma loadSessions_fails_soft_witness :
  loadSessions
    (LocalStorage.setItem STORAGE_KEY (legacyText [richSession])
                          LocalStorage.empty)
  = loadSessions (saveSessions [richSession] 1700000400000 LocalStorage.empty).
Proof.
  apply (proj1 (proj2 (proj2 (proj2 (proj2 (proj2
           (loadSessions_fails_soft LocalStorage.empty)))))));
    reflexivity.
Defined.

(* ================================================================= *)
(** ** Dose model: bounds and sharing *)

Lemma thcFrac_bounds p : 0 <= Qmax 0 (Qmin p 100) / 100 <= 1.
Proof.
  pose proof (Q.le_max_l 0 (Qmin p 100)) as H0.
  assert (H1 : Qmax 0 (Qmin p 100) <= 100).
  { apply Q.max_lub; [lraQ|apply Q.le_min_r]. }
  split.
  - apply Qle_shift_div_l; lraQ.
  - apply Qle_shift_div_r; lraQ.
Qed.

(** X1.  A dose is never negative and never exceeds the weight consumed:
    for an event with a non-negative weight, whatever the THC percentage
    and the sharer count, [0 <= doseFromEvent ev sharers <= weightGrams
    ev]. *)
Theorem doseFromEvent_bounded (ev : ConsumptionEvent) (sharers : option Q) :
  0 <= weightGrams ev ->
  0 <= doseFromEvent ev sharers <= weightGrams ev.
Proof.
  intros Hw. split; [apply doseFromEvent_nonneg; exact Hw|].
  unfold doseFromEvent. cbv zeta.
  pose proof (people_pos sharers) as Hp.
  pose proof (thcFrac_bounds (thcPercent ev)) as [F0 F1].
  set (f := Qmax 0 (Qmin (thcPercent ev) 100) / 100) in *.
  set (n := Qmax 1 (nullish sharers 1)) in *.
  apply Qle_shift_div_r; [lraQ|].
  assert (H1 : weightGrams ev * f <= weightGrams ev * 1).
  { rewrite !(Qmult_comm (weightGrams ev)).
    apply Qmult_le_compat_r; assumption. }
  assert (H2 : weightGrams ev * 1 <= weightGrams ev * n).
  { rewrite !(Qmult_comm (weightGrams ev)).
    apply Qmult_le_compat_r; assumption. }
  lraQ.
Qed.

(** X1 on an event of 1 g at 150 %, shared by nobody. *)
Lemma doseFromEvent_bounded_witness :
  0 <= doseFromEvent strongEvent None <= weightGrams strongEvent.
Proof. apply (doseFromEvent_bounded strongEvent None). discriminate. Defined.

Lemma doseFromEvent_people ev sh :
  doseFromEvent ev sh * Qmax 1 (nullish sh 1) == doseFromEvent ev None.
Proof.
  unfold doseFromEvent. cbv zeta.
  pose proof (people_nonzero sh) as Hn.
  set (b := weightGrams ev * (Qmax 0 (Qmin (thcPercent ev) 100) / 100)).
  change (Qmax 1 (nullish None 1)) with 1.
  field. exact Hn.
Qed.

Lemma computeSessionDose_Qsum s :
  computeSessionDose s
  == Qsum (map (fun e => doseFromEvent e (numPeopleSharing (social s)))
               (consumptions s)).
Proof. unfold computeSessionDose. rewrite fold_left_Qplus. ring. Qed.

Lemma Qsum_scale {A} (f g : A -> Q) (c : Q) (l : list A) :
  (forall x, f x * c == g x) ->
  Qsum (map f l) * c == Qsum (map g l).
Proof.
  intros H. induction l as [|x l IH]; simpl.
  - ring.
  - rewrite <- IH, <- H. ring.
Qed.

Lemma computeSessionDose_people (s : Session) (n : Q) :
  numPeopleSharing (social s) = Some n ->
  computeSessionDose s * Qmax 1 n
  == Qsum (map (fun e => doseFromEvent e None) (consumptions s)).
Proof.
  intros Hn. rewrite computeSessionDose_Qsum, Hn.
  apply Qsum_scale. intros e. apply (doseFromEvent_people e (Some n)).
Qed.

(** X2.  The sharer count is a divisor of the whole session: a session
    shared by [n >= 1] people has the dose of the same events taken alone
    divided by [n], and a sharer count below 1 changes nothing. *)
Theorem computeSessionDose_shared (s : Session) (n : Q) :
  numPeopleSharing (social s) = Some n ->
  (1 <= n ->
   computeSessionDose s
   == Qsum (map (fun e => doseFromEvent e None) (consumptions s)) / n)
  /\ (n <= 1 ->
      computeSessionDose s
      == Qsum (map (fun e => doseFromEvent e None) (consumptions s))).
Proof.
  intros Hn. pose proof (computeSessionDose_people s n Hn) as E.
  split; intros H.
  - rewrite <- E. rewrite Q.max_r by exact H. field. lraQ.
  - rewrite <- E. rewrite Q.max_l by exact H. ring.
Qed.

(** X2 on two events of 1 g at 20 % shared by two and by half a person. *)
Lemma computeSessionDose_shared_witness :
  computeSessionDose
    (plainSession "s_1" 0 None (Some 2) [joint 0 1 20; joint 60000 1 20])
  == Qsum (map (fun e => doseFromEvent e None)
               [joint 0 1 20; joint 60000 1 20]) / 2
  /\ computeSessionDose
       (plainSession "s_1" 0 None (Some (1 # 2))
                     [joint 0 1 20; joint 60000 1 20])
     == Qsum (map (fun e => doseFromEvent e None)
                  [joint 0 1 20; joint 60000 1 20]).
Proof.
  split.
  - apply (proj1 (computeSessionDose_shared
             (plainSession "s_1" 0 None (Some 2)
                           [joint 0 1 20; joint 60000 1 20]) 2 eq_refl)).
    discriminate.
  - apply (proj2 (computeSessionDose_shared
             (plainSession "s_1" 0 None (Some (1 # 2))
                           [joint 0 1 20; joint 60000 1 20]) (1 # 2) eq_refl)).
    discriminate.
Defined.

(* ================================================================= *)
(** ** Tolerance model: decay law and bounds *)

Lemma Rsum_scale {A} (f g : A -> R) (c : R) (l : list A) :
  (forall x, In x l -> g x = (f x * c)%R) ->
  Rsum (map g l) = (Rsum (map f l) * c)%R.
Proof.
  induction l as [|x l IH]; intros H; simpl.
  - ring.
  - rewrite (H x (or_introl eq_refl)), IH.
    + ring.
    + intros y Hy. apply H. right. exact Hy.
Qed.

Lemma decayedDose_later now d sh e :
  timestamp e <= now -> 0 <= d ->
  decayedDose (now + d) sh e
  = (decayedDose now sh e * exp (- lambda * Q2R d))%R.
Proof.
  intros Ht Hd. unfold decayedDose, lambda, halfLifeHours.
  apply Qle_Rle in Ht. apply Qle_Rle in Hd.
  rewrite RMicromega.Q2R_0 in Hd.
  rewrite Q2R_plus. rewrite !Rmax_right by lraR.
  set (x := Q2R (doseFromEvent e sh)).
  set (l := (ln 2 / (48 * 3600 * 1000))%R).
  transitivity
    (x * (exp (- l * (Q2R now - Q2R (timestamp e))) * exp (- l * Q2R d)))%R;
    [|ring].
  rewrite <- exp_plus. f_equal. f_equal. ring.
Qed.

Lemma exp_half_life : exp (- lambda * Q2R 172800000) = (/ 2)%R.
Proof.
  unfold lambda, halfLifeHours.
  replace (Q2R 172800000) with 172800000%R
    by (unfold Q2R; simpl; lraR).
  replace (- (ln 2 / (48 * 3600 * 1000)) * 172800000)%R with (- ln 2)%R
    by (field).
  rewrite exp_Ropp, exp_ln by lraR. reflexivity.
Qed.

(** X3.  Once every event is in the past the score before rounding decays
    exponentially as a whole: [d] milliseconds later it is the score now
    times [exp (- lambda * d)], and 48 hours (172800000 ms) later it is
    exactly half. *)
Theorem toleranceScore_half_life (sessions : list Session) (now d : Q) :
  (forall s e, In s sessions -> In e (consumptions s) -> timestamp e <= now) ->
  0 <= d ->
  toleranceScore (now + d) sessions
  = (toleranceScore now sessions * exp (- lambda * Q2R d))%R
  /\ toleranceScore (now + 172800000) sessions
     = (toleranceScore now sessions / 2)%R.
Proof.
  intros Hpast Hd.
  assert (G : forall d', 0 <= d' ->
            toleranceScore (now + d') sessions
            = (toleranceScore now sessions * exp (- lambda * Q2R d'))%R).
  { intros d' Hd'. rewrite !toleranceScore_decayedSum. unfold decayedSum.
    apply Rsum_scale. intros s Hs.
    apply Rsum_scale. intros e He.
    apply decayedDose_later; [apply (Hpast s e Hs He)|exact Hd']. }
  split; [apply G; exact Hd|].
  rewrite G by discriminate. rewrite exp_half_life. reflexivity.
Qed.

(** X3 on one event at time 0, one hour and 48 hours after it. *)
Lemma toleranceScore_half_life_witness :
  toleranceScore (0 + 3600000) oneJoint
  = (toleranceScore 0 oneJoint * exp (- lambda * Q2R 3600000))%R
  /\ toleranceScore (0 + 172800000) oneJoint
     = (toleranceScore 0 oneJoint / 2)%R.
Proof.
  apply (toleranceScore_half_life oneJoint 0 3600000).
  - intros s e [<-|[]] [<-|[]]. discriminate.
  - discriminate.
Defined.

Lemma Q2R_Qsum l : Q2R (Qsum l) = Rsum (map Q2R l).
Proof.
  induction l as [|x l IH]; simpl.
  - apply RMicromega.Q2R_0.
  - rewrite Q2R_plus, IH. reflexivity.
Qed.

Lemma Rsum_nonneg {A} (f : A -> R) l :
  (forall x, In x l -> (0 <= f x)%R) -> (0 <= Rsum (map f l))%R.
Proof.
  induction l as [|a l IH]; intros H; simpl.
  - lraR.
  - pose proof (H a (or_introl eq_refl)).
    pose proof (IH (fun x Hx => H x (or_intror Hx))). lraR.
Qed.

Lemma decayedDose_bounds now sh e :
  0 <= weightGrams e ->
  (0 <= decayedDose now sh e <= Q2R (doseFromEvent e sh))%R.
Proof.
  intros Hw. unfold decayedDose.
  pose proof (Qle_Rle _ _ (doseFromEvent_nonneg e sh Hw)) as H.
  rewrite RMicromega.Q2R_0 in H.
  pose proof lambda_bounds as [L0 _]. unfold lambda, halfLifeHours in L0.
  set (l := (ln 2 / (48 * 3600 * 1000))%R) in *.
  set (x := Rmax 0 (Q2R now - Q2R (timestamp e))).
  assert (Hx : (0 <= x)%R) by apply Rmax_l.
  assert (Hlx : (0 <= l * x)%R) by (apply Rmult_le_pos; lraR).
  pose proof (exp_neg_lower (l * x) Hlx) as [_ E1].
  pose proof (exp_pos (- (l * x))) as E0.
  replace (- l * x)%R with (- (l * x))%R by ring.
  split.
  - apply Rmult_le_pos; lraR.
  - rewrite <- (Rmult_1_r (Q2R (doseFromEvent e sh))) at 2.
    apply Rmult_le_compat_l; lraR.
Qed.

(** X4.  With non-negative weights the tolerance is never negative and
    never more than the undecayed total: at most the rounded sum of the
    session doses, whatever [now] is. *)
Theorem computeTolerance_bounded (now : Q) (sessions : list Session) :
  (forall s e, In s sessions -> In e (consumptions s) -> 0 <= weightGrams e) ->
  (0 <= computeTolerance now sessions
   <= IZR (Math_round (Q2R (Qsum (map computeSessionDose sessions)) * 1000))
      / 10)%R.
Proof.
  intros Hw. unfold computeTolerance. cbv zeta.
  rewrite toleranceScore_decayedSum.
  assert (H0 : (0 <= decayedSum now sessions)%R).
  { unfold decayedSum. apply Rsum_nonneg. intros s Hs.
    apply Rsum_nonneg. intros e He.
    apply decayedDose_bounds. apply (Hw s e Hs He). }
  assert (H1 : (decayedSum now sessions
                <= Q2R (Qsum (map computeSessionDose sessions)))%R).
  { unfold decayedSum. rewrite Q2R_Qsum, map_map.
    apply Rsum_le. intros s Hs.
    rewrite (Qeq_eqR _ _ (computeSessionDose_Qsum s)), Q2R_Qsum, map_map.
    apply Rsum_le. intros e He.
    apply decayedDose_bounds. apply (Hw s e Hs He). }
  split.
  - assert (Hr : (Math_round 0 <= Math_round (decayedSum now sessions * 1000))%Z)
      by (apply Math_round_le; lraR).
    rewrite (Math_round_unique 0 0) in Hr by lraR.
    apply IZR_le in Hr. lraR.
  - assert (Hr : (Math_round (decayedSum now sessions * 1000)
                  <= Math_round
                       (Q2R (Qsum (map computeSessionDose sessions)) * 1000))%Z)
      by (apply Math_round_le; lraR).
    apply IZR_le in Hr. lraR.
Qed.

(** X4 one hour after one event of 1 g at 20 %. *)
Lemma computeTolerance_bounded_witness :
  (0 <= computeTolerance 3600000 oneJoint
   <= IZR (Math_round (Q2R (Qsum (map computeSessionDose oneJoint)) * 1000))
      / 10)%R.
Proof.
  apply (computeTolerance_bounded 3600000 oneJoint).
  intros s e [<-|[]] [<-|[]]. discriminate.
Defined.

(* ================================================================= *)
(** ** Durations: what [formatDuration] rounds away *)

Lemma Qfloor_unique (x : Q) (z : Z) :
  inject_Z z <= x -> x < inject_Z (z + 1) -> Qfloor x = z.
Proof.
  intros H1 H2.
  pose proof (Qfloor_resp_le _ _ H1) as A. rewrite Qfloor_Z in A.
  pose proof (Qfloor_le x) as B.
  assert (C : inject_Z (Qfloor x) < inject_Z (z + 1)) by lraQ.
  rewrite <- Zlt_Qlt in C. lia.
Qed.

Lemma Qfloor_bounds (x : Q) :
  inject_Z (Qfloor x) <= x /\ x < inject_Z (Qfloor x + 1).
Proof. split; [apply Qfloor_le|apply Qlt_floor]. Qed.

(** The floor of a quotient by a positive integer is the quotient of the
    floor. *)
Lemma Qfloor_div (x : Q) (n : Z) :
  (0 < n)%Z -> Qfloor (x / inject_Z n) = (Qfloor x / n)%Z.
Proof.
  intros Hn. destruct (Qfloor_bounds x) as [B1 B2].
  assert (Hq : 0 < inject_Z n).
  { change 0 with (inject_Z 0). rewrite <- Zlt_Qlt. exact Hn. }
  pose proof (Z.mul_div_le (Qfloor x) n Hn) as D1.
  pose proof (Z.mul_succ_div_gt (Qfloor x) n Hn) as D2.
  set (z := (Qfloor x / n)%Z) in *.
  apply Qfloor_unique.
  - apply Qle_shift_div_l; [exact Hq|].
    rewrite <- inject_Z_mult. rewrite Zle_Qle in D1.
    rewrite (Z.mul_comm z n). lraQ.
  - apply Qlt_shift_div_r; [exact Hq|].
    rewrite <- inject_Z_mult.
    assert (E : (Qfloor x + 1 <= (z + 1) * n)%Z) by lia.
    rewrite Zle_Qle in E. lraQ.
Qed.

Lemma Qfloor_whole (k n : Z) :
  (0 < n)%Z -> Qfloor (inject_Z (n * k) / inject_Z n) = k.
Proof.
  intros Hn. rewrite Qfloor_div, Qfloor_Z by exact Hn.
  rewrite Z.mul_comm. apply Z.div_mul. lia.
Qed.

Lemma Qdiv_60000 (ms : Q) : ms / 60000 == ms / 1000 / inject_Z 60.
Proof. field. Qed.

Lemma durationText_hours h m s s' :
  (h <> 0)%Z -> durationText h m s = durationText h m s'.
Proof.
  intros Hh. unfold durationText.
  apply Z.eqb_neq in Hh. rewrite Hh. reflexivity.
Qed.

Lemma formatDuration_whole_seconds (ms : Q) :
  formatDuration ms
  = formatDuration (inject_Z (1000 * Qfloor (ms / 1000))).
Proof.
  rewrite (formatDuration_parts ms),
          (formatDuration_parts (inject_Z (1000 * Qfloor (ms / 1000)))).
  cbv zeta.
  change (inject_Z (1000 * Qfloor (ms / 1000)) / 1000)
    with (inject_Z (1000 * Qfloor (ms / 1000)) / inject_Z 1000).
  rewrite Qfloor_whole by lia. reflexivity.
Qed.

(** X5.  [formatDuration] shows whole seconds, rounded down, and from one
    hour on whole minutes only: [ms] is rendered as its whole seconds are,
    so anything from 0 to 999 ms is ["0m"], and a duration of at least
    3600000 ms is rendered as its whole minutes are. *)
Theorem formatDuration_rounds_down (ms : Q) :
  formatDuration ms
  = formatDuration (inject_Z (1000 * Qfloor (ms / 1000)))
  /\ (0 <= ms -> ms < 1000 -> formatDuration ms = "0m"%string)
  /\ (3600000 <= ms ->
      formatDuration ms
      = formatDuration (inject_Z (60000 * Qfloor (ms / 60000)))).
Proof.
  refine (conj (formatDuration_whole_seconds ms) (conj _ _)).
  - intros H0 H1. rewrite formatDuration_parts. cbv zeta.
    rewrite (Qfloor_unique (ms / 1000) 0).
    + reflexivity.
    + apply Qle_shift_div_l; unfold inject_Z; lraQ.
    + apply Qlt_shift_div_r; unfold inject_Z; simpl; lraQ.
  - intros H.
    rewrite (formatDuration_parts ms),
            (formatDuration_parts (inject_Z (60000 * Qfloor (ms / 60000)))).
    cbv zeta.
    rewrite (Qfloor_comp _ _ (Qdiv_60000 ms)), Qfloor_div by lia.
    set (total := Qfloor (ms / 1000)).
    assert (Ht : (3600 <= total)%Z).
    { assert (E : inject_Z 3600 <= ms / 1000)
        by (apply Qle_shift_div_l; unfold inject_Z; lraQ).
      apply Qfloor_resp_le in E. rewrite Qfloor_Z in E. exact E. }
    replace (60000 * (total / 60))%Z with (1000 * (60 * (total / 60)))%Z
      by lia.
    change (inject_Z (1000 * (60 * (total / 60))) / 1000)
      with (inject_Z (1000 * (60 * (total / 60))) / inject_Z 1000).
    rewrite Qfloor_whole by lia.
    assert (Hh : (total / 3600 <> 0)%Z).
    { pose proof (Z.div_le_mono 3600 total 3600 ltac:(lia) Ht) as D.
      rewrite Z.div_same in D by lia. lia. }
    assert (E : (60 * (total / 60) / 3600 = total / 3600
                 /\ Z.rem (60 * (total / 60)) 3600 / 60
                    = Z.rem total 3600 / 60)%Z).
    { assert (Hq : (0 <= total / 60)%Z) by (apply Z.div_pos; lia).
      rewrite !Z.rem_mod_nonneg by lia.
      pose proof (Z.div_mod total 60 ltac:(lia)) as M.
      pose proof (Z.mod_pos_bound total 60 ltac:(lia)) as B.
      set (q := (total / 60)%Z) in *. set (r := (total mod 60)%Z) in *.
      pose proof (Z.div_mod q 60 ltac:(lia)) as M'.
      pose proof (Z.mod_pos_bound q 60 ltac:(lia)) as B'.
      set (q' := (q / 60)%Z) in *. set (r' := (q mod 60)%Z) in *.
      assert (K1 : ((60 * q) / 3600 = q')%Z).
      { symmetry. apply (Z.div_unique_pos _ _ _ (60 * r')); lia. }
      assert (K2 : (total / 3600 = q')%Z).
      { symmetry. apply (Z.div_unique_pos _ _ _ (60 * r' + r)); lia. }
      assert (K3 : ((60 * q) mod 3600 = 60 * r')%Z).
      { symmetry. apply (Z.mod_unique_pos _ _ q'); lia. }
      assert (K4 : (total mod 3600 = 60 * r' + r)%Z).
      { symmetry. apply (Z.mod_unique_pos _ _ q'); lia. }
      rewrite K1, K2, K3, K4. split; [reflexivity|].
      rewrite (Z.mul_comm 60 r'), Z.div_mul by lia.
      apply (Z.div_unique_pos _ _ _ r); lia. }
    destruct E as [E1 E2].
    rewrite E1, E2. apply durationText_hours. exact Hh.
Qed.

(** X5 at half a second and at 1 h 1 min 1 s. *)
Lemma formatDuration_rounds_down_witness :
  formatDuration (1 # 2) = "0m"%string
  /\ formatDuration 3661000
     = formatDuration (inject_Z (60000 * Qfloor (3661000 / 60000))).
Proof.
  split.
  - apply (proj1 (proj2 (formatDuration_rounds_down (1 # 2))));
      reflexivity || discriminate.
  - apply (proj2 (proj2 (formatDuration_rounds_down 3661000))). discriminate.
Defined.

Lemma Number_toString_neg p :
  Number_toString (Z.neg p)
  = String "-" (NilZero.string_of_uint (Pos.to_uint p)).
Proof. reflexivity. Qed.

(** X6.  A negative duration is rendered with a negative hour count: the
    hours are the floor of a negative quotient, at most -1, so the text
    starts with a minus sign and shows no seconds; any duration from -1 ms
    down to -60000 ms is ["-1h -1m"]. *)
Theorem formatDuration_negative (ms : Q) :
  ms < 0 ->
  let total := Qfloor (ms / 1000) in
  (total / 3600 <= -1)%Z
  /\ formatDuration ms
     = durationText (total / 3600) (Z.rem total 3600 / 60) 0
  /\ (exists rest, formatDuration ms = String "-" rest)
  /\ (-60000 <= ms -> formatDuration ms = "-1h -1m"%string).
Proof.
  intros Hneg total.
  assert (Ht : (total <= -1)%Z).
  { assert (E : ms / 1000 < inject_Z 0)
      by (apply Qlt_shift_div_r; unfold inject_Z; lraQ).
    pose proof (Qfloor_le (ms / 1000)) as F. fold total in F.
    assert (C : inject_Z total < inject_Z 0) by lraQ.
    rewrite <- Zlt_Qlt in C. lia. }
  assert (Hh : (total / 3600 <= -1)%Z).
  { pose proof (Z.div_le_mono total (-1) 3600 ltac:(lia) Ht) as D.
    exact D. }
  assert (Hne : (total / 3600 <> 0)%Z) by lia.
  split; [exact Hh|].
  assert (E : formatDuration ms
              = durationText (total / 3600) (Z.rem total 3600 / 60) 0).
  { rewrite formatDuration_parts. fold total. cbv zeta.
    apply durationText_hours. exact Hne. }
  split; [exact E|]. split.
  - rewrite E. unfold durationText.
    apply Z.eqb_neq in Hne. rewrite Hne.
    destruct (total / 3600)%Z as [|p|p] eqn:Ep; try lia.
    rewrite Number_toString_neg.
    destruct (Z.rem total 3600 / 60 =? 0)%Z; simpl; eexists; reflexivity.
  - intros Hlo. rewrite E.
    assert (Hlo' : (-60 <= total)%Z).
    { assert (E' : inject_Z (-60) <= ms / 1000)
        by (apply Qle_shift_div_l; unfold inject_Z; lraQ).
      apply Qfloor_resp_le in E'. rewrite Qfloor_Z in E'. exact E'. }
    assert (H1 : (total / 3600 = -1)%Z).
    { symmetry. apply (Z.div_unique_pos _ _ _ (total + 3600)); lia. }
    assert (H2 : (Z.rem total 3600 / 60 = -1)%Z).
    { assert (R : Z.rem total 3600 = total)
        by (apply Z.rem_small_iff; lia).
      rewrite R. symmetry. apply (Z.div_unique_pos _ _ _ (total + 60)); lia. }
    rewrite H1, H2. reflexivity.
Qed.

(** X6 at -1500 ms. *)
Lemma formatDuration_negative_witness :
  formatDuration (-1500) = "-1h -1m"%string.
Proof.
  apply (proj2 (proj2 (proj2
           (formatDuration_negative (-1500) ltac:(reflexivity))))).
  discriminate.
Defined.

(* ================================================================= *)
(** ** Durations below one hour are told apart *)

Lemma readSeconds_secondsText :
  forallb (fun n => (readSeconds 0 0 (secondsText n) =? n)%Z) secondsOfHour
  = true.
Proof. vm_compute. reflexivity. Qed.

Lemma secondsOfHour_In n : (0 <= n < 3600)%Z -> In n secondsOfHour.
Proof.
  intros H. unfold secondsOfHour. apply in_map_iff.
  exists (Z.to_nat n). split; [lia|]. apply in_seq. lia.
Qed.

(** X7.  Below one hour the text tells the whole seconds: two durations
    from 0 to under 3600000 ms are rendered alike only when they have the
    same number of whole seconds. *)
Theorem formatDuration_injective (ms1 ms2 : Q) :
  0 <= ms1 -> ms1 < 3600000 -> 0 <= ms2 -> ms2 < 3600000 ->
  formatDuration ms1 = formatDuration ms2 ->
  Qfloor (ms1 / 1000) = Qfloor (ms2 / 1000).
Proof.
  intros L1 U1 L2 U2 E.
  assert (B : forall ms, 0 <= ms -> ms < 3600000 ->
              (0 <= Qfloor (ms / 1000) < 3600)%Z).
  { intros ms L U. split.
    - apply Qfloor_nonneg. apply Qle_shift_div_l; lraQ.
    - assert (H : ms / 1000 < inject_Z 3600)
        by (apply Qlt_shift_div_r; unfold inject_Z; lraQ).
      pose proof (Qfloor_le (ms / 1000)) as F.
      assert (C : inject_Z (Qfloor (ms / 1000)) < inject_Z 3600) by lraQ.
      rewrite <- Zlt_Qlt in C. exact C. }
  pose proof (formatDuration_whole_seconds ms1) as R1.
  pose proof (formatDuration_whole_seconds ms2) as R2.
  set (a := Qfloor (ms1 / 1000)) in *. set (b := Qfloor (ms2 / 1000)) in *.
  pose proof readSeconds_secondsText as D.
  rewrite forallb_forall in D.
  pose proof (D a (secondsOfHour_In a (B ms1 L1 U1))) as Da.
  pose proof (D b (secondsOfHour_In b (B ms2 L2 U2))) as Db.
  apply Z.eqb_eq in Da. apply Z.eqb_eq in Db.
  unfold secondsText in Da, Db. rewrite <- Da, <- Db. congruence.
Qed.

(** X7 at 90 s and 90.5 s. *)
Lemma formatDuration_injective_witness :
  Qfloor (90000 / 1000) = Qfloor (90500 / 1000).
Proof.
  apply (formatDuration_injective 90000 90500);
    [discriminate|reflexivity|discriminate|reflexivity|reflexivity].
Defined.

(* ================================================================= *)
(** ** The session list in start order *)

Lemma byTimeAsc_le a b :
  Qle_bool (byTimeAsc a b) 0 = true <-> startTime a <= startTime b.
Proof.
  unfold byTimeAsc. rewrite Qle_bool_iff. split; intros H; lraQ.
Qed.

Lemma byTimeAsc_gt a b :
  Qle_bool (byTimeAsc a b) 0 = false -> startTime b < startTime a.
Proof.
  intros H. destruct (Qlt_le_dec (startTime b) (startTime a)) as [L|L];
    [exact L|].
  apply byTimeAsc_le in L. congruence.
Qed.

Lemma sort_insert_perm x l :
  Permutation (x :: l) (sort_insert byTimeAsc x l).
Proof.
  induction l as [|y r IH]; simpl; [apply Permutation_refl|].
  destruct (Qle_bool (byTimeAsc x y) 0); [apply Permutation_refl|].
  eapply perm_trans; [apply perm_swap|]. apply perm_skip. exact IH.
Qed.

Lemma sort_insert_sorted x l :
  StronglySorted byStart l ->
  StronglySorted byStart (sort_insert byTimeAsc x l).
Proof.
  induction l as [|y r IH]; intros Hs; simpl.
  - constructor; constructor.
  - destruct (Qle_bool (byTimeAsc x y) 0) eqn:E.
    + apply byTimeAsc_le in E. constructor; [exact Hs|].
      apply StronglySorted_inv in Hs. destruct Hs as [_ Hy].
      constructor; [exact E|].
      rewrite Forall_forall in *. intros z Hz.
      unfold byStart in *. pose proof (Hy z Hz). lraQ.
    + apply byTimeAsc_gt in E.
      apply StronglySorted_inv in Hs. destruct Hs as [Hr Hy].
      constructor; [apply IH; exact Hr|].
      rewrite Forall_forall in *. intros z Hz.
      apply (Permutation_in _ (Permutation_sym (sort_insert_perm x r))) in Hz.
      destruct Hz as [<-|Hz].
      * unfold byStart. lraQ.
      * apply Hy. exact Hz.
Qed.

Lemma sort_insert_stable t x l :
  startingAt t (sort_insert byTimeAsc x l) = startingAt t (x :: l).
Proof.
  unfold startingAt.
  induction l as [|y r IH]; simpl; [reflexivity|].
  destruct (Qle_bool (byTimeAsc x y) 0) eqn:E; [reflexivity|].
  apply byTimeAsc_gt in E. simpl. rewrite IH. simpl.
  destruct (Qeq_bool (startTime x) t) eqn:Ex,
           (Qeq_bool (startTime y) t) eqn:Ey; try reflexivity.
  apply Qeq_bool_iff in Ex. apply Qeq_bool_iff in Ey. lraQ.
Qed.

Lemma sort_insert_head x l :
  Forall (byStart x) l -> sort_insert byTimeAsc x l = x :: l.
Proof.
  intros H. destruct l as [|y r]; [reflexivity|]. simpl.
  apply Forall_inv in H. apply byTimeAsc_le in H. rewrite H. reflexivity.
Qed.

Lemma Array_sort_perm l : Permutation l (Array_sort byTimeAsc l).
Proof.
  induction l as [|x l IH]; simpl; [constructor|].
  eapply perm_trans; [|apply sort_insert_perm].
  apply perm_skip. exact IH.
Qed.

Lemma Array_sort_sorted l : StronglySorted byStart (Array_sort byTimeAsc l).
Proof.
  induction l as [|x l IH]; simpl; [constructor|].
  apply sort_insert_sorted. exact IH.
Qed.

Lemma Array_sort_stable t l :
  startingAt t (Array_sort byTimeAsc l) = startingAt t l.
Proof.
  induction l as [|x l IH]; simpl; [reflexivity|].
  rewrite sort_insert_stable. unfold startingAt in *. simpl.
  rewrite IH. reflexivity.
Qed.

Lemma Array_sort_id l :
  StronglySorted byStart l -> Array_sort byTimeAsc l = l.
Proof.
  induction l as [|x l IH]; intros H; simpl; [reflexivity|].
  apply StronglySorted_inv in H. destruct H as [Hl Hx].
  rewrite (IH Hl). apply sort_insert_head. exact Hx.
Qed.

(** X8.  The list the views work on, [sorted], is the session list in
    ascending order of start time: every session of the list is in it
    exactly as often, no session comes after one that starts later, and
    the sessions that start at the same time keep the order they had.  A
    list already in order is left as it is. *)
Theorem sorted_by_startTime (sessions : list Session) :
  StronglySorted byStart (App.sorted sessions)
  /\ Permutation sessions (App.sorted sessions)
  /\ (forall t, startingAt t (App.sorted sessions) = startingAt t sessions)
  /\ (StronglySorted byStart sessions -> App.sorted sessions = sessions).
Proof.
  unfold App.sorted.
  refine (conj _ (conj _ (conj _ _))).
  - apply Array_sort_sorted.
  - apply Array_sort_perm.
  - intros t. apply Array_sort_stable.
  - apply Array_sort_id.
Qed.

(** X8 on two sessions already in order. *)
Lemma sorted_by_startTime_witness : App.sorted hourApart = hourApart.
Proof.
  apply (proj2 (proj2 (proj2 (sorted_by_startTime hourApart)))).
  repeat constructor; discriminate.
Defined.

(* ================================================================= *)
(** ** Starting a session *)

Lemma orNum_pos x : 0 < x -> orNum x 0 = x.
Proof.
  intros H. unfold orNum. destruct (Qeq_bool x 0) eqn:E; [|reflexivity].
  apply Qeq_bool_iff in E. lraQ.
Qed.

Lemma gtNum_true x y : gtNum x y = true <-> y < x.
Proof.
  unfold gtNum. rewrite negb_true_iff.
  destruct (Qle_bool x y) eqn:E.
  - apply Qle_bool_iff in E. split; [discriminate|]. intros H. lraQ.
  - split; [|reflexivity]. intros _.
    destruct (Qlt_le_dec y x) as [L|L]; [exact L|].
    apply Qle_bool_iff in L. congruence.
Qed.

Lemma startSession_created newId form now hours now' sessions :
  App.startSession newId form now hours now' sessions
  = Array_sort byTimeAsc (sessions ++ [created newId form now hours now']).
Proof.
  unfold App.startSession, created. cbv zeta. f_equal. f_equal. f_equal.
  destruct (Qlt_le_dec 0 (Form.weightGrams form)) as [H|H].
  - unfold App.formEvent at 1. cbn [Types.weightGrams].
    rewrite (orNum_pos _ H).
    rewrite (proj2 (gtNum_true _ _) H). reflexivity.
  - destruct (gtNum _ 0) eqn:E; [|reflexivity].
    apply gtNum_true in E. unfold App.formEvent in E.
    cbn [Types.weightGrams] in E. unfold orNum in E.
    destruct (Qeq_bool (Form.weightGrams form) 0); lraQ.
Qed.

(** X9.  [startSession] adds exactly one session and leaves the list in
    start order.  The new session has the given id and start time, is
    active and has no end time; it holds one event, with the weight, THC
    percentage and method of the form, when the weight entered is
    positive, and no event otherwise.  The list that results holds the
    new session and the sessions there were, and is in ascending order of
    start time whatever order it had. *)
Theorem startSession_adds_one
        (newId : string) (form : Form.t) (now : Q) (hours : Z) (now' : Q)
        (sessions : list Session) :
  let s := created newId form now hours now' in
  let result := App.startSession newId form now hours now' sessions in
  Permutation (s :: sessions) result
  /\ StronglySorted byStart result
  /\ List.length result = S (List.length sessions)
  /\ id s = newId /\ startTime s = now /\ active s = true
  /\ endTime s = None
  /\ (0 < Form.weightGrams form ->
      consumptions s
      = [{| timestamp := now'; weightGrams := Form.weightGrams form;
            thcPercent := orNum (Form.thcPercent form) 0;
            method := Form.method form; eventNotes := None |}])
  /\ (Form.weightGrams form <= 0 ->
      consumptions s = [] /\ computeSessionDose s = 0).
Proof.
  intros s result.
  assert (P : Permutation (s :: sessions) result).
  { unfold result. rewrite startSession_created. fold s.
    eapply perm_trans; [|apply Array_sort_perm].
    apply Permutation_cons_append. }
  refine (conj P (conj _ (conj _ _))).
  - unfold result. rewrite startSession_created. apply Array_sort_sorted.
  - rewrite <- (Permutation_length P). reflexivity.
  - refine (conj eq_refl (conj eq_refl (conj eq_refl (conj eq_refl _)))).
    unfold s, created. cbn [consumptions App.with_consumptions].
    split; intros H.
    + destruct (Qlt_le_dec 0 (Form.weightGrams form)) as [L|L]; [|lraQ].
      unfold App.formEvent. rewrite (orNum_pos _ L). reflexivity.
    + destruct (Qlt_le_dec 0 (Form.weightGrams form)) as [L|L]; [lraQ|].
      split; reflexivity.
Qed.

(** X9 with the sample form (1 g) and with no weight entered. *)
Lemma startSession_adds_one_witness :
  consumptions (created "s_9" sampleForm 7200000 9 7200001)
  = [{| timestamp := 7200001; weightGrams := 1; thcPercent := 20;
        method := "Joint"; eventNotes := None |}]
  /\ consumptions (created "s_9" blankForm 7200000 9 7200001) = [].
Proof.
  pose proof (startSession_adds_one "s_9" sampleForm 7200000 9 7200001 [])
    as H1.
  pose proof (startSession_adds_one "s_9" blankForm 7200000 9 7200001 [])
    as H2.
  cbv zeta in H1, H2.
  destruct H1 as (_ & _ & _ & _ & _ & _ & _ & H1 & _).
  destruct H2 as (_ & _ & _ & _ & _ & _ & _ & _ & H2).
  split.
  - apply H1. reflexivity.
  - apply H2. discriminate.
Defined.

Lemma sorted_app_last l x :
  StronglySorted byStart l ->
  (forall s, In s l -> startTime s <= startTime x) ->
  StronglySorted byStart (l ++ [x]).
Proof.
  induction l as [|y r IH]; intros Hs Hx; simpl.
  - constructor; constructor.
  - apply StronglySorted_inv in Hs. destruct Hs as [Hr Hy].
    constructor.
    + apply IH; [exact Hr|]. intros s Hin. apply Hx. right. exact Hin.
    + apply Forall_app. split; [exact Hy|].
      constructor; [|constructor]. apply Hx. left. reflexivity.
Qed.

(** X10.  With a clock that does not run backwards a new session goes to
    the end: when the list is in start order and no session starts after
    [now], [startSession] returns the list followed by the new session,
    also when another session starts at the same time. *)
Theorem startSession_appends
        (newId : string) (form : Form.t) (now : Q) (hours : Z) (now' : Q)
        (sessions : list Session) :
  StronglySorted byStart sessions ->
  (forall s, In s sessions -> startTime s <= now) ->
  App.startSession newId form now hours now' sessions
  = sessions ++ [created newId form now hours now'].
Proof.
  intros Hs Hnow. rewrite startSession_created.
  apply Array_sort_id. apply sorted_app_last; assumption.
Qed.

(** X10 on a session started at the very time the last one started. *)
Lemma startSession_appends_witness :
  App.startSession "s_9" sampleForm 3601000 9 3601000 hourApart
  = hourApart ++ [created "s_9" sampleForm 3601000 9 3601000].
Proof.
  apply (startSession_appends "s_9" sampleForm 3601000 9 3601000 hourApart).
  - repeat constructor; discriminate.
  - intros s [<-|[<-|[]]]; discriminate.
Defined.

(* ================================================================= *)
(** ** What the handlers keep *)

Lemma identity_map (g : Session -> Session) l :
  (forall s, id (g s) = id s /\ startTime (g s) = startTime s) ->
  identity (map g l) = identity l.
Proof.
  intros H. unfold identity. rewrite map_map. apply map_ext.
  intros s. destruct (H s) as [-> ->]. reflexivity.
Qed.

Lemma sorted_identity l l' :
  identity l' = identity l ->
  StronglySorted byStart l -> StronglySorted byStart l'.
Proof.
  revert l'. induction l as [|x l IH]; intros [|x' l'] E Hs;
    try discriminate E; [constructor|].
  unfold identity in E. simpl in E. injection E as _ Ex El.
  apply StronglySorted_inv in Hs. destruct Hs as [Hl Hx].
  constructor; [apply IH; assumption|].
  clear IH Hl. revert l' El. unfold byStart in *.
  induction l as [|y l IH]; intros [|y' l'] El; try discriminate El;
    [constructor|].
  simpl in El. injection El as _ Ey El.
  apply Forall_cons_iff in Hx. destruct Hx as [Hy Hx].
  constructor; [rewrite Ex, Ey; exact Hy|]. apply IH; assumption.
Qed.

(** X11.  No handler that edits a session touches its id or its start
    time, and none adds, drops or reorders sessions: after
    [addConsumption], [updateContext], [endSession], [resumeSession] and
    the geolocation callback the list has the same ids and start times in
    the same places, so a list in start order stays in start order. *)
Theorem handlers_keep_identity
        (form : Form.t) (now latitude longitude : Q) (s : Session)
        (sessions : list Session) :
  identity (App.addConsumption form now sessions) = identity sessions
  /\ identity (App.updateContext form sessions) = identity sessions
  /\ identity (App.endSession now sessions) = identity sessions
  /\ identity (App.resumeSession s sessions) = identity sessions
  /\ identity (App.onGeo latitude longitude sessions) = identity sessions
  /\ (StronglySorted byStart sessions ->
      StronglySorted byStart (App.addConsumption form now sessions)
      /\ StronglySorted byStart (App.updateContext form sessions)
      /\ StronglySorted byStart (App.endSession now sessions)
      /\ StronglySorted byStart (App.resumeSession s sessions)
      /\ StronglySorted byStart (App.onGeo latitude longitude sessions)).
Proof.
  assert (A : identity (App.addConsumption form now sessions)
              = identity sessions).
  { unfold App.addConsumption. destruct (App.findActive sessions) as [a|];
      [|reflexivity].
    apply identity_map. intros x. destruct (String.eqb _ _); split; reflexivity. }
  assert (B : identity (App.updateContext form sessions) = identity sessions).
  { unfold App.updateContext. destruct (App.findActive sessions) as [a|];
      [|reflexivity].
    apply identity_map. intros x. destruct (String.eqb _ _); split; reflexivity. }
  assert (C : identity (App.endSession now sessions) = identity sessions).
  { unfold App.endSession. destruct (App.findActive sessions) as [a|];
      [|reflexivity].
    apply identity_map. intros x. destruct (String.eqb _ _); split; reflexivity. }
  assert (D : identity (App.resumeSession s sessions) = identity sessions).
  { apply identity_map. intros x. destruct (String.eqb _ _); split; reflexivity. }
  assert (E : identity (App.onGeo latitude longitude sessions)
              = identity sessions).
  { apply identity_map. intros x. destruct (active x); split; reflexivity. }
  refine (conj A (conj B (conj C (conj D (conj E _))))).
  intros Hs.
  refine (conj _ (conj _ (conj _ (conj _ _))));
    eapply sorted_identity; eauto.
Qed.

(** X11 on the two sessions one hour apart. *)
Lemma handlers_keep_identity_witness :
  StronglySorted byStart (App.addConsumption sampleForm 5 running)
  /\ StronglySorted byStart (App.updateContext sampleForm running)
  /\ StronglySorted byStart (App.endSession 5 running)
  /\ StronglySorted byStart (App.resumeSession richSession running)
  /\ StronglySorted byStart (App.onGeo 1 2 running).
Proof.
  apply (handlers_keep_identity sampleForm 5 1 2 richSession running).
  repeat constructor; discriminate.
Defined.

Lemma toleranceScore_map (g : Session -> Session) t l :
  (forall s, consumptions (g s) = consumptions s
             /\ social (g s) = social s) ->
  toleranceScore t (map g l) = toleranceScore t l.
Proof.
  intros H. rewrite !toleranceScore_decayedSum. unfold decayedSum.
  rewrite map_map. f_equal. apply map_ext. intros s.
  destruct (H s) as [-> ->]. reflexivity.
Qed.

Lemma computeSessionDose_map (g : Session -> Session) l :
  (forall s, consumptions (g s) = consumptions s
             /\ social (g s) = social s) ->
  map computeSessionDose (map g l) = map computeSessionDose l.
Proof.
  intros H. rewrite map_map. apply map_ext. intros s.
  unfold computeSessionDose. destruct (H s) as [-> ->]. reflexivity.
Qed.

(** X12.  Ending a session, resuming one and attaching a location change
    no recorded dose: the dose of every session and the tolerance at any
    time are what they were. *)
Theorem doses_untouched
        (t now latitude longitude : Q) (s : Session)
        (sessions : list Session) :
  (map computeSessionDose (App.endSession now sessions)
   = map computeSessionDose sessions
   /\ computeTolerance t (App.endSession now sessions)
      = computeTolerance t sessions)
  /\ (map computeSessionDose (App.resumeSession s sessions)
      = map computeSessionDose sessions
      /\ computeTolerance t (App.resumeSession s sessions)
         = computeTolerance t sessions)
  /\ (map computeSessionDose (App.onGeo latitude longitude sessions)
      = map computeSessionDose sessions
      /\ computeTolerance t (App.onGeo latitude longitude sessions)
         = computeTolerance t sessions).
Proof.
  unfold computeTolerance. cbv zeta.
  refine (conj _ (conj _ _)).
  - unfold App.endSession. destruct (App.findActive sessions) as [a|];
      [|split; reflexivity].
    rewrite toleranceScore_map, computeSessionDose_map;
      [split; reflexivity| |];
      intros x; destruct (String.eqb _ _); split; reflexivity.
  - unfold App.resumeSession.
    rewrite toleranceScore_map, computeSessionDose_map;
      [split; reflexivity| |];
      intros x; destruct (String.eqb _ _); split; reflexivity.
  - unfold App.onGeo.
    rewrite toleranceScore_map, computeSessionDose_map;
      [split; reflexivity| |];
      intros x; destruct (active x); split; reflexivity.
Qed.

(* ================================================================= *)
(** ** The active session *)

Lemma findActive_split sessions a :
  App.findActive sessions = Some a ->
  exists l1 l2, sessions = l1 ++ a :: l2
                /\ App.findActive l1 = None /\ active a = true.
Proof.
  unfold App.findActive.
  induction sessions as [|x l IH]; simpl; [discriminate|].
  destruct (active x) eqn:E.
  - intros H. injection H as <-. exists [], l. auto.
  - intros H. destruct (IH H) as (l1 & l2 & -> & H1 & H2).
    exists (x :: l1), l2. simpl. rewrite E. auto.
Qed.

Lemma findActive_app l1 l2 :
  App.findActive l1 = None ->
  App.findActive (l1 ++ l2) = App.findActive l2.
Proof.
  unfold App.findActive. induction l1 as [|x l IH]; simpl; [reflexivity|].
  destruct (active x); [discriminate|]. exact IH.
Qed.

Lemma map_other (g : Session -> Session) (i : string) l :
  ~ In i (map id l) ->
  map (fun s => if String.eqb (id s) i then g s else s) l = l.
Proof.
  induction l as [|x l IH]; intros H; simpl; [reflexivity|].
  simpl in H. destruct (String.eqb_spec (id x) i) as [E|E].
  - exfalso. apply H. left. exact E.
  - rewrite IH; [reflexivity|]. intros Hin. apply H. right. exact Hin.
Qed.

(** With distinct ids the update of the session of id [id a] changes [a]
    and nothing else. *)
Lemma map_update (g : Session -> Session) l1 a l2 :
  NoDup (map id (l1 ++ a :: l2)) ->
  map (fun s => if String.eqb (id s) (id a) then g s else s)
      (l1 ++ a :: l2)
  = l1 ++ g a :: l2.
Proof.
  intros H. rewrite map_app in H. simpl in H.
  pose proof (NoDup_remove_2 _ _ _ H) as Hn.
  rewrite map_app. simpl. rewrite String.eqb_refl.
  rewrite !map_other; [reflexivity| |];
    intros Hin; apply Hn; apply in_or_app; auto.
Qed.

Lemma toleranceScore_app t l1 l2 :
  toleranceScore t (l1 ++ l2)
  = (toleranceScore t l1 + toleranceScore t l2)%R.
Proof.
  rewrite !toleranceScore_decayedSum. unfold decayedSum.
  rewrite map_app. generalize (map (fun s =>
    Rsum (map (decayedDose t (numPeopleSharing (social s)))
              (consumptions s))) l2).
  intros r2. induction (map _ l1) as [|x r1 IH]; simpl.
  - ring.
  - unfold Rsum in *. rewrite IH. ring.
Qed.

Lemma Rsum_app l1 l2 : Rsum (l1 ++ l2) = (Rsum l1 + Rsum l2)%R.
Proof.
  induction l1 as [|x l1 IH]; simpl.
  - ring.
  - rewrite IH. ring.
Qed.

Lemma decayedDose_now sh e :
  decayedDose (timestamp e) sh e = Q2R (doseFromEvent e sh).
Proof.
  unfold decayedDose. rewrite Rmax_left by lraR.
  rewrite Rmult_0_r, exp_0. ring.
Qed.

(** X13.  With distinct ids and an active session, [addConsumption]
    appends one event, stamped [now], to the first active session and
    changes nothing else.  The dose of that session grows by the dose of
    the event for the session's sharer count, and the score before
    rounding, taken at [now], grows by the same amount. *)
Theorem addConsumption_appends
        (form : Form.t) (now : Q) (sessions : list Session) (a : Session) :
  NoDup (map id sessions) ->
  App.findActive sessions = Some a ->
  let ev := App.formEvent form now in
  let a' := App.with_consumptions a (consumptions a ++ [ev]) in
  (exists l1 l2,
      sessions = l1 ++ a :: l2
      /\ App.addConsumption form now sessions = l1 ++ a' :: l2)
  /\ computeSessionDose a'
     == computeSessionDose a + doseFromEvent ev (numPeopleSharing (social a))
  /\ toleranceScore now (App.addConsumption form now sessions)
     = (toleranceScore now sessions
        + Q2R (doseFromEvent ev (numPeopleSharing (social a))))%R.
Proof.
  intros Hnd Ha ev a'.
  destruct (findActive_split _ _ Ha) as (l1 & l2 & E & _ & _).
  assert (R : App.addConsumption form now sessions = l1 ++ a' :: l2).
  { unfold App.addConsumption. rewrite Ha. cbv zeta. subst sessions.
    apply (map_update
             (fun s => App.with_consumptions s
                         (consumptions s ++ [App.formEvent form now]))).
    exact Hnd. }
  refine (conj _ (conj _ _)).
  - exists l1, l2. split; assumption.
  - rewrite !computeSessionDose_Qsum. unfold a'.
    cbn [consumptions social App.with_consumptions].
    rewrite map_app, Qsum_app. simpl. ring.
  - rewrite R, E.
    rewrite !toleranceScore_app.
    change (a' :: l2) with ([a'] ++ l2). change (a :: l2) with ([a] ++ l2).
    rewrite !toleranceScore_app.
    assert (S1 : toleranceScore now [a']
                 = (toleranceScore now [a]
                    + Q2R (doseFromEvent ev (numPeopleSharing (social a))))%R).
    { rewrite !toleranceScore_decayedSum. unfold decayedSum, a'.
      cbn [map consumptions social App.with_consumptions].
      rewrite map_app, Rsum_app. cbn [map].
      pose proof (decayedDose_now (numPeopleSharing (social a)) ev) as D.
      change (timestamp ev) with now in D. rewrite D.
      unfold Rsum. cbn [fold_right]. ring. }
    rewrite S1. ring.
Qed.

(** X13 on a running session after a finished one. *)
Lemma addConsumption_appends_witness :
  (exists l1 l2,
      running = l1 ++ nth 1 running richSession :: l2
      /\ App.addConsumption sampleForm 3660000 running
         = l1 ++ App.with_consumptions (nth 1 running richSession)
                   (consumptions (nth 1 running richSession)
                    ++ [App.formEvent sampleForm 3660000]) :: l2)
  /\ computeSessionDose
       (App.with_consumptions (nth 1 running richSession)
          (consumptions (nth 1 running richSession)
           ++ [App.formEvent sampleForm 3660000]))
     == computeSessionDose (nth 1 running richSession)
        + doseFromEvent (App.formEvent sampleForm 3660000)
            (numPeopleSharing (social (nth 1 running richSession)))
  /\ toleranceScore 3660000 (App.addConsumption sampleForm 3660000 running)
     = (toleranceScore 3660000 running
        + Q2R (doseFromEvent (App.formEvent sampleForm 3660000)
                 (numPeopleSharing (social (nth 1 running richSession)))))%R.
Proof.
  apply (addConsumption_appends sampleForm 3660000 running
           (nth 1 running richSession)).
  - repeat constructor; simpl; intuition discriminate.
  - reflexivity.
Defined.

(** X14.  With distinct ids, [endSession] ends the first active session of
    the list and only that one: it becomes inactive with end time [now],
    every other session is as it was, and the session the handlers act on
    next is the first active session after it, if there is one.  When the
    session was the only active one, none is active afterwards. *)
Theorem endSession_ends_first
        (now : Q) (sessions : list Session) (a : Session) :
  NoDup (map id sessions) ->
  App.findActive sessions = Some a ->
  exists l1 l2,
    sessions = l1 ++ a :: l2
    /\ App.endSession now sessions
       = l1 ++ App.with_active_endTime a false (Some now) :: l2
    /\ App.findActive (App.endSession now sessions) = App.findActive l2
    /\ ((forall s, In s l2 -> active s = false) ->
        forall s, In s (App.endSession now sessions) -> active s = false).
Proof.
  intros Hnd Ha.
  destruct (findActive_split _ _ Ha) as (l1 & l2 & E & H1 & _).
  exists l1, l2.
  assert (R : App.endSession now sessions
              = l1 ++ App.with_active_endTime a false (Some now) :: l2).
  { unfold App.endSession. rewrite Ha. subst sessions.
    apply (map_update (fun s => App.with_active_endTime s false (Some now))).
    exact Hnd. }
  refine (conj E (conj R (conj _ _))).
  - rewrite R, (findActive_app _ _ H1). reflexivity.
  - intros H2 s. rewrite R. intros Hin.
    apply in_app_or in Hin. destruct Hin as [Hin|[<-|Hin]].
    + unfold App.findActive in H1.
      destruct (active s) eqn:Es; [|reflexivity].
      pose proof (find_none _ _ H1 s Hin). congruence.
    + reflexivity.
    + apply H2. exact Hin.
Qed.

(** X14 on a running session after a finished one. *)
Lemma endSession_ends_first_witness :
  exists l1 l2,
    running = l1 ++ nth 1 running richSession :: l2
    /\ App.endSession 3660000 running
       = l1 ++ App.with_active_endTime (nth 1 running richSession) false
                 (Some 3660000) :: l2
    /\ App.findActive (App.endSession 3660000 running) = App.findActive l2
    /\ ((forall s, In s l2 -> active s = false) ->
        forall s, In s (App.endSession 3660000 running) -> active s = false).
Proof.
  apply (endSession_ends_first 3660000 running (nth 1 running richSession)).
  - repeat constructor; simpl; intuition discriminate.
  - reflexivity.
Defined.

Lemma with_active_endTime_twice a b1 e1 :
  App.with_active_endTime (App.with_active_endTime a b1 e1)
                          (active a) (endTime a) = a.
Proof. destruct a. reflexivity. Qed.

(** X15.  Resuming undoes ending: with distinct ids, ending the active
    session (which has no end time) and then resuming it gives back the
    list there was. *)
Theorem endSession_resumeSession
        (now : Q) (sessions : list Session) (a : Session) :
  NoDup (map id sessions) ->
  App.findActive sessions = Some a ->
  endTime a = None ->
  App.resumeSession a (App.endSession now sessions) = sessions.
Proof.
  intros Hnd Ha He.
  destruct (findActive_split _ _ Ha) as (l1 & l2 & E & _ & Hact).
  unfold App.endSession. rewrite Ha. subst sessions.
  rewrite (map_update (fun s => App.with_active_endTime s false (Some now)))
    by exact Hnd.
  unfold App.resumeSession.
  set (a' := App.with_active_endTime a false (Some now)).
  change (id a) with (id a').
  rewrite (map_update (fun x => App.with_active_endTime x true None)).
  - replace (App.with_active_endTime a' true None) with a; [reflexivity|].
    unfold a'. rewrite <- Hact, <- He.
    symmetry. apply with_active_endTime_twice.
  - rewrite map_app in *. exact Hnd.
Qed.

(** X15 on a running session after a finished one. *)
Lemma endSession_resumeSession_witness :
  App.resumeSession (nth 1 running richSession)
                    (App.endSession 3660000 running)
  = running.
Proof.
  apply (endSession_resumeSession 3660000 running
           (nth 1 running richSession)).
  - repeat constructor; simpl; intuition discriminate.
  - reflexivity.
  - reflexivity.
Defined.

Lemma filter_active_app l1 l2 :
  filter active (l1 ++ l2) = filter active l1 ++ filter active l2.
Proof. apply filter_app. Qed.

(** X16.  [resumeSession] does not look at the other sessions: with
    distinct ids, resuming a finished session of the list makes it active
    with no end time and leaves every other session as it was, so the
    number of active sessions grows by one; if one was active already,
    two are. *)
Theorem resumeSession_adds_active
        (s : Session) (sessions : list Session) :
  NoDup (map id sessions) ->
  In s sessions ->
  active s = false ->
  (exists l1 l2,
      sessions = l1 ++ s :: l2
      /\ App.resumeSession s sessions
         = l1 ++ App.with_active_endTime s true None :: l2)
  /\ List.length (filter active (App.resumeSession s sessions))
     = S (List.length (filter active sessions)).
Proof.
  intros Hnd Hin Hs.
  destruct (in_split _ _ Hin) as (l1 & l2 & E).
  assert (R : App.resumeSession s sessions
              = l1 ++ App.with_active_endTime s true None :: l2).
  { unfold App.resumeSession. subst sessions.
    apply (map_update (fun x => App.with_active_endTime x true None)).
    exact Hnd. }
  split.
  - exists l1, l2. split; assumption.
  - rewrite R, E, !filter_app. simpl. rewrite Hs.
    rewrite !length_app. simpl. lia.
Qed.

(** X16: resuming the finished session while the other one runs. *)
Lemma resumeSession_adds_active_witness :
  List.length (filter active (App.resumeSession (nth 0 running richSession)
                                                running))
  = 2%nat.
Proof.
  apply (resumeSession_adds_active (nth 0 running richSession) running).
  - repeat constructor; simpl; intuition discriminate.
  - left. reflexivity.
  - reflexivity.
Defined.

(* ================================================================= *)
(** ** Deleting a session *)

Lemma filter_sorted (p : Session -> bool) l :
  StronglySorted byStart l -> StronglySorted byStart (filter p l).
Proof.
  induction l as [|x l IH]; intros H; simpl; [constructor|].
  apply StronglySorted_inv in H. destruct H as [Hl Hx].
  destruct (p x); [|apply IH; exact Hl].
  constructor; [apply IH; exact Hl|].
  rewrite Forall_forall in *. intros y Hy.
  apply filter_In in Hy. apply Hx. apply Hy.
Qed.

(** X17.  [deleteSession] removes every session of the given id and
    nothing else, once the prompt is confirmed: a session is in the result
    exactly when it was in the list with another id, the sessions kept
    are in the order they had (a list in start order stays so), an id that
    no session has changes nothing, and deleting again changes nothing.
    When the prompt is declined the list is unchanged. *)
Theorem deleteSession_removes_id (i : string) (sessions : list Session) :
  App.deleteSession false i sessions = sessions
  /\ (forall s, In s (App.deleteSession true i sessions)
                <-> In s sessions /\ id s <> i)
  /\ (StronglySorted byStart sessions ->
      StronglySorted byStart (App.deleteSession true i sessions))
  /\ (~ In i (map id sessions) ->
      App.deleteSession true i sessions = sessions)
  /\ App.deleteSession true i (App.deleteSession true i sessions)
     = App.deleteSession true i sessions
  /\ (forall l1 s l2,
         sessions = l1 ++ s :: l2 -> id s = i -> NoDup (map id sessions) ->
         App.deleteSession true i sessions = l1 ++ l2).
Proof.
  unfold App.deleteSession. simpl.
  refine (conj eq_refl (conj _ (conj _ (conj _ (conj _ _))))).
  - intros s. rewrite filter_In, negb_true_iff.
    destruct (String.eqb_spec (id s) i); intuition congruence.
  - apply filter_sorted.
  - intros Hn. induction sessions as [|x l IH]; simpl; [reflexivity|].
    simpl in Hn. destruct (String.eqb_spec (id x) i) as [E|E].
    + exfalso. apply Hn. left. exact E.
    + simpl. rewrite IH; [reflexivity|]. intros Hin. apply Hn. right. exact Hin.
  - induction sessions as [|x l IH]; simpl; [reflexivity|].
    destruct (negb (String.eqb (id x) i)) eqn:E; simpl.
    + rewrite E, IH. reflexivity.
    + exact IH.
  - intros l1 s l2 -> Hi Hnd.
    rewrite map_app in Hnd. simpl in Hnd.
    pose proof (NoDup_remove_2 _ _ _ Hnd) as Hn. rewrite Hi in Hn.
    assert (K : forall l, ~ In i (map id l) ->
                filter (fun s => negb (String.eqb (id s) i)) l = l).
    { induction l as [|x l IH]; intros H; simpl; [reflexivity|].
      simpl in H. destruct (String.eqb_spec (id x) i) as [E|E].
      - exfalso. apply H. left. exact E.
      - simpl. rewrite IH; [reflexivity|]. intros Hin. apply H. right.
        exact Hin. }
    rewrite filter_app. simpl. rewrite Hi, String.eqb_refl. simpl.
    rewrite !K; [reflexivity| |]; intros Hin; apply Hn; apply in_or_app; auto.
Qed.

(** X17: deleting the first of the two sessions one hour apart. *)
Lemma deleteSession_removes_id_witness :
  StronglySorted byStart (App.deleteSession true "s_1" hourApart)
  /\ App.deleteSession true "s_3" hourApart = hourApart
  /\ App.deleteSession true "s_1" hourApart = [] ++ [nth 1 hourApart richSession].
Proof.
  pose proof (deleteSession_removes_id "s_1" hourApart)
    as (_ & _ & H1 & _ & _ & H3).
  pose proof (deleteSession_removes_id "s_3" hourApart)
    as (_ & _ & _ & H2 & _).
  refine (conj _ (conj _ _)).
  - apply H1. repeat constructor; discriminate.
  - apply H2. simpl. intuition discriminate.
  - apply (H3 [] (nth 0 hourApart richSession) [nth 1 hourApart richSession]).
    + reflexivity.
    + reflexivity.
    + repeat constructor; simpl; intuition discriminate.
Defined.

(* ================================================================= *)
(** ** Which session the handlers act on *)

Lemma findActive_app_some l1 l2 a :
  App.findActive l1 = Some a -> App.findActive (l1 ++ l2) = Some a.
Proof.
  unfold App.findActive. induction l1 as [|x l IH]; simpl; [discriminate|].
  destruct (active x); [auto|exact IH].
Qed.

(** X18.  The handlers act on the first active session in start order, so
    a session started while another is still running does not become
    their target: with the list in start order and no session starting
    after [now], the active session after [startSession] is the one that
    was active before, and the new session only when there was none. *)
Theorem startSession_target
        (newId : string) (form : Form.t) (now : Q) (hours : Z) (now' : Q)
        (sessions : list Session) :
  StronglySorted byStart sessions ->
  (forall s, In s sessions -> startTime s <= now) ->
  App.findActive (App.startSession newId form now hours now' sessions)
  = match App.findActive sessions with
    | Some a => Some a
    | None => Some (created newId form now hours now')
    end.
Proof.
  intros Hs Hn.
  rewrite startSession_created, Array_sort_id
    by (apply sorted_app_last; assumption).
  destruct (App.findActive sessions) as [a|] eqn:E.
  - apply findActive_app_some. exact E.
  - rewrite (findActive_app _ _ E). reflexivity.
Qed.

(** X18 with a session running and with none. *)
Lemma startSession_target_witness :
  App.findActive (App.startSession "s_9" sampleForm 3660000 9 3660000 running)
  = Some (nth 1 running richSession)
  /\ App.findActive
       (App.startSession "s_9" sampleForm 3660000 9 3660000 hourApart)
     = Some (created "s_9" sampleForm 3660000 9 3660000).
Proof.
  split.
  - apply (startSession_target "s_9" sampleForm 3660000 9 3660000 running).
    + repeat constructor; discriminate.
    + intros s [<-|[<-|[]]]; discriminate.
  - apply (startSession_target "s_9" sampleForm 3660000 9 3660000 hourApart).
    + repeat constructor; discriminate.
    + intros s [<-|[<-|[]]]; discriminate.
Defined.

(** X19.  The geolocation callback marks every active session, not only
    the first: afterwards each active session carries the position given,
    a session that is not active is exactly as it was, no session changes
    state, and a later position replaces an earlier one. *)
Theorem onGeo_marks_active
        (latitude longitude : Q) (sessions : list Session) :
  (forall s, In s (App.onGeo latitude longitude sessions) ->
             active s = true ->
             geo s = Some {| lat := latitude; lon := longitude |})
  /\ (forall s, In s sessions -> active s = false ->
                In s (App.onGeo latitude longitude sessions))
  /\ map active (App.onGeo latitude longitude sessions) = map active sessions
  /\ (forall latitude' longitude',
         App.onGeo latitude longitude
                   (App.onGeo latitude' longitude' sessions)
         = App.onGeo latitude longitude sessions).
Proof.
  unfold App.onGeo. refine (conj _ (conj _ (conj _ _))).
  - intros s Hin Ha. apply in_map_iff in Hin. destruct Hin as (x & <- & _).
    destruct (active x) eqn:E; [reflexivity|congruence].
  - intros s Hin Ha. apply in_map_iff. exists s. rewrite Ha. auto.
  - rewrite map_map. apply map_ext. intros s.
    destruct (active s) eqn:E; [|exact E].
    cbn [active App.with_geo]. exact E.
  - intros la lo. rewrite map_map. apply map_ext. intros s.
    destruct (active s) eqn:E; cbn [active App.with_geo]; rewrite E;
      reflexivity.
Qed.

(* ================================================================= *)
(** ** Updating the active session *)

Lemma orNum_or x d : orNum x d = x /\ ~ x == 0 \/ orNum x d = d /\ x == 0.
Proof.
  unfold orNum. destruct (Qeq_bool x 0) eqn:E.
  - right. split; [reflexivity|]. apply Qeq_bool_iff. exact E.
  - left. split; [reflexivity|]. intros H. apply Qeq_bool_iff in H. congruence.
Qed.

(** X20.  With distinct ids and an active session, [updateContext]
    replaces the descriptive fields of the first active session by those
    of the form and changes nothing else: the events, the state, the end
    time, the location, the time of day and the substance stay.  The
    sharer count is one of the fields replaced, so the dose of the whole
    session is rescaled: it becomes the dose of its events taken alone
    divided by the count entered, or that dose itself for a count of at
    most 1 (0 included). *)
Theorem updateContext_replaces
        (form : Form.t) (sessions : list Session) (a : Session) :
  NoDup (map id sessions) ->
  App.findActive sessions = Some a ->
  let a' := App.with_update a (App.formUpdate form) in
  let alone := Qsum (map (fun e => doseFromEvent e None) (consumptions a)) in
  (exists l1 l2,
      sessions = l1 ++ a :: l2
      /\ App.updateContext form sessions = l1 ++ a' :: l2)
  /\ (consumptions a' = consumptions a /\ active a' = active a
      /\ endTime a' = endTime a /\ geo a' = geo a
      /\ timeOfDay a' = timeOfDay a /\ baseSubstance a' = baseSubstance a)
  /\ (1 <= Form.numPeopleSharing form ->
      computeSessionDose a' == alone / Form.numPeopleSharing form)
  /\ (Form.numPeopleSharing form <= 1 -> computeSessionDose a' == alone).
Proof.
  intros Hnd Ha a' alone.
  destruct (findActive_split _ _ Ha) as (l1 & l2 & E & _ & _).
  refine (conj _ (conj _ _)).
  - exists l1, l2. split; [exact E|].
    unfold App.updateContext. rewrite Ha. cbv zeta. subst sessions.
    apply (map_update (fun s => App.with_update s (App.formUpdate form))).
    exact Hnd.
  - repeat split; reflexivity.
  - assert (S : numPeopleSharing (social a')
                = Some (orNum (Form.numPeopleSharing form) 1))
      by reflexivity.
    pose proof (computeSessionDose_people a' _ S) as E'.
    change (consumptions a') with (consumptions a) in E'.
    fold alone in E'.
    destruct (orNum_or (Form.numPeopleSharing form) 1) as [[O N]|[O N]];
      rewrite O in E'.
    + split; intros H; rewrite <- E'.
      * rewrite Q.max_r by exact H. field. lraQ.
      * rewrite Q.max_l by exact H. ring.
    + split; intros H.
      * lraQ.
      * rewrite <- E'. rewrite Q.max_l by lraQ. ring.
Qed.

(** X20 on a running session shared by two, the form saying one. *)
Lemma updateContext_replaces_witness :
  computeSessionDose
    (App.with_update (nth 1 running richSession) (App.formUpdate sampleForm))
  == Qsum (map (fun e => doseFromEvent e None)
               (consumptions (nth 1 running richSession)))
     / Form.numPeopleSharing sampleForm.
Proof.
  pose proof (updateContext_replaces sampleForm running
                (nth 1 running richSession)) as H.
  cbv zeta in H.
  destruct H as (_ & _ & H & _).
  - repeat constructor; simpl; intuition discriminate.
  - reflexivity.
  - apply H. discriminate.
Defined.

(* ================================================================= *)
(** ** The supplement list *)












Lemma split_from_plain sep s : forall cur,
  contains sep s = false ->
  split_from sep cur s = [(cur ++ s)%string].
Proof.
  induction s as [|c s IH]; intros cur H; simpl.
  - rewrite append_empty_r. reflexivity.
  - simpl in H. apply orb_false_iff in H. destruct H as [H1 H2].
    rewrite H1, (IH _ H2), append_assoc. reflexivity.
Qed.

Lemma split_from_sep sep s rest : forall cur,
  contains sep s = false ->
  split_from sep cur (s ++ String sep rest)
  = (cur ++ s)%string :: split_from sep EmptyString rest.
Proof.
  induction s as [|c s IH]; intros cur H; simpl.
  - rewrite Ascii.eqb_refl, append_empty_r. reflexivity.
  - simpl in H. apply orb_false_iff in H. destruct H as [H1 H2].
    rewrite H1, (IH _ H2), append_assoc. reflexivity.
Qed.

Lemma cleanName_spec n :
  cleanName n = true ->
  truthyStr n = true /\ contains "," n = false /\ trim n = n.
Proof.
  unfold cleanName. intros H.
  apply andb_true_iff in H. destruct H as [H H3].
  apply andb_true_iff in H. destruct H as [H1 H2].
  apply negb_true_iff in H2. apply String.eqb_eq in H3. auto.
Qed.

Lemma split_join names : forall n cur,
  forallb cleanName (n :: names) = true ->
  split_from "," cur (join ", " (n :: names))
  = (cur ++ n)%string :: map (fun m => String " " m) names.
Proof.
  induction names as [|m names IH]; intros n cur H.
  - simpl in H. rewrite andb_true_r in H.
    apply cleanName_spec in H. destruct H as (_ & H & _).
    simpl. apply split_from_plain. exact H.
  - cbn [forallb] in H. apply andb_true_iff in H. destruct H as [Hn H].
    apply cleanName_spec in Hn. destruct Hn as (_ & Hn & _).
    change (join ", " (n :: m :: names))
      with (n ++ String "," (String " " (join ", " (m :: names))))%string.
    rewrite (split_from_sep _ _ _ _ Hn).
    change (split_from "," EmptyString
              (String " " (join ", " (m :: names))))
      with (split_from "," (String " " EmptyString)
              (join ", " (m :: names))).
    rewrite (IH m _ H). reflexivity.
Qed.

Lemma trim_space m : trim (String " " m) = trim m.
Proof. reflexivity. Qed.

Lemma clean_pieces names :
  forallb cleanName names = true ->
  filter truthyStr (map trim (map (fun m => String " " m) names)) = names.
Proof.
  induction names as [|m names IH]; intros H; [reflexivity|].
  cbn [forallb] in H. apply andb_true_iff in H. destruct H as [Hm H].
  apply cleanName_spec in Hm. destruct Hm as (T & _ & E).
  cbn [map filter]. rewrite trim_space, E, T, (IH H). reflexivity.
Qed.

(** X22.  Typing clean names (in ASCII) separated by a comma and a space
    stores exactly those names, in order: the field is split at the commas
    and the space after each is trimmed away. *)
Theorem supplements_join (form : Form.t) (names : list string) :
  forallb cleanName names = true ->
  forallb asciiOnly names = true ->
  Form.supplements form = join ", " names ->
  App.u_supplements (App.formUpdate form) = names.
Proof.
  intros Hc _ Hf. unfold App.formUpdate. cbn [App.u_supplements].
  rewrite Hf. destruct names as [|n names]; [reflexivity|].
  pose proof Hc as Hc'. cbn [forallb] in Hc'.
  apply andb_true_iff in Hc'. destruct Hc' as [Hn Hr].
  apply cleanName_spec in Hn. destruct Hn as (T & _ & E).
  assert (Hne : truthyStr (join ", " (n :: names)) = true).
  { destruct n as [|c n]; [discriminate T|].
    destruct names; reflexivity. }
  rewrite Hne. unfold split. rewrite (split_join _ _ _ Hc).
  cbn [map filter append]. rewrite E, T. f_equal.
  apply clean_pieces. exact Hr.
Qed.

(** X22 on the sample form, which says [CBD, L-theanine]. *)
Lemma supplements_join_witness :
  App.u_supplements (App.formUpdate sampleForm)
  = ["CBD"%string; "L-theanine"%string].
Proof.
  apply (supplements_join sampleForm ["CBD"%string; "L-theanine"%string]);
    reflexivity.
Defined.

(* ================================================================= *)
(** ** The average duration *)

Lemma durations_In sessions d :
  In d (App.durations sessions) <->
  exists s e, In s sessions /\ endTime s = Some e /\ ~ e == 0
              /\ d = e - startTime s.
Proof.
  unfold App.durations. rewrite in_flat_map. split.
  - intros (s & Hs & Hd). destruct (endTime s) as [e|] eqn:E; [|destruct Hd].
    unfold truthyNum in Hd. destruct (Qeq_bool e 0) eqn:Ez; [destruct Hd|].
    destruct Hd as [<-|[]]. exists s, e. repeat split; auto.
    intros H. apply Qeq_bool_iff in H. congruence.
  - intros (s & e & Hs & E & Hz & ->). exists s. split; [exact Hs|].
    rewrite E. unfold truthyNum. destruct (Qeq_bool e 0) eqn:Ez.
    + apply Qeq_bool_iff in Ez. contradiction.
    + left. reflexivity.
Qed.

Lemma fold_left_Qplus_id l : fold_left Qplus l 0 == Qsum l.
Proof.
  rewrite <- (Qplus_0_l (Qsum l)). generalize 0.
  induction l as [|x l IH]; intros a; simpl.
  - ring.
  - rewrite IH. ring.
Qed.

Lemma Qsum_bounds lo hi l :
  (forall d, In d l -> lo <= d <= hi) ->
  lo * inject_Z (Z.of_nat (List.length l)) <= Qsum l
  /\ Qsum l <= hi * inject_Z (Z.of_nat (List.length l)).
Proof.
  induction l as [|x l IH]; intros H.
  - cbn [List.length Z.of_nat Qsum fold_right].
    change (inject_Z 0) with 0. split; lraQ.
  - destruct (H x (or_introl eq_refl)) as [H1 H2].
    destruct (IH (fun d Hd => H d (or_intror Hd))) as [I1 I2].
    cbn [List.length Qsum fold_right].
    rewrite Nat2Z.inj_succ. unfold Z.succ. rewrite inject_Z_plus.
    change (fold_right Qplus 0 l) with (Qsum l).
    change (inject_Z 1) with 1. split; lraQ.
Qed.

(** X23.  [avgDuration] is 0 when no session has ended, and otherwise
    the mean of the durations of the sessions that have: times the number
    of them it is their sum, so it lies between the shortest and the
    longest.  A session counts when its end time is defined and not 0;
    one that is still running does not. *)
Theorem avgDuration_mean (sessions : list Session) :
  (App.durations sessions = [] -> App.avgDuration sessions = 0)
  /\ (forall d, In d (App.durations sessions) <->
        exists s e, In s sessions /\ endTime s = Some e /\ ~ e == 0
                    /\ d = e - startTime s)
  /\ (App.durations sessions <> [] ->
      App.avgDuration sessions
      * inject_Z (Z.of_nat (List.length (App.durations sessions)))
      == Qsum (App.durations sessions))
  /\ (forall lo hi,
         App.durations sessions <> [] ->
         (forall d, In d (App.durations sessions) -> lo <= d <= hi) ->
         lo <= App.avgDuration sessions <= hi).
Proof.
  assert (M : App.durations sessions <> [] ->
              0 < inject_Z (Z.of_nat (List.length (App.durations sessions)))
              /\ App.avgDuration sessions
                 == Qsum (App.durations sessions)
                    / inject_Z (Z.of_nat
                                  (List.length (App.durations sessions)))).
  { intros Hne. unfold App.avgDuration. cbv zeta.
    destruct (App.durations sessions) as [|d l]; [contradiction|].
    split.
    - change 0 with (inject_Z 0). rewrite <- Zlt_Qlt. simpl. lia.
    - change (List.length (d :: l) =? 0)%nat with false. cbv iota.
      rewrite fold_left_Qplus_id. reflexivity. }
  refine (conj _ (conj (durations_In sessions) (conj _ _))).
  - intros E. unfold App.avgDuration. rewrite E. reflexivity.
  - intros Hne. destruct (M Hne) as [Hpos ->]. field. lraQ.
  - intros lo hi Hne Hb. destruct (M Hne) as [Hpos ->].
    destruct (Qsum_bounds lo hi _ Hb) as [B1 B2].
    split.
    + apply Qle_shift_div_l; assumption.
    + apply Qle_shift_div_r; assumption.
Qed.

(** X23 on the two sessions one hour apart: one has ended, after 1 s. *)
Lemma avgDuration_mean_witness :
  1000 <= App.avgDuration hourApart <= 1000.
Proof.
  apply (proj2 (proj2 (proj2 (avgDuration_mean hourApart))) 1000 1000).
  - discriminate.
  - intros d [<-|[]]. split; discriminate.
Defined.

(* ================================================================= *)
(** ** Charts *)

Lemma Math_round_IZR k : Math_round (IZR k) = k.
Proof. apply Math_round_unique. lraR. Qed.

Lemma computeTolerance_rounded t l :
  (IZR (Math_round (computeTolerance t l * 10)) / 10)%R
  = computeTolerance t l.
Proof.
  unfold computeTolerance. cbv zeta.
  set (k := Math_round (toleranceScore t l * 1000)).
  replace (IZR k / 10 * 10)%R with (IZR k) by lraR.
  rewrite Math_round_IZR. reflexivity.
Qed.

Lemma chartTolerance_loop_points rest : forall accum points,
  App.chartTolerance_loop accum points rest
  = points ++ App.chartTolerance_loop accum [] rest.
Proof.
  induction rest as [|s rest IH]; intros accum points; simpl.
  - rewrite List.app_nil_r. reflexivity.
  - rewrite IH, (IH _ [_]), List.app_assoc. reflexivity.
Qed.

Lemma chartTolerance_loop_length rest : forall accum,
  List.length (App.chartTolerance_loop accum [] rest) = List.length rest.
Proof.
  induction rest as [|s rest IH]; intros accum; simpl; [reflexivity|].
  rewrite chartTolerance_loop_points, length_app, IH. reflexivity.
Qed.

Lemma chartTolerance_loop_nth rest : forall accum i s,
  nth_error rest i = Some s ->
  nth_error (App.chartTolerance_loop accum [] rest) i
  = Some (nullish (endTime s) (startTime s),
          computeTolerance (nullish (endTime s) (startTime s))
                           (accum ++ firstn (S i) rest)).
Proof.
  induction rest as [|x rest IH]; intros accum i s H.
  - destruct i; discriminate H.
  - cbn [App.chartTolerance_loop]. cbv zeta.
    rewrite chartTolerance_loop_points. destruct i as [|i].
    + injection H as ->. cbn [app nth_error firstn].
      rewrite computeTolerance_rounded. reflexivity.
    + cbn [app nth_error]. cbn [nth_error] in H.
      rewrite (IH _ _ _ H).
      change (firstn (S (S i)) (x :: rest)) with (x :: firstn (S i) rest).
      rewrite <- List.app_assoc. reflexivity.
Qed.

(** X24.  [chartTolerance] has one point per session, in the order of the
    list it is given.  The point of a session is taken at its end time, or
    at its start time when it has none, and its value is the tolerance at
    that time of the sessions up to and including it: the sessions after
    it in the list do not count, and rounding the value again to one
    decimal changes nothing. *)
Theorem chartTolerance_points
        (toLocaleString : Q -> string) (sorted : list Session) :
  List.length (App.chartTolerance toLocaleString sorted)
  = List.length sorted
  /\ forall i s,
       nth_error sorted i = Some s ->
       let t := match endTime s with Some e => e | None => startTime s end in
       nth_error (App.chartTolerance toLocaleString sorted) i
       = Some (toLocaleString t, computeTolerance t (firstn (S i) sorted)).
Proof.
  unfold App.chartTolerance. cbv zeta. split.
  - rewrite length_map. apply chartTolerance_loop_length.
  - intros i s H. rewrite nth_error_map.
    rewrite (chartTolerance_loop_nth sorted [] i s H). reflexivity.
Qed.

Lemma Math_roundQ_spec x :
  inject_Z (Math_roundQ x) - (1 # 2) <= x
  /\ x < inject_Z (Math_roundQ x) + (1 # 2).
Proof.
  unfold Math_roundQ.
  pose proof (Qfloor_le (x + (1 # 2))) as H1.
  pose proof (Qlt_floor (x + (1 # 2))) as H2.
  rewrite inject_Z_plus in H2. change (inject_Z 1) with 1 in H2.
  split; lraQ.
Qed.

(** X25.  [chartConsumption] has one bar per session, in order, labelled
    with the start time; its height is the session dose rounded to the
    nearest thousandth of a gram, so it is a whole number of thousandths
    and differs from the dose by at most 0.0005. *)
Theorem chartConsumption_rounds
        (toLocaleString : Q -> string) (sorted : list Session) :
  List.length (App.chartConsumption toLocaleString sorted)
  = List.length sorted
  /\ forall i s,
       nth_error sorted i = Some s ->
       exists k : Z,
         nth_error (App.chartConsumption toLocaleString sorted) i
         = Some (toLocaleString (startTime s), inject_Z k / 1000)
         /\ computeSessionDose s - (1 # 2000) < inject_Z k / 1000
         /\ inject_Z k / 1000 <= computeSessionDose s + (1 # 2000).
Proof.
  unfold App.chartConsumption. split; [apply length_map|].
  intros i s H. exists (Math_roundQ (computeSessionDose s * 1000)).
  rewrite nth_error_map, H. split; [reflexivity|].
  destruct (Math_roundQ_spec (computeSessionDose s * 1000)) as [R1 R2].
  set (k := inject_Z (Math_roundQ (computeSessionDose s * 1000))) in *.
  split.
  - apply Qlt_shift_div_l; lraQ.
  - apply Qle_shift_div_r; lraQ.
Qed.

Lemma increment_counts getHours l : forall c,
  let c' :=
    fold_left
      (fun counts s =>
         let t := nullish (timeOfDay s)
                          (getTimeOfDay (getHours (startTime s))) in
         App.increment t counts) l c in
  (App.nMorning c' = App.nMorning c + countOf getHours Morning l
   /\ App.nAfternoon c' = App.nAfternoon c + countOf getHours Afternoon l
   /\ App.nEvening c' = App.nEvening c + countOf getHours Evening l
   /\ App.nNight c' = App.nNight c + countOf getHours Night l)%Z.
Proof.
  induction l as [|s l IH]; intros c; cbv zeta.
  - unfold countOf. simpl. lia.
  - cbn [fold_left]. specialize (IH (App.increment
      (nullish (timeOfDay s) (getTimeOfDay (getHours (startTime s)))) c)).
    cbv zeta in IH. destruct IH as (I1 & I2 & I3 & I4).
    rewrite I1, I2, I3, I4. unfold countOf. cbn [filter].
    change (nullish (timeOfDay s) (getTimeOfDay (getHours (startTime s))))
      with (timeOfDayOf getHours s).
    destruct (timeOfDayOf getHours s); cbn [TimeOfDay_eqb App.increment
      App.nMorning App.nAfternoon App.nEvening App.nNight List.length];
      lia.
Qed.

Lemma countOf_total getHours l :
  (countOf getHours Morning l + countOf getHours Afternoon l
   + countOf getHours Evening l + countOf getHours Night l
   = Z.of_nat (List.length l))%Z.
Proof.
  unfold countOf. induction l as [|s l IH]; [reflexivity|].
  cbn [filter]. destruct (timeOfDayOf getHours s);
    cbn [TimeOfDay_eqb List.length]; lia.
Qed.

(** X26.  [chartTimeOfDay] always has the four entries Morning,
    Afternoon, Evening and Night, in this order.  Every session is counted
    once, under the time of day it stores or else under the one of the
    hour it started at, so the four values add up to the number of
    sessions. *)
Theorem chartTimeOfDay_counts (getHours : Q -> Z) (sorted : list Session) :
  App.chartTimeOfDay getHours sorted
  = [("Morning"%string, countOf getHours Morning sorted);
     ("Afternoon"%string, countOf getHours Afternoon sorted);
     ("Evening"%string, countOf getHours Evening sorted);
     ("Night"%string, countOf getHours Night sorted)]
  /\ fold_right Z.add 0%Z (map snd (App.chartTimeOfDay getHours sorted))
     = Z.of_nat (List.length sorted).
Proof.
  assert (E : App.chartTimeOfDay getHours sorted
    = [("Morning"%string, countOf getHours Morning sorted);
       ("Afternoon"%string, countOf getHours Afternoon sorted);
       ("Evening"%string, countOf getHours Evening sorted);
       ("Night"%string, countOf getHours Night sorted)]).
  { unfold App.chartTimeOfDay. cbv zeta.
    pose proof (increment_counts getHours sorted
                  {| App.nMorning := 0; App.nAfternoon := 0;
                     App.nEvening := 0; App.nNight := 0 |}) as H.
    cbv zeta in H. destruct H as (I1 & I2 & I3 & I4).
    rewrite I1, I2, I3, I4. reflexivity. }
  split; [exact E|]. rewrite E. cbn [map snd fold_right].
  rewrite <- (countOf_total getHours sorted). lia.
Qed.

(* ================================================================= *)
(** ** The gap shown in the logbook *)

Lemma sorted_nth l : forall i j a b,
  StronglySorted byStart l ->
  nth_error l i = Some a -> nth_error l j = Some b -> (i < j)%nat ->
  byStart a b.
Proof.
  induction l as [|x l IH]; intros i j a b Hs Ha Hb Hij.
  - destruct i; discriminate Ha.
  - apply StronglySorted_inv in Hs. destruct Hs as [Hl Hx].
    destruct j as [|j]; [lia|]. cbn [nth_error] in Hb.
    destruct i as [|i].
    + injection Ha as <-. rewrite Forall_forall in Hx. apply Hx.
      eapply nth_error_In. exact Hb.
    + cbn [nth_error] in Ha. apply (IH i j); auto. lia.
Qed.

(** X27.  In the logbook the gap is taken on the list in start order, so
    a session never starts before the one listed before it; when that one
    has no end time (it is still running) the gap is exactly the
    difference of the two start times, with nothing clamped away. *)
Theorem logbook_gap
        (sessions : list Session) (index : Z) (curr prev : Session) :
  (0 < index)%Z ->
  at_index (App.sorted sessions) index = Some curr ->
  at_index (App.sorted sessions) (index - 1) = Some prev ->
  startTime prev <= startTime curr
  /\ (endTime prev = None ->
      exists gap,
        intervalSincePrevious (App.sorted sessions) index = Some gap
        /\ gap == startTime curr - startTime prev).
Proof.
  intros Hpos Hc Hp.
  assert (Hle : startTime prev <= startTime curr).
  { unfold at_index in Hc, Hp.
    destruct (index <? 0)%Z eqn:E1; [discriminate|].
    destruct (index - 1 <? 0)%Z eqn:E2; [discriminate|].
    apply (sorted_nth (App.sorted sessions)
             (Z.to_nat (index - 1)) (Z.to_nat index)); auto.
    - apply Array_sort_sorted.
    - lia. }
  split; [exact Hle|]. intros He.
  unfold intervalSincePrevious.
  apply Z.leb_gt in Hpos. rewrite Hpos, Hc, Hp, He. cbn [nullish].
  eexists. split; [reflexivity|]. apply Q.max_r. lraQ.
Qed.

(** X27 on two sessions given out of order, the earlier one without an
    end time. *)
Lemma logbook_gap_witness :
  exists gap,
    intervalSincePrevious
      (App.sorted [plainSession "s_2" 3601000 None None [];
                   plainSession "s_1" 0 None None []]) 1
    = Some gap
    /\ gap == startTime (plainSession "s_2" 3601000 None None [])
              - startTime (plainSession "s_1" 0 None None []).
Proof.
  apply (logbook_gap [plainSession "s_2" 3601000 None None [];
                      plainSession "s_1" 0 None None []] 1
           (plainSession "s_2" 3601000 None None [])
           (plainSession "s_1" 0 None None []));
    reflexivity.
Defined.

(* ================================================================= *)
(** ** Every state the handlers reach survives a reload *)

Lemma storableSession_parts s :
  storableSession s
  = storableNum (startTime s)
    && (forallb storableNum (optnum (endTime s))
        && (forallb storableNum
              match geo s with Some g => [lat g; lon g] | None => [] end
            && (forallb storableNum (optnum (numPeopleSharing (social s)))
                && forallb storableNum
                     (flat_map ConsumptionEvent_numbers (consumptions s))))).
Proof.
  unfold storableSession, Session_numbers. cbn [forallb].
  rewrite !forallb_app. reflexivity.
Qed.

Lemma storableNum_orNum x d :
  storableNum x = true -> storableNum d = true ->
  storableNum (orNum x d) = true.
Proof.
  intros Hx Hd. unfold orNum. destruct (Qeq_bool x 0); assumption.
Qed.

Lemma storable_map (g : Session -> Session) l :
  (forall s, storableSession s = true -> storableSession (g s) = true) ->
  forallb storableSession l = true ->
  forallb storableSession (map g l) = true.
Proof.
  intros Hg H. rewrite forallb_forall in *. intros s' Hin.
  apply in_map_iff in Hin. destruct Hin as (s & <- & Hs).
  apply Hg, H, Hs.
Qed.

Lemma storable_sorted l :
  forallb storableSession l = true ->
  forallb storableSession (Array_sort byTimeAsc l) = true.
Proof.
  intros H. rewrite forallb_forall in *. intros s Hin. apply H.
  apply (Permutation_in _ (Permutation_sym (Array_sort_perm l))). exact Hin.
Qed.

Lemma storable_formEvent form now :
  storableNum now = true ->
  storableNum (Form.weightGrams form) = true ->
  storableNum (Form.thcPercent form) = true ->
  forallb storableNum (ConsumptionEvent_numbers (App.formEvent form now))
  = true.
Proof.
  intros Hn Hw Hp. unfold ConsumptionEvent_numbers, App.formEvent.
  cbn [timestamp weightGrams thcPercent forallb].
  rewrite Hn, !storableNum_orNum; auto.
Qed.

Lemma storable_with_consumptions s ev :
  storableSession s = true ->
  forallb storableNum (ConsumptionEvent_numbers ev) = true ->
  storableSession (App.with_consumptions s (consumptions s ++ [ev])) = true.
Proof.
  rewrite !storableSession_parts.
  cbn [startTime endTime geo social consumptions App.with_consumptions].
  rewrite flat_map_app, forallb_app. cbn [flat_map].
  rewrite List.app_nil_r. intros H He.
  repeat (apply andb_true_iff in H; destruct H as [? H]).
  rewrite_true.
Qed.

Lemma storable_created newId form now hours now' :
  storableNum now = true -> storableNum now' = true ->
  storableNum (Form.weightGrams form) = true ->
  storableNum (Form.thcPercent form) = true ->
  storableNum (Form.numPeopleSharing form) = true ->
  storableSession (created newId form now hours now') = true.
Proof.
  intros Hn Hn' Hw Hp Hs. rewrite storableSession_parts.
  unfold created, App.newSession, App.formUpdate.
  cbn [startTime endTime geo social consumptions App.with_consumptions
       App.u_social numPeopleSharing optnum forallb].
  rewrite Hn, storableNum_orNum by auto. cbn [andb].
  destruct (Qlt_le_dec 0 (Form.weightGrams form)); [|reflexivity].
  cbn [flat_map]. rewrite List.app_nil_r.
  apply storable_formEvent; assumption.
Qed.

(** X28.  The list every handler produces is written to storage and read
    back as it is.  From a list of sessions with storable numbers, with
    the clock, the location and the numbers of the form storable too,
    what [startSession], [addConsumption], [updateContext], [endSession],
    [resumeSession], [deleteSession] and the geolocation callback return
    is saved by [saveSessions] and loaded again by [loadSessions] as the
    same sessions, field for field. *)
Theorem state_survives_reload
        (form : Form.t) (newId : string) (hours : Z)
        (now now' latitude longitude createdAt : Q)
        (s : Session) (confirmed : bool) (i : string)
        (sessions next : list Session) (ls : LocalStorage.t) :
  forallb storableSession sessions = true ->
  forallb storableNum
    [now; now'; latitude; longitude; createdAt; Form.weightGrams form;
     Form.thcPercent form; Form.numPeopleSharing form] = true ->
  In next
     [App.startSession newId form now hours now' sessions;
      App.addConsumption form now sessions;
      App.updateContext form sessions;
      App.endSession now sessions;
      App.resumeSession s sessions;
      App.deleteSession confirmed i sessions;
      App.onGeo latitude longitude sessions] ->
  map Session_read (loadSessions (saveSessions next createdAt ls))
  = map Some next.
Proof.
  intros Hs Hn Hin. cbn [forallb] in Hn.
  repeat (apply andb_true_iff in Hn; destruct Hn as [? Hn]).
  clear Hn.
  assert (K : forallb storableSession next = true).
  { cbn [In] in Hin.
    destruct Hin as [<-|[<-|[<-|[<-|[<-|[<-|[<-|[]]]]]]]].
    - rewrite startSession_created. apply storable_sorted.
      rewrite forallb_app, Hs. cbn [forallb andb].
      rewrite storable_created by assumption. reflexivity.
    - unfold App.addConsumption.
      destruct (App.findActive sessions) as [a|]; [|exact Hs].
      apply storable_map; [|exact Hs]. intros x Hx.
      destruct (String.eqb _ _); [|exact Hx].
      apply storable_with_consumptions; [exact Hx|].
      apply storable_formEvent; assumption.
    - unfold App.updateContext.
      destruct (App.findActive sessions) as [a|]; [|exact Hs].
      apply storable_map; [|exact Hs]. intros x Hx.
      destruct (String.eqb _ _); [|exact Hx].
      rewrite storableSession_parts in *.
      cbn [startTime endTime geo social consumptions App.with_update
           App.formUpdate App.u_social numPeopleSharing optnum forallb].
      repeat (apply andb_true_iff in Hx; destruct Hx as [? Hx]).
      rewrite storableNum_orNum by auto.
      rewrite_true.
    - unfold App.endSession.
      destruct (App.findActive sessions) as [a|]; [|exact Hs].
      apply storable_map; [|exact Hs]. intros x Hx.
      destruct (String.eqb _ _); [|exact Hx].
      rewrite storableSession_parts in *.
      cbn [startTime endTime geo social consumptions
           App.with_active_endTime optnum forallb].
      repeat (apply andb_true_iff in Hx; destruct Hx as [? Hx]).
      rewrite_true.
    - unfold App.resumeSession.
      apply storable_map; [|exact Hs]. intros x Hx.
      destruct (String.eqb _ _); [|exact Hx].
      rewrite storableSession_parts in *.
      cbn [startTime endTime geo social consumptions
           App.with_active_endTime optnum forallb].
      repeat (apply andb_true_iff in Hx; destruct Hx as [? Hx]).
      rewrite_true.
    - unfold App.deleteSession. destruct (negb confirmed); [exact Hs|].
      rewrite forallb_forall in *. intros x Hx.
      apply filter_In in Hx. apply Hs, Hx.
    - unfold App.onGeo.
      apply storable_map; [|exact Hs]. intros x Hx.
      destruct (active x); [|exact Hx].
      rewrite storableSession_parts in *.
      cbn [startTime endTime geo social consumptions App.with_geo
           lat lon forallb].
      repeat (apply andb_true_iff in Hx; destruct Hx as [? Hx]).
      rewrite_true. }
  rewrite loadSessions_saved by assumption. apply read_sessions.
Qed.

(** X28 after a consumption is added to a running session. *)
Lemma state_survives_reload_witness :
  map Session_read
      (loadSessions
         (saveSessions (App.addConsumption sampleForm 3660000 running)
                       3660001 LocalStorage.empty))
  = map Some (App.addConsumption sampleForm 3660000 running).
Proof.
  apply (state_survives_reload sampleForm "s_9" 9 3660000 3660000 1 2
           3660001 richSession true "s_1" running
           (App.addConsumption sampleForm 3660000 running)
           LocalStorage.empty).
  - reflexivity.
  - reflexivity.
  - right. left. reflexivity.
Defined.

(* ================================================================= *)
(** ** The exported file *)

Lemma skip_ws_ws w s : all_ws w = true -> skip_ws (w ++ s) = skip_ws s.
Proof.
  induction w as [|c w IH]; simpl; [reflexivity|].
  intros H. apply andb_true_iff in H. destruct H as [H1 H2].
  rewrite H1. apply IH, H2.
Qed.

Lemma token_ws c w s : all_ws w = true -> token c (w ++ s) = token c s.
Proof. intros H. unfold token. rewrite skip_ws_ws by exact H. reflexivity. Qed.

Lemma parse_value_ws f w s :
  all_ws w = true -> parse_value f (w ++ s) = parse_value f s.
Proof.
  intros H. destruct f; [reflexivity|].
  cbn [parse_value]. rewrite skip_ws_ws by exact H. reflexivity.
Qed.

Lemma parse_elements_ws f w s :
  all_ws w = true -> parse_elements f (w ++ s) = parse_elements f s.
Proof.
  intros H. destruct f; [reflexivity|].
  cbn [parse_elements]. rewrite parse_value_ws by exact H. reflexivity.
Qed.

Lemma parse_members_ws f w s :
  all_ws w = true -> parse_members f (w ++ s) = parse_members f s.
Proof.
  intros H. destruct f; [reflexivity|].
  cbn [parse_members]. rewrite token_ws by exact H. reflexivity.
Qed.

Lemma parse_elements_line f indent s :
  all_ws indent = true ->
  parse_elements f (String "010" (indent ++ s)) = parse_elements f s.
Proof.
  intros H. apply (parse_elements_ws f (String "010" indent) s).
  cbn [all_ws]. rewrite H. reflexivity.
Qed.

Lemma parse_members_line f indent s :
  all_ws indent = true ->
  parse_members f (String "010" (indent ++ s)) = parse_members f s.
Proof.
  intros H. apply (parse_members_ws f (String "010" indent) s).
  cbn [all_ws]. rewrite H. reflexivity.
Qed.

Lemma parse_value_space f s : parse_value f (String " " s) = parse_value f s.
Proof. apply (parse_value_ws f (String " " EmptyString) s). reflexivity. Qed.

Lemma all_ws_app a b : all_ws (a ++ b) = all_ws a && all_ws b.
Proof.
  induction a as [|c a IH]; simpl; [reflexivity|].
  rewrite IH. apply andb_assoc.
Qed.

Lemma all_ws_deeper indent :
  all_ws indent = true -> all_ws (String "010" (indent ++ "  ")) = true.
Proof.
  intros H. cbn [all_ws]. rewrite all_ws_app, H. reflexivity.
Qed.

Lemma all_ws_line indent :
  all_ws indent = true -> all_ws (String "010" indent) = true.
Proof. intros H. cbn [all_ws]. rewrite H. reflexivity. Qed.

Lemma token_after_ws c w c' r :
  all_ws w = true -> isWs c' = false ->
  token c (w ++ String c' r) = if Ascii.eqb c' c then Some r else None.
Proof.
  intros Hw Hc. rewrite token_ws by exact Hw.
  unfold token. cbn [skip_ws]. rewrite Hc. reflexivity.
Qed.

Lemma token_line c stepback c' r :
  all_ws stepback = true -> isWs c' = false ->
  token c (String "010" (stepback ++ String c' r))
  = if Ascii.eqb c' c then Some r else None.
Proof.
  intros Hw Hc.
  apply (token_after_ws c (String "010" stepback) c' r); [|exact Hc].
  cbn [all_ws]. rewrite Hw. reflexivity.
Qed.

Lemma stringify_indent_head indent v rest :
  storable v = true ->
  exists c tl, (stringify_indent indent v ++ rest)%string = String c tl
               /\ value_start c = true.
Proof.
  intros Hv.
  destruct v as [|[]|q|s|[|v vs]|[|m ms]]; cbn [stringify_indent];
    try (eexists _, _; split; reflexivity).
  destruct (Number_toJSON_parse q EmptyString Hv eq_refl)
    as [_ (c & tl & E & Hc)].
  destruct (Number_toJSON q) as [|c' tl'] eqn:En.
  - discriminate E.
  - cbn [append] in *. injection E as -> _.
    eexists _, _. split; [reflexivity|]. apply number_head_dispatch, Hc.
Qed.

Lemma token_value c indent v rest w :
  storable v = true -> all_ws w = true ->
  (Ascii.eqb c "]" = true \/ Ascii.eqb c "}" = true) ->
  token c (w ++ stringify_indent indent v ++ rest) = None.
Proof.
  intros Hv Hw Hc.
  destruct (stringify_indent_head indent v rest Hv) as (c' & tl & -> & Hs).
  unfold value_start in Hs.
  apply andb_true_iff in Hs. destruct Hs as [Hs H3].
  apply andb_true_iff in Hs. destruct Hs as [H1 H2].
  apply negb_true_iff in H1, H2, H3.
  rewrite token_after_ws by assumption.
  destruct Hc as [Hc|Hc]; apply Ascii.eqb_eq in Hc; subst c.
  - rewrite H2. reflexivity.
  - rewrite H3. reflexivity.
Qed.

Lemma token_member indent m rest w :
  all_ws w = true -> token "}" (w ++ member_line indent m ++ rest) = None.
Proof.
  intros H. unfold token. rewrite skip_ws_ws by exact H.
  unfold member_line, quote. reflexivity.
Qed.

Lemma Arr_text indent v vs rest :
  (stringify_indent indent (Arr (v :: vs)) ++ rest)%string
  = String "["
      (String "010" (indent ++ "  ")
       ++ join (line_sep (indent ++ "  "))
               (map (stringify_indent (indent ++ "  ")) (v :: vs))
       ++ String "010" (indent ++ String "]" rest)).
Proof.
  cbn [stringify_indent]. unfold line_sep. cbn [append].
  rewrite !append_assoc. cbn [append]. rewrite !append_assoc.
  reflexivity.
Qed.

Lemma Obj_text indent m ms rest :
  (stringify_indent indent (Obj (m :: ms)) ++ rest)%string
  = String "{"
      (String "010" (indent ++ "  ")
       ++ join (line_sep (indent ++ "  "))
               (map (member_line (indent ++ "  ")) (m :: ms))
       ++ String "010" (indent ++ String "}" rest)).
Proof.
  cbn [stringify_indent]. unfold line_sep.
  change (map (fun m0 => (quote (fst m0) ++ ": "
                          ++ stringify_indent (indent ++ "  ") (snd m0))%string)
              (m :: ms))
    with (map (member_line (indent ++ "  ")) (m :: ms)).
  cbn [append].
  rewrite !append_assoc. cbn [append]. rewrite !append_assoc.
  reflexivity.
Qed.

Section Indented.

Variable fuel : nat.

Hypothesis IHvalue : forall v indent rest,
  all_ws indent = true -> storable v = true -> (size v <= fuel)%nat ->
  number_end rest = true ->
  parse_value fuel (stringify_indent indent v ++ rest) = Some (v, rest).

Hypothesis IHelements : forall v vs indent stepback rest,
  all_ws indent = true -> all_ws stepback = true ->
  forallb storable (v :: vs) = true -> (sizes (v :: vs) <= fuel)%nat ->
  parse_elements fuel
    (join (line_sep indent) (map (stringify_indent indent) (v :: vs))
     ++ String "010" (stepback ++ String "]" rest))
  = Some (v :: vs, rest).

Hypothesis IHmembers : forall m ms indent stepback rest,
  all_ws indent = true -> all_ws stepback = true ->
  distinct (map fst (m :: ms)) = true ->
  forallb (fun m => storable (snd m)) (m :: ms) = true ->
  (member_sizes (m :: ms) <= fuel)%nat ->
  parse_members fuel
    (join (line_sep indent) (map (member_line indent) (m :: ms))
     ++ String "010" (stepback ++ String "}" rest))
  = Some (m :: ms, rest).

Lemma parse_value_indent_step v indent rest :
  all_ws indent = true -> storable v = true -> (size v <= S fuel)%nat ->
  number_end rest = true ->
  parse_value (S fuel) (stringify_indent indent v ++ rest) = Some (v, rest).
Proof.
  intros Hi Hv Hs Hr.
  destruct v as [|[]|q|s|[|v vs]|[|m ms]]; try reflexivity.
  - (* Num *)
    cbn [stringify_indent storable] in *.
    destruct (Number_toJSON_parse q rest Hv Hr) as [Hp (c & tl & E & Hc)].
    rewrite E in *.
    destruct (number_head_dispatch c Hc)
      as (W & N1 & N2 & N3 & N4 & N5 & N6 & _).
    cbn [parse_value skip_ws]. rewrite W, N1, N2, N3, N4, N5, N6, Hp.
    reflexivity.
  - (* Str *)
    cbn [stringify_indent]. unfold quote. cbn [append parse_value skip_ws].
    change (isWs dquote) with false. cbv iota.
    change (Ascii.eqb dquote "n") with false.
    change (Ascii.eqb dquote "t") with false.
    change (Ascii.eqb dquote "f") with false.
    change (Ascii.eqb dquote dquote) with true. cbv iota.
    rewrite append_assoc. cbn [append].
    rewrite parse_chars_quote_chars. reflexivity.
  - (* Arr *)
    rewrite Arr_text. cbn [parse_value skip_ws].
    change (isWs "[") with false. cbv iota.
    change (Ascii.eqb "[" "n") with false.
    change (Ascii.eqb "[" "t") with false.
    change (Ascii.eqb "[" "f") with false.
    change (Ascii.eqb "[" dquote) with false.
    change (Ascii.eqb "[" "[") with true. cbv iota.
    pose proof Hv as Hv'. cbn [storable forallb] in Hv'.
    apply andb_true_iff in Hv'. destruct Hv' as [Hv1 _].
    assert (Hhead : token "]"
              (String "010" (indent ++ "  ")
               ++ join (line_sep (indent ++ "  "))
                       (map (stringify_indent (indent ++ "  ")) (v :: vs))
               ++ String "010" (indent ++ String "]" rest)) = None).
    { cbn [map]. rewrite join_cons.
      destruct (map (stringify_indent (indent ++ "  ")) vs);
        rewrite ?append_assoc;
        apply token_value;
        auto using all_ws_deeper. }
    rewrite Hhead.
    rewrite parse_elements_ws by (apply all_ws_deeper; exact Hi).
    rewrite IHelements; [reflexivity| | |exact Hv|].
    + rewrite all_ws_app, Hi. reflexivity.
    + exact Hi.
    + cbn [size] in Hs. unfold sizes. lia.
  - (* Obj *)
    rewrite Obj_text. cbn [parse_value skip_ws].
    change (isWs "{") with false. cbv iota.
    change (Ascii.eqb "{" "n") with false.
    change (Ascii.eqb "{" "t") with false.
    change (Ascii.eqb "{" "f") with false.
    change (Ascii.eqb "{" dquote) with false.
    change (Ascii.eqb "{" "[") with false.
    change (Ascii.eqb "{" "{") with true. cbv iota.
    assert (Hhead : token "}"
              (String "010" (indent ++ "  ")
               ++ join (line_sep (indent ++ "  "))
                       (map (member_line (indent ++ "  ")) (m :: ms))
               ++ String "010" (indent ++ String "}" rest)) = None).
    { cbn [map]. rewrite join_cons.
      destruct (map (member_line (indent ++ "  ")) ms);
        rewrite ?append_assoc;
        apply token_member;
        auto using all_ws_deeper. }
    rewrite Hhead.
    rewrite parse_members_ws by (apply all_ws_deeper; exact Hi).
    cbn [storable] in Hv. apply andb_true_iff in Hv. destruct Hv as [Hd Hv].
    rewrite IHmembers; [reflexivity| | |exact Hd|exact Hv|].
    + rewrite all_ws_app, Hi. reflexivity.
    + exact Hi.
    + cbn [size] in Hs. unfold member_sizes. lia.
Qed.

Lemma parse_elements_indent_step v vs indent stepback rest :
  all_ws indent = true -> all_ws stepback = true ->
  forallb storable (v :: vs) = true -> (sizes (v :: vs) <= S fuel)%nat ->
  parse_elements (S fuel)
    (join (line_sep indent) (map (stringify_indent indent) (v :: vs))
     ++ String "010" (stepback ++ String "]" rest))
  = Some (v :: vs, rest).
Proof.
  intros Hi Hb Hv Hs. cbn [forallb] in Hv.
  apply andb_true_iff in Hv. destruct Hv as [Hv Hvs].
  cbn [sizes fold_right] in Hs. fold (sizes vs) in Hs.
  cbn [map]. rewrite join_cons. cbn [parse_elements].
  destruct vs as [|v' vs'].
  - cbn [map]. rewrite IHvalue; [|exact Hi|exact Hv|lia|reflexivity].
    rewrite !token_line by (exact Hb || reflexivity).
    reflexivity.
  - cbn [map]. unfold line_sep at 1. rewrite !append_assoc. cbn [append].
    rewrite IHvalue; [|exact Hi|exact Hv|lia|reflexivity].
    rewrite token_here by reflexivity.
    change (stringify_indent indent v' :: map (stringify_indent indent) vs')
      with (map (stringify_indent indent) (v' :: vs')).
    rewrite parse_elements_line by exact Hi.
    rewrite IHelements; [reflexivity|exact Hi|exact Hb|exact Hvs|lia].
Qed.

Lemma parse_members_indent_step m ms indent stepback rest :
  all_ws indent = true -> all_ws stepback = true ->
  distinct (map fst (m :: ms)) = true ->
  forallb (fun m => storable (snd m)) (m :: ms) = true ->
  (member_sizes (m :: ms) <= S fuel)%nat ->
  parse_members (S fuel)
    (join (line_sep indent) (map (member_line indent) (m :: ms))
     ++ String "010" (stepback ++ String "}" rest))
  = Some (m :: ms, rest).
Proof.
  intros Hi Hb Hd Hv Hs. destruct m as [k v].
  cbn [map fst distinct] in Hd.
  apply andb_true_iff in Hd. destruct Hd as [Hk Hd].
  apply negb_true_iff in Hk.
  cbn [forallb snd] in Hv.
  apply andb_true_iff in Hv. destruct Hv as [Hv Hvs].
  cbn [member_sizes fold_right snd] in Hs. fold (member_sizes ms) in Hs.
  cbn [map]. rewrite join_cons. cbn [parse_members].
  destruct ms as [|m' ms'].
  - cbn [map]. unfold member_line. cbn [fst snd]. unfold quote.
    cbn [append]. rewrite token_here by reflexivity.
    rewrite !append_assoc. cbn [append].
    rewrite parse_chars_quote_chars.
    rewrite token_here by reflexivity.
    rewrite parse_value_space.
    rewrite IHvalue; [|exact Hi|exact Hv|lia|reflexivity].
    rewrite !token_line by (exact Hb || reflexivity).
    reflexivity.
  - cbn [map]. unfold member_line at 1. cbn [fst snd]. unfold quote at 1.
    unfold line_sep at 1.
    rewrite !append_assoc. cbn [append]. rewrite token_here by reflexivity.
    rewrite !append_assoc. cbn [append].
    rewrite parse_chars_quote_chars.
    rewrite token_here by reflexivity.
    rewrite parse_value_space.
    rewrite IHvalue; [|exact Hi|exact Hv|lia|reflexivity].
    rewrite token_here by reflexivity.
    change (member_line indent m' :: map (member_line indent) ms')
      with (map (member_line indent) (m' :: ms')).
    rewrite parse_members_line by exact Hi.
    rewrite IHmembers; [|exact Hi|exact Hb|exact Hd|exact Hvs|lia].
    unfold add_member. rewrite lookup_none by exact Hk. reflexivity.
Qed.

End Indented.

Lemma parse_indented fuel :
  (forall v indent rest,
      all_ws indent = true -> storable v = true -> (size v <= fuel)%nat ->
      number_end rest = true ->
      parse_value fuel (stringify_indent indent v ++ rest) = Some (v, rest))
  /\ (forall v vs indent stepback rest,
         all_ws indent = true -> all_ws stepback = true ->
         forallb storable (v :: vs) = true -> (sizes (v :: vs) <= fuel)%nat ->
         parse_elements fuel
           (join (line_sep indent) (map (stringify_indent indent) (v :: vs))
            ++ String "010" (stepback ++ String "]" rest))
         = Some (v :: vs, rest))
  /\ (forall m ms indent stepback rest,
         all_ws indent = true -> all_ws stepback = true ->
         distinct (map fst (m :: ms)) = true ->
         forallb (fun m => storable (snd m)) (m :: ms) = true ->
         (member_sizes (m :: ms) <= fuel)%nat ->
         parse_members fuel
           (join (line_sep indent) (map (member_line indent) (m :: ms))
            ++ String "010" (stepback ++ String "}" rest))
         = Some (m :: ms, rest)).
Proof.
  induction fuel as [|fuel (IH1 & IH2 & IH3)].
  - repeat split.
    + intros v indent rest _ _ H. pose proof (size_pos v). lia.
    + intros v vs indent stepback rest _ _ _ H. simpl in H. lia.
    + intros m ms indent stepback rest _ _ _ _ H. simpl in H. lia.
  - repeat split.
    + intros. apply parse_value_indent_step; assumption.
    + intros. apply parse_elements_indent_step; assumption.
    + intros. apply parse_members_indent_step; assumption.
Qed.

(** [JSON.parse (JSON.stringify (v, null, 2))] is [v] for every storable
    value. *)
Lemma parse_stringify_indent v :
  storable v = true -> parse (stringify_indent EmptyString v) = Some v.
Proof.
  intros Hv. unfold parse.
  destruct (parse_indented (size v)) as [H _].
  specialize (H v EmptyString EmptyString eq_refl Hv (Nat.le_refl _) eq_refl).
  rewrite append_empty_r in H.
  destruct (parse_enough (size v)) as [E _].
  destruct (E _ _ _ H) as [_ G].
  rewrite G; [reflexivity|]. cbn [String.length]. lia.
Qed.

Lemma storable_exported exportedAt sessions :
  forallb storableSession sessions = true ->
  storable (exported exportedAt sessions) = true.
Proof.
  intros Hs. unfold exported.
  cbn [storable map fst snd distinct forallb].
  rewrite (storable_sessions _ Hs). reflexivity.
Qed.

(** X29.  The file [exportAll] offers is named [weed_sessions.json] and is
    valid JSON: parsed, it is the object with the sessions, the export
    time and version 1, and its [sessions] read as sessions are the ones
    exported, field for field.  Stored under the key of the app the same
    text loads as those sessions, so an export can be brought back. *)
Theorem exportAll_parses
        (exportedAt : string) (sessions : list Session)
        (ls : LocalStorage.t) :
  forallb storableSession sessions = true ->
  fst (App.exportAll exportedAt sessions) = "weed_sessions.json"%string
  /\ parse (snd (App.exportAll exportedAt sessions))
     = Some (exported exportedAt sessions)
  /\ map Session_read
         (elements (getProp (exported exportedAt sessions) "sessions"))
     = map Some sessions
  /\ loadSessions
       (LocalStorage.setItem STORAGE_KEY
          (snd (App.exportAll exportedAt sessions)) ls)
     = map Session_toJSON sessions.
Proof.
  intros Hs. pose proof (storable_exported exportedAt sessions Hs) as He.
  assert (P : parse (snd (App.exportAll exportedAt sessions))
              = Some (exported exportedAt sessions)).
  { unfold App.exportAll, downloadJSON. cbn [snd].
    apply parse_stringify_indent. exact He. }
  refine (conj eq_refl (conj P (conj _ _))).
  - cbn. apply read_sessions.
  - rewrite loadSessions_stored, P.
    assert (T : truthyStr (snd (App.exportAll exportedAt sessions)) = true).
    { destruct (snd (App.exportAll exportedAt sessions)); [discriminate P|].
      reflexivity. }
    rewrite T. reflexivity.
Qed.

(** X29 on a list of one session with every kind of field. *)
Lemma exportAll_parses_witness :
  parse (snd (App.exportAll "2023-11-14T22:13:20.000Z" [richSession]))
  = Some (exported "2023-11-14T22:13:20.000Z" [richSession]).
Proof.
  apply (exportAll_parses "2023-11-14T22:13:20.000Z" [richSession]
           LocalStorage.empty).
  reflexivity.
Defined.
